(** * aptly, utils/download.go: the parallel HTTP fetcher

    A shallow embedding of [utils/download.go] and the properties of its
    per-task protocol ([handleTask]), of the two conveniences built on it
    ([DownloadTemp], [DownloadTryCompression]) and of the worker pool
    ([NewDownloader], [process], [Shutdown], [Pause], [Resume]).

    Sequential code is written in a small state monad with early return over
    a [world]: the file system, the channels, the task queue, the checksum
    writers, the calls made so far, and the environment the code cannot control
    (what the network answers, which system calls fail).  The worker pool is
    a step relation over the same [world]. *)

From Stdlib Require Import ZArith Ascii String.
From Stdlib.Strings Require Import Byte.
From stdpp Require Import base gmap strings list.

Local Open Scope string_scope.
Local Open Scope list_scope.

#[local] Set Warnings "-clear-no-such-hyp".

(** ** Data *)

Abbreviation bytes := (list byte).

#[global] Instance byte_eq_decision : EqDecision byte := byte_eq_dec.

(** An argument of a [fmt] format string: [%d], [%s] and [%#v] (of a
    string). *)
Inductive fmt_arg :=
  | ArgInt (n : Z)
  | ArgStr (s : string)
  | ArgGoStr (s : string).

#[global] Instance fmt_arg_eq_decision : EqDecision fmt_arg.
Proof. solve_decision. Defined.

(** Go [error] values.  [OsError] stands for the errors made outside this
    file (by [net/http], [os], [io], [compress/gzip]); [Errorf] is
    [fmt.Errorf format args...], kept unformatted.  A Go [error] that may be
    [nil] is an [option error]. *)
Inductive error :=
  | OsError (msg : string)
  | Errorf (format : string) (args : list fmt_arg).

#[global] Instance error_eq_decision : EqDecision error.
Proof. solve_decision. Defined.

(** Modelled from the spec: the type [ChecksumInfo] is declared in another
    file of the package.  "size: integer, where -1 is a sentinel meaning skip
    all verification; md5, sha1, sha256: optional strings, each empty
    meaning skip this specific check". *)
Record ChecksumInfo := mkChecksumInfo {
  Size : Z;
  MD5 : string;
  SHA1 : string;
  SHA256 : string;
}.

#[global] Instance ChecksumInfo_eq_decision : EqDecision ChecksumInfo.
Proof. solve_decision. Defined.

(** Channels are named by numbers. *)
Abbreviation chan := nat.

(** [downloadTask] represents single item in queue. *)
Record downloadTask := mkTask {
  url : string;
  destination : string;
  result : chan;
  expected : ChecksumInfo;
}.

#[global] Instance downloadTask_eq_decision : EqDecision downloadTask.
Proof. solve_decision. Defined.

(** What a path of the file system holds. *)
Inductive node :=
  | File (data : bytes)
  | Dir.

#[global] Instance node_eq_decision : EqDecision node.
Proof. solve_decision. Defined.


(** A response body: the chunks its successive [Read]s deliver, then
    [io.EOF] ([None]) or a read error. *)
Record body := mkBody {
  chunks : list bytes;
  read_err : option string;
}.

Record response := mkResponse {
  StatusCode : Z;
  Body : body;
}.

(** An open [*os.File]: the name it was opened under and what it refers to
    (which stays readable after the name is unlinked). *)
Record file := mkFile {
  name : string;
  inode : node;
}.

(** An [io.Reader]: a (possibly nil) [*os.File], or a decoder reading from
    another reader. *)
Inductive reader :=
  | FileReader (f : option file)
  | Bzip2Reader (r : reader)
  | GzipReader (r : reader).

(** The calls this file makes, in the order it makes them, with what they
    returned. *)
Inductive event :=
  | EPrintf (format : string) (args : list fmt_arg)
  | EGet (url : string)
  | EMkdirAll (path : string) (err : option error)
  | ECreate (path : string) (err : option error)
  | ECopy (err : option error)
  | ESum (id : nat)
  | ERemove (path : string)
  | ERemoveAll (path : string)
  | ERename (oldpath newpath : string) (err : option error)
  | EOpen (path : string) (err : option error)
  | ETempDir (path : string) (err : option error)
  | EEnqueue (t : downloadTask)
  | ESend (c : chan) (v : option error)
  | ERecv (c : chan) (v : option error).

#[global] Instance event_eq_decision : EqDecision event.
Proof. solve_decision. Defined.

(** ** The world *)

Record world := World {
  (** state *)
  fs : gmap string node;
  chans : gmap nat (list (option error));  (* values sent and not yet received, oldest first *)
  queue : list downloadTask;               (* [downloader.queue], oldest first *)
  writers : list bytes;                    (* the bytes each [ChecksumWriter] was given *)
  events : list event;                     (* the calls made so far *)
  clock : nat;                             (* number of fallible system calls made so far *)
  (** environment *)
  net : string -> string + response;       (* what [http.Get] answers: an error or a response *)
  fault : nat -> option string;            (* the failure, if any, of the n-th system call *)
  rand : nat -> string;                    (* the random part of temporary names *)
}.

Definition set_fs (f : gmap string node -> gmap string node) (w : world) : world :=
  World (f (fs w)) (chans w) (queue w) (writers w) (events w) (clock w)
        (net w) (fault w) (rand w).

Definition set_chans (f : gmap nat (list (option error)) -> gmap nat (list (option error)))
    (w : world) : world :=
  World (fs w) (f (chans w)) (queue w) (writers w) (events w) (clock w)
        (net w) (fault w) (rand w).

Definition set_queue (f : list downloadTask -> list downloadTask) (w : world) : world :=
  World (fs w) (chans w) (f (queue w)) (writers w) (events w) (clock w)
        (net w) (fault w) (rand w).

Definition set_writers (f : list bytes -> list bytes) (w : world) : world :=
  World (fs w) (chans w) (queue w) (f (writers w)) (events w) (clock w)
        (net w) (fault w) (rand w).

Definition set_clock (f : nat -> nat) (w : world) : world :=
  World (fs w) (chans w) (queue w) (writers w) (events w) (f (clock w))
        (net w) (fault w) (rand w).

(** Record one more call. *)
Definition log (e : event) (w : world) : world :=
  World (fs w) (chans w) (queue w) (writers w) (events w ++ [e]) (clock w)
        (net w) (fault w) (rand w).

(** The values waiting in channel [c]. *)
Definition pending (w : world) (c : chan) : list (option error) :=
  default [] (chans w !! c).

(** ** The monad: state, early return, blocking *)

(** A statement either falls through with a value, executes [return r], or
    blocks for ever. *)
Inductive outcome (R A : Type) :=
  | Next (a : A)
  | Return (r : R)
  | Blocked.
Arguments Next {R A} a.
Arguments Return {R A} r.
Arguments Blocked {R A}.

Definition M (R A : Type) : Type := world -> world * outcome R A.

Definition ret {R A} (a : A) : M R A := fun w => (w, Next a).

Definition bind {R A B} (m : M R A) (k : A -> M R B) : M R B :=
  fun w =>
    match m w with
    | (w', Next a) => k a w'
    | (w', Return r) => (w', Return r)
    | (w', Blocked) => (w', Blocked)
    end.

Notation "x <~ m ;; k" := (bind m (fun x => k))
  (at level 100, m at next level, right associativity).
Notation "m ;; k" := (bind m (fun _ => k))
  (at level 100, right associativity).

(** The Go statement [return r]. *)
Definition return_ {R A} (r : R) : M R A := fun w => (w, Return r).

(** A call of a function whose body is [m]: its [return] ends the call, not
    the caller. *)
Definition call {R R'} (m : M R R) : M R' R :=
  fun w =>
    match m w with
    | (w', Next r) => (w', Next r)
    | (w', Return r) => (w', Next r)
    | (w', Blocked) => (w', Blocked)
    end.

(** [defer d] followed by the rest [m] of the function: [d] runs when the
    function ends, whichever way (a function blocked for ever never gets
    there); what [d] returns is dropped. *)
Definition defer {R A B} (d : M B B) (m : M R A) : M R A :=
  fun w =>
    match m w with
    | (w', Blocked) => (w', Blocked)
    | (w', o) => (fst (call (R':=unit) d w'), o)
    end.

(** A primitive: a total change of the world. *)
Definition prim {R A} (f : world -> world * A) : M R A :=
  fun w => let '(w', a) := f w in (w', Next a).

(** [if err != nil { handler }]. *)
Definition if_err {R} (err : option error) (handler : M R unit) : M R unit :=
  match err with
  | Some _ => handler
  | None => ret tt
  end.

(** [if c { body }]. *)
Definition when {R} (c : bool) (m : M R unit) : M R unit :=
  if c then m else ret tt.

(** ** What the platform provides

    [path/filepath], the directories [os.MkdirAll] walks through,
    [os.TempDir], the three digests and the check [gzip.NewReader] makes of
    the header are taken as given. *)
Class Platform := {
  filepath_Dir : string -> string;
  filepath_Join : string -> string -> string;
  (** the directories [os.MkdirAll p] makes sure exist: the ancestors of [p]
      and [p] itself, outermost first *)
  mkdir_chain : string -> list string;
  os_TempDir : string;
  md5sum : bytes -> string;
  sha1sum : bytes -> string;
  sha256sum : bytes -> string;
  (** the error of [gzip.NewReader r], if [r] does not start with a gzip
      header *)
  gzip_header_error : reader -> option string;
}.

(** [k] is [dir] or lies below it. *)
Definition under (dir k : string) : bool :=
  bool_decide (k = dir) || String.prefix (dir +:+ "/") k.

(** The components of a path, between its separators: "/srv/t/" has "",
    "srv", "t" and ""; [cur] is the component being read. *)
Fixpoint components (cur p : string) : list string :=
  match p with
  | "" => [cur]
  | String c p' =>
      if Ascii.eqb c "/" then cur :: components "" p'
      else components (cur +:+ String c "") p'
  end.

(** A component that names an entry of its own: not empty, not "." and not
    "..". *)
Definition proper (c : string) : bool :=
  negb (String.eqb c "") && negb (String.eqb c ".") && negb (String.eqb c "..").

(** A regular file can be put only at a path whose last component is proper:
    not at the empty path, nor at one that ends in a separator, in "." or in
    "..", which name a directory or nothing. *)
Definition names_file (path : string) : bool :=
  match last (components "" path) with
  | Some c => proper c
  | None => false
  end.

(** A path as [filepath.Clean] leaves it that names neither a root nor "." or
    "..": every component is proper (after the empty one an absolute path
    starts with), and there is no zero byte. *)
Definition clean_path (path : string) : bool :=
  match components "" path with
  | "" :: c :: cs => forallb proper (c :: cs)
  | cs => forallb proper cs
  end
  && forallb (fun a => negb (Ascii.eqb a "000")) (list_ascii_of_string path).




Section Download.

Context {platform : Platform}.

(** ** System calls

    A call whose error result the code looks at may fail for reasons of its
    own (permissions, a full disk, a name too long for the file system, a
    broken connection): it asks [fault] first.  [os.Remove] and
    [os.RemoveAll], whose result the code drops, do what their documentation
    says on the modelled file system. *)

Definition syscall_fault (w : world) : world * option error :=
  (set_clock S w, OsError <$> fault w (clock w)).

(** [fmt.Printf format args...]. *)
Definition fmt_Printf {R} (format : string) (args : list fmt_arg) : M R unit :=
  prim (fun w => (log (EPrintf format args) w, tt)).

(** [http.Get url]. *)
Definition http_Get {R} (u : string) : M R (error + response) :=
  prim (fun w =>
    (log (EGet u) w,
     match net w u with inl msg => inl (OsError msg) | inr resp => inr resp end)).

(** [resp.Body.Close()] and [outfile.Close()] change nothing that is
    modelled. *)
Definition Close {R} : M R unit := ret tt.

(** [os.MkdirAll path perm]: create the missing directories of the chain,
    outermost first; stop at the first that is a regular file or cannot be
    created. *)
Fixpoint mkdir_each (ds : list string) (w : world) : world * option error :=
  match ds with
  | [] => (w, None)
  | d :: ds' =>
      match fs w !! d with
      | Some Dir => mkdir_each ds' w
      | Some (File _) => (w, Some (OsError "mkdir: not a directory"))
      | None =>
          let '(w1, f) := syscall_fault w in
          match f with
          | Some e => (w1, Some e)
          | None => mkdir_each ds' (set_fs (fun m => <[d := Dir]> m) w1)
          end
      end
  end.

Definition os_MkdirAll {R} (path : string) : M R (option error) :=
  prim (fun w =>
    let '(w1, err) := mkdir_each (mkdir_chain path) w in
    (log (EMkdirAll path err) w1, err)).

(** [os.Create path]: create or truncate the regular file [path].  (The
    only path it is given here ends in ".down".) *)
Definition os_Create {R} (path : string) : M R (option error) :=
  prim (fun w =>
    let '(w1, f) := syscall_fault w in
    let '(w2, err) :=
      match f with
      | Some e => (w1, Some e)
      | None =>
          match fs w1 !! path with
          | Some Dir => (w1, Some (OsError "open: is a directory"))
          | _ => (set_fs (fun m => <[path := File []]> m) w1, None)
          end
      end in
    (log (ECreate path err) w2, err)).

(** [os.Remove path]: remove the file or empty directory [path]. *)
Definition os_Remove {R} (path : string) : M R (option error) :=
  prim (fun w =>
    let w := log (ERemove path) w in
    match fs w !! path with
    | Some (File _) => (set_fs (fun m => delete path m) w, None)
    | Some Dir =>
        if bool_decide (map_Forall (fun k _ => k = path \/ under path k = false) (fs w))
        then (set_fs (fun m => delete path m) w, None)
        else (w, Some (OsError "remove: directory not empty"))
    | None => (w, Some (OsError "remove: no such file or directory"))
    end).

(** [os.RemoveAll path]: remove [path] and everything below it; no error if
    it does not exist. *)
Definition os_RemoveAll {R} (path : string) : M R (option error) :=
  prim (fun w =>
    (set_fs (fun m => filter (fun kv => under path kv.1 = false) m)
            (log (ERemoveAll path) w), None)).

(** [os.Rename oldpath newpath] of a regular file: it replaces a regular
    file at [newpath], not a directory, and [newpath] has to be a path that
    can name a regular file (a rename to the empty path, or to one that ends
    in a separator, fails); a failed rename changes nothing.  (Renaming a
    directory is not needed here and is reported as an error.) *)
Definition os_Rename {R} (oldpath newpath : string) : M R (option error) :=
  prim (fun w =>
    let '(w1, f) := syscall_fault w in
    let '(w2, err) :=
      match f with
      | Some e => (w1, Some e)
      | None =>
          match fs w1 !! oldpath with
          | Some (File d) =>
              if names_file newpath then
                match fs w1 !! newpath with
                | Some Dir => (w1, Some (OsError "rename: is a directory"))
                | _ => (set_fs (fun m => <[newpath := File d]> (delete oldpath m)) w1, None)
                end
              else (w1, Some (OsError (if String.eqb newpath ""
                                       then "rename: no such file or directory"
                                       else "rename: not a directory")))
          | Some Dir => (w1, Some (OsError "rename: directory"))
          | None => (w1, Some (OsError "rename: no such file or directory"))
          end
      end in
    (log (ERename oldpath newpath err) w2, err)).

(** [os.Open path]. *)
Definition os_Open {R} (path : string) : M R (option file * option error) :=
  prim (fun w =>
    let '(w1, f) := syscall_fault w in
    let r :=
      match f with
      | Some e => (None, Some e)
      | None =>
          match fs w1 !! path with
          | Some n => (Some (mkFile path n), None)
          | None => (None, Some (OsError "open: no such file or directory"))
          end
      end in
    (log (EOpen path r.2) w1, r)).

(** [ioutil.TempDir dir prefix]: make a new directory [dir/prefixNNN]. *)
Definition ioutil_TempDir {R} (dir pfx : string) : M R (string * option error) :=
  prim (fun w =>
    let '(w1, f) := syscall_fault w in
    let path := filepath_Join dir (pfx +:+ rand w (clock w)) in
    match f with
    | Some e => (log (ETempDir "" (Some e)) w1, ("", Some e))
    | None =>
        match fs w1 !! path with
        | Some _ =>
            let e := OsError "mkdir: file exists" in
            (log (ETempDir "" (Some e)) w1, ("", Some e))
        | None =>
            (log (ETempDir path None) (set_fs (fun m => <[path := Dir]> m) w1),
             (path, None))
        end
    end).

(** ** Writers *)

#[warnings="-register-all"] Inductive writer :=
  | FileWriter (path : string)         (* an [*os.File] open for writing *)
  | ChecksumWriter (id : nat)          (* a [*ChecksumWriter] *)
  | MultiWriter (ws : list writer).    (* [io.MultiWriter ws...] *)

(** Modelled from the spec: [NewChecksumWriter] and its methods are in
    another file of the package.  "Accepts a stream of bytes, and on
    finalize yields size, md5, sha1, sha256." *)
Definition NewChecksumWriter {R} : M R nat :=
  prim (fun w => (set_writers (fun l => l ++ [[]]) w, length (writers w))).

Definition checksum_Write (id : nat) (p : bytes) (w : world) : world * option error :=
  (set_writers (fun l => <[id := default [] (l !! id) ++ p]> l) w, None).

(** The [ChecksumInfo] of the bytes [b]. *)
Definition checksums (b : bytes) : ChecksumInfo :=
  mkChecksumInfo (Z.of_nat (length b)) (md5sum b) (sha1sum b) (sha256sum b).

Definition checksum_Sum {R} (id : nat) : M R ChecksumInfo :=
  prim (fun w => (log (ESum id) w, checksums (default [] (writers w !! id)))).

(** [outfile.Write p]. *)
Definition file_Write (path : string) (p : bytes) (w : world) : world * option error :=
  let '(w1, f) := syscall_fault w in
  match f with
  | Some e => (w1, Some e)
  | None =>
      match fs w1 !! path with
      | Some (File d) => (set_fs (fun m => <[path := File (d ++ p)]> m) w1, None)
      | _ => (w1, Some (OsError "write: bad file descriptor"))
      end
  end.

(** [w.Write p]; a multi-writer writes to each of its writers in turn and
    stops at the first error. *)
Fixpoint write (wr : writer) (p : bytes) (w : world) : world * option error :=
  match wr with
  | FileWriter path => file_Write path p w
  | ChecksumWriter id => checksum_Write id p w
  | MultiWriter ws =>
      (fix each (ws : list writer) (w : world) : world * option error :=
         match ws with
         | [] => (w, None)
         | wr' :: ws' =>
             match write wr' p w with
             | (w1, Some e) => (w1, Some e)
             | (w1, None) => each ws' w1
             end
         end) ws w
  end.

(** [io.Copy dst src], for the chunks [src] still has to deliver. *)
Fixpoint copy_chunks (dst : writer) (cs : list bytes) (w : world) : world * option error :=
  match cs with
  | [] => (w, None)
  | c :: cs' =>
      match write dst c w with
      | (w1, Some e) => (w1, Some e)
      | (w1, None) => copy_chunks dst cs' w1
      end
  end.

Definition io_Copy {R} (dst : writer) (src : body) : M R (option error) :=
  prim (fun w =>
    let '(w1, err) :=
      match copy_chunks dst (chunks src) w with
      | (w1, Some e) => (w1, Some e)
      | (w1, None) => (w1, OsError <$> read_err src)
      end in
    (log (ECopy err) w1, err)).

(** ** The result channel *)

(** [c <- v].  The result channel is taken to have a reader or room, as its
    caller must see to. *)
Definition chan_send {R} (c : chan) (v : option error) : M R unit :=
  prim (fun w =>
    (set_chans (fun m => <[c := pending w c ++ [v]]> m) (log (ESend c v) w), tt)).

(** ** handleTask *)

(** [handleTask] processes single download task. *)
Definition handleTask (task : downloadTask) : M unit unit :=
  fmt_Printf "Downloading %s...\n" [ArgStr (url task)] ;;
  r <~ http_Get (url task) ;;
  match r with
  | inl err =>
      chan_send (result task) (Some err) ;;
      return_ tt
  | inr resp =>
  defer Close (
  when ((StatusCode resp <? 200)%Z || (StatusCode resp >? 299)%Z) (
    chan_send (result task)
      (Some (Errorf "HTTP code %d while fetching %s"
                    [ArgInt (StatusCode resp); ArgStr (url task)])) ;;
    return_ tt) ;;
  err <~ os_MkdirAll (filepath_Dir (destination task)) ;;
  if_err err (
    chan_send (result task) err ;;
    return_ tt) ;;
  let temppath := destination task +:+ ".down" in
  err <~ os_Create temppath ;;
  let outfile := FileWriter temppath in
  if_err err (
    chan_send (result task) err ;;
    return_ tt) ;;
  defer Close (
  checksummer <~ NewChecksumWriter ;;
  let w :=
    if bool_decide (Size (expected task) ≠ (-1)%Z)
    then MultiWriter [outfile; ChecksumWriter checksummer]
    else outfile in
  err <~ io_Copy w (Body resp) ;;
  if_err err (
    os_Remove temppath ;;
    chan_send (result task) err ;;
    return_ tt) ;;
  when (bool_decide (Size (expected task) ≠ (-1)%Z)) (
    actual <~ checksum_Sum checksummer ;;
    let err :=
      if bool_decide (Size actual ≠ Size (expected task)) then
        Some (Errorf "%s: size check mismatch %d != %d"
                [ArgStr (url task); ArgInt (Size actual); ArgInt (Size (expected task))])
      else if bool_decide (MD5 (expected task) ≠ "")
              && bool_decide (MD5 actual ≠ MD5 (expected task)) then
        Some (Errorf "%s: md5 hash mismatch %#v != %#v"
                [ArgStr (url task); ArgGoStr (MD5 actual); ArgGoStr (MD5 (expected task))])
      else if bool_decide (SHA1 (expected task) ≠ "")
              && bool_decide (SHA1 actual ≠ SHA1 (expected task)) then
        Some (Errorf "%s: sha1 hash mismatch %#v != %#v"
                [ArgStr (url task); ArgGoStr (SHA1 actual); ArgGoStr (SHA1 (expected task))])
      else if bool_decide (SHA256 (expected task) ≠ "")
              && bool_decide (SHA256 actual ≠ SHA256 (expected task)) then
        Some (Errorf "%s: sha256 hash mismatch %#v != %#v"
                [ArgStr (url task); ArgGoStr (SHA256 actual); ArgGoStr (SHA256 (expected task))])
      else err in
    if_err err (
      os_Remove temppath ;;
      chan_send (result task) err ;;
      return_ tt)) ;;
  err <~ os_Rename temppath (destination task) ;;
  if_err err (
    os_Remove temppath ;;
    chan_send (result task) err ;;
    return_ tt) ;;
  chan_send (result task) None))
  end.

(** The world after a worker has run [handleTask task] in [w]. *)
Definition after (task : downloadTask) (w : world) : world :=
  (call (R':=unit) (handleTask task) w).1.

(** ** The pool, seen from one caller

    For the code that runs in the caller's goroutine, the pool is a worker
    that is running ([process], case [task := <-downloader.queue]) and takes
    its turn whenever the caller has to wait: for room in the queue, or for a
    value on a channel.  With a pool that has no such worker (no threads,
    every worker paused or stopped) the caller would wait for ever: what
    follows describes the runs with a pool that works, and says nothing of
    the others. *)

Definition worker_turn (w : world) : world :=
  match queue w with
  | [] => w
  | task :: q => after task (set_queue (fun _ => q) w)
  end.

(** [downloader.queue <- task], a channel of capacity 1000. *)
Definition queue_send {R} (task : downloadTask) : M R unit :=
  prim (fun w =>
    let w1 := if bool_decide (length (queue w) < 1000) then w else worker_turn w in
    (set_queue (fun q => q ++ [task]) (log (EEnqueue task) w1), tt)).

(** [make(chan error, 1)]: a channel nothing refers to yet. *)
Definition make_chan {R} : M R chan :=
  prim (fun w =>
    let c := fresh (dom (chans w) ∪ list_to_set (result <$> queue w) : gset nat) in
    (set_chans (fun m => <[c := []]> m) w, c)).

(** [<-c]: take the oldest value; while there is none the worker works; with
    no value and nothing queued the caller waits for ever. *)
Fixpoint recv_loop {R} (turns : nat) (c : chan) (w : world) : world * outcome R (option error) :=
  match pending w c with
  | v :: vs => (set_chans (fun m => <[c := vs]> m) (log (ERecv c v) w), Next v)
  | [] =>
      match turns, queue w with
      | S n, _ :: _ => recv_loop n c (worker_turn w)
      | _, _ => (w, Blocked)
      end
  end.

Definition chan_recv {R} (c : chan) : M R (option error) :=
  fun w => recv_loop (length (queue w)) c w.

(** [DownloadWithChecksum] starts new download task with checksum
    verification. *)
Definition DownloadWithChecksum (url destination : string) (result : chan)
    (expected : ChecksumInfo) : M unit unit :=
  queue_send (mkTask url destination result expected).

(** [Download] starts new download task. *)
Definition Download (url destination : string) (result : chan) : M unit unit :=
  call (DownloadWithChecksum url destination result (mkChecksumInfo (-1) "" "" "")).

(** ** DownloadTemp *)

(** [DownloadTemp] starts new download to temporary file and returns File.
    (The only [Downloader] there is is the pool of the world.) *)
Definition DownloadTemp (url : string)
    : M (option file * option error) (option file * option error) :=
  r <~ ioutil_TempDir os_TempDir "aptly" ;;
  let '(tempdir, err) := r in
  if_err err (
    return_ (None, err)) ;;
  defer (os_RemoveAll tempdir) (
  let tempfile := filepath_Join tempdir "buffer" in
  ch <~ make_chan ;;
  call (Download url tempfile ch) ;;
  err <~ chan_recv ch ;;
  if_err err (
    return_ (None, err)) ;;
  r <~ os_Open tempfile ;;
  let '(file, err) := r in
  if_err err (
    return_ (None, err)) ;;
  return_ (file, None)).

(** ** DownloadTryCompression *)

Record method := mkMethod {
  extenstion : string;
  transformation : reader -> option reader * option error;
}.

(** List of extensions + corresponding uncompression support. *)
Definition compressionMethods : list method :=
  [ mkMethod ".bz2" (fun r => (Some (Bzip2Reader r), None));
    mkMethod ".gz" (fun r =>
      match gzip_header_error r with
      | Some msg => (None, Some (OsError msg))
      | None => (Some (GzipReader r), None)
      end);
    mkMethod "" (fun r => (Some r, None)) ].

(** The loop of [DownloadTryCompression] over the methods still to try;
    [err] is the variable of that name.  It falls through with [err] when
    the methods are exhausted. *)
Fixpoint try_methods (url : string) (methods : list method) (err : option error)
    : M (option reader * option file * option error) (option error) :=
  match methods with
  | [] => ret err
  | method :: rest =>
      r <~ call (DownloadTemp (url +:+ extenstion method)) ;;
      let '(file, err) := r in
      match err with
      | Some _ => try_methods url rest err
      | None =>
          let '(uncompressed, err) := transformation method (FileReader file) in
          match err with
          | Some _ => try_methods url rest err
          | None => return_ (uncompressed, file, err)
          end
      end
  end.

(** [DownloadTryCompression] tries to download from URL .bz2, .gz and raw
    extension until it finds existing file. *)
Definition DownloadTryCompression (url : string)
    : M (option reader * option file * option error)
        (option reader * option file * option error) :=
  err <~ try_methods url compressionMethods None ;;
  return_ (None, None, err).

(** ** What a run of handleTask did *)

(** The calls made between [w] and the later [w']. *)
Definition new_events (w w' : world) : list event :=
  drop (length (events w)) (events w').

(** The values sent on channel [c] by the sends among [evs]. *)
Definition sent_on (c : chan) (evs : list event) : list (option error) :=
  omap (fun e => match e with
                 | ESend c' v => if bool_decide (c' = c) then Some v else None
                 | _ => None
                 end) evs.

(** The outcomes that run delivered on the result channel of the task. *)
Definition reported (task : downloadTask) (w : world) : list (option error) :=
  sent_on (result task) (new_events w (after task w)).

(** ** The pool: process, Shutdown

    The goroutines of the pool as a transition system.  The control
    channels [stop], [stopped], [pause] and [unpause] have no buffer: a send
    and its receive are one step.  [Pause] and [Resume] are called by the
    environment; one call of [Shutdown] is followed.  Each worker carries
    counters of what it has received and done so far. *)

(** Where a worker ([process]) is. *)
Inductive wstate :=
  | Selecting                        (* at the [select] *)
  | Handling (task : downloadTask)   (* in [downloader.handleTask(task)] *)
  | Paused                           (* at [<-downloader.unpause] *)
  | Stopping                         (* at [downloader.stopped <- true] *)
  | Exited.                          (* returned *)

Record worker := Worker {
  at_ : wstate;
  stops : nat;                       (* stop tokens received *)
  acks : nat;                        (* acknowledgments sent *)
  taken : list downloadTask;         (* tasks received from the queue *)
  finished : list downloadTask;      (* tasks whose [handleTask] has returned *)
}.

(** Where the caller of [Shutdown] is: before the call, at the head of the
    first or of the second loop with its counter [i], after the return. *)
Inductive sstate :=
  | NotCalled
  | Sending (i : Z)
  | Receiving (i : Z)
  | Returned.

Record pool := Pool {
  threads : Z;
  workers : list worker;
  shutdown : sstate;
  pworld : world;
}.

(** [NewDownloader] creates new instance of Downloader which specified number
    of threads. *)
Definition NewDownloader (threads : Z) (w : world) : pool :=
  Pool threads
       (replicate (Z.to_nat threads) (Worker Selecting 0 0 [] []))
       NotCalled
       (set_queue (fun _ => []) w).

Inductive action :=
  | CallShutdown
  | SendStop (k : nat)               (* [stop <- true] met by worker [k] *)
  | EndSends                         (* the first loop of [Shutdown] ends *)
  | RecvStopped (k : nat)            (* [<-stopped] met by worker [k] *)
  | ReturnShutdown
  | RecvPause (k : nat)
  | RecvUnpause (k : nat)
  | TakeTask (k : nat) (task : downloadTask)
  | FinishTask (k : nat) (task : downloadTask)
  | Submit (task : downloadTask).

(** The steps of [Shutdown] itself. *)
Definition of_shutdown (a : action) : bool :=
  match a with
  | CallShutdown | SendStop _ | EndSends | RecvStopped _ | ReturnShutdown => true
  | _ => false
  end.

Definition set_worker (k : nat) (wk : worker) (p : pool) : pool :=
  Pool (threads p) (<[k := wk]> (workers p)) (shutdown p) (pworld p).

Definition set_shutdown (s : sstate) (p : pool) : pool :=
  Pool (threads p) (workers p) s (pworld p).

Definition set_pworld (w : world) (p : pool) : pool :=
  Pool (threads p) (workers p) (shutdown p) w.

Inductive step : pool -> action -> pool -> Prop :=
  | step_call p :
      shutdown p = NotCalled ->
      step p CallShutdown (set_shutdown (Sending 0) p)
  (* [for i := 0; i < downloader.threads; i++ { downloader.stop <- true }]
     meets [case <-downloader.stop:] of a worker at its select *)
  | step_stop p i k wk :
      shutdown p = Sending i -> (i < threads p)%Z ->
      workers p !! k = Some wk -> at_ wk = Selecting ->
      step p (SendStop k)
           (set_shutdown (Sending (i + 1))
              (set_worker k (Worker Stopping (S (stops wk)) (acks wk) (taken wk) (finished wk)) p))
  | step_end_sends p i :
      shutdown p = Sending i -> ¬ (i < threads p)%Z ->
      step p EndSends (set_shutdown (Receiving 0) p)
  (* [for i := 0; i < downloader.threads; i++ { <-downloader.stopped }]
     meets [downloader.stopped <- true; return] of a worker *)
  | step_stopped p i k wk :
      shutdown p = Receiving i -> (i < threads p)%Z ->
      workers p !! k = Some wk -> at_ wk = Stopping ->
      step p (RecvStopped k)
           (set_shutdown (Receiving (i + 1))
              (set_worker k (Worker Exited (stops wk) (S (acks wk)) (taken wk) (finished wk)) p))
  | step_return p i :
      shutdown p = Receiving i -> ¬ (i < threads p)%Z ->
      step p ReturnShutdown (set_shutdown Returned p)
  (* [case <-downloader.pause: <-downloader.unpause] *)
  | step_pause p k wk :
      workers p !! k = Some wk -> at_ wk = Selecting ->
      step p (RecvPause k)
           (set_worker k (Worker Paused (stops wk) (acks wk) (taken wk) (finished wk)) p)
  | step_unpause p k wk :
      workers p !! k = Some wk -> at_ wk = Paused ->
      step p (RecvUnpause k)
           (set_worker k (Worker Selecting (stops wk) (acks wk) (taken wk) (finished wk)) p)
  (* [case task := <-downloader.queue: downloader.handleTask(task)] *)
  | step_take p k wk task q :
      workers p !! k = Some wk -> at_ wk = Selecting ->
      queue (pworld p) = task :: q ->
      step p (TakeTask k task)
           (set_pworld (set_queue (fun _ => q) (pworld p))
              (set_worker k (Worker (Handling task) (stops wk) (acks wk)
                                    (taken wk ++ [task]) (finished wk)) p))
  | step_finish p k wk task :
      workers p !! k = Some wk -> at_ wk = Handling task ->
      step p (FinishTask k task)
           (set_pworld (after task (pworld p))
              (set_worker k (Worker Selecting (stops wk) (acks wk)
                                    (taken wk) (finished wk ++ [task])) p))
  (* [downloader.queue <- task] by a caller of [DownloadWithChecksum] *)
  | step_submit p task :
      length (queue (pworld p)) < 1000 ->
      step p (Submit task)
           (set_pworld (set_queue (fun q => q ++ [task]) (pworld p)) p).

(** The states a pool made by [NewDownloader] can be in. *)
Inductive reachable (n : Z) (w : world) : pool -> Prop :=
  | reach_new : reachable n w (NewDownloader n w)
  | reach_step p a p' : reachable n w p -> step p a p' -> reachable n w p'.

(** ** Notions the properties are stated with *)

(** Parts of the world a system call leaves alone. *)
Definition same_rest (w w' : world) : Prop :=
  chans w' = chans w /\ queue w' = queue w /\ events w' = events w /\
  net w' = net w /\ fault w' = fault w /\ rand w' = rand w.

(** An error made outside this file. *)
Definition external (err : option error) : Prop :=
  match err with
  | Some (Errorf _ _) => False
  | _ => True
  end.

(** [m'] is [m] with some missing directories made. *)
Definition grown (m m' : gmap string node) : Prop :=
  forall k, m' !! k = m !! k \/ (m !! k = None /\ m' !! k = Some Dir).

(** Lines 152-160: the error the checks leave in [err], which was [nil]. *)
Definition mismatch (u : string) (actual exp : ChecksumInfo) : option error :=
  if bool_decide (Size actual ≠ Size exp) then
    Some (Errorf "%s: size check mismatch %d != %d"
            [ArgStr u; ArgInt (Size actual); ArgInt (Size exp)])
  else if bool_decide (MD5 exp ≠ "") && bool_decide (MD5 actual ≠ MD5 exp) then
    Some (Errorf "%s: md5 hash mismatch %#v != %#v"
            [ArgStr u; ArgGoStr (MD5 actual); ArgGoStr (MD5 exp)])
  else if bool_decide (SHA1 exp ≠ "") && bool_decide (SHA1 actual ≠ SHA1 exp) then
    Some (Errorf "%s: sha1 hash mismatch %#v != %#v"
            [ArgStr u; ArgGoStr (SHA1 actual); ArgGoStr (SHA1 exp)])
  else if bool_decide (SHA256 exp ≠ "") && bool_decide (SHA256 actual ≠ SHA256 exp) then
    Some (Errorf "%s: sha256 hash mismatch %#v != %#v"
            [ArgStr u; ArgGoStr (SHA256 actual); ArgGoStr (SHA256 exp)])
  else None.

(** What a run leaves: the file system, the calls it made, the value it
    sent, the checksum writers it made (with the bytes they got). *)
Record summary := Summary {
  s_fs : gmap string node;
  s_events : list event;
  s_value : option error;
  s_sunk : list bytes;
}.

Section Paths.

Variable t : downloadTask.
Variable w : world.

Local Abbreviation temp := (destination t +:+ ".down").
Local Abbreviation dir := (filepath_Dir (destination t)).
Local Abbreviation id := (length (writers w)).
Local Abbreviation start :=
  [EPrintf "Downloading %s...\n" [ArgStr (url t)]; EGet (url t)].
Local Abbreviation verifying := (bool_decide (Size (expected t) ≠ (-1)%Z)).
Local Abbreviation summing := (if verifying then [ESum id] else []).

(** The directories are there, the temporary file can be made, and nothing
    else was touched. *)
Definition prepared (m1 : gmap string node) : Prop :=
  grown (fs w) m1 /\ (forall d, d ∈ mkdir_chain dir -> m1 !! d = Some Dir) /\
  m1 !! temp ≠ Some Dir /\
  (forall k, k ∉ mkdir_chain dir -> m1 !! k = fs w !! k).

Definition in_range (resp : response) : Prop :=
  (200 <= StatusCode resp <= 299)%Z.

Inductive protocol : summary -> Prop :=
  | path_transport msg :
      net w (url t) = inl msg ->
      protocol (Summary (fs w)
        (start ++ [ESend (result t) (Some (OsError msg))])
        (Some (OsError msg)) [])
  | path_status resp :
      net w (url t) = inr resp -> ¬ in_range resp ->
      let e := Errorf "HTTP code %d while fetching %s"
                 [ArgInt (StatusCode resp); ArgStr (url t)] in
      protocol (Summary (fs w) (start ++ [ESend (result t) (Some e)]) (Some e) [])
  | path_mkdir resp m1 msg :
      net w (url t) = inr resp -> in_range resp -> grown (fs w) m1 ->
      let e := OsError msg in
      protocol (Summary m1
        (start ++ [EMkdirAll dir (Some e); ESend (result t) (Some e)]) (Some e) [])
  | path_create resp m1 msg :
      net w (url t) = inr resp -> in_range resp -> grown (fs w) m1 ->
      (forall d, d ∈ mkdir_chain dir -> m1 !! d = Some Dir) ->
      let e := OsError msg in
      protocol (Summary m1
        (start ++ [EMkdirAll dir None; ECreate temp (Some e); ESend (result t) (Some e)])
        (Some e) [])
  | path_copy resp m1 msg sunk :
      net w (url t) = inr resp -> in_range resp -> prepared m1 ->
      (verifying = false -> sunk = []) ->
      let e := OsError msg in
      protocol (Summary (delete temp m1)
        (start ++ [EMkdirAll dir None; ECreate temp None; ECopy (Some e);
                   ERemove temp; ESend (result t) (Some e)])
        (Some e) [sunk])
  | path_verify resp m1 e :
      net w (url t) = inr resp -> in_range resp -> prepared m1 ->
      read_err (Body resp) = None -> verifying = true ->
      mismatch (url t) (checksums (concat (chunks (Body resp)))) (expected t) = Some e ->
      protocol (Summary (delete temp m1)
        (start ++ [EMkdirAll dir None; ECreate temp None; ECopy None; ESum id;
                   ERemove temp; ESend (result t) (Some e)])
        (Some e) [concat (chunks (Body resp))])
  | path_rename resp m1 msg :
      net w (url t) = inr resp -> in_range resp -> prepared m1 ->
      read_err (Body resp) = None ->
      (verifying = true ->
       mismatch (url t) (checksums (concat (chunks (Body resp)))) (expected t) = None) ->
      let e := OsError msg in
      protocol (Summary (delete temp m1)
        (start ++ [EMkdirAll dir None; ECreate temp None; ECopy None] ++ summing ++
                  [ERename temp (destination t) (Some e); ERemove temp;
                   ESend (result t) (Some e)])
        (Some e) [if verifying then concat (chunks (Body resp)) else []])
  | path_success resp m1 :
      net w (url t) = inr resp -> in_range resp -> prepared m1 ->
      read_err (Body resp) = None ->
      (verifying = true ->
       mismatch (url t) (checksums (concat (chunks (Body resp)))) (expected t) = None) ->
      protocol (Summary (<[destination t := File (concat (chunks (Body resp)))]> (delete temp m1))
        (start ++ [EMkdirAll dir None; ECreate temp None; ECopy None] ++ summing ++
                  [ERename temp (destination t) None; ESend (result t) None])
        None [if verifying then concat (chunks (Body resp)) else []]).

End Paths.

(** An error made by the line that checks the status code. *)
Definition is_status_error (e : error) : Prop :=
  exists code u, e = Errorf "HTTP code %d while fetching %s" [ArgInt code; ArgStr u].

(** The tasks put in the queue, and the values received, among [evs]. *)
Definition enqueued (evs : list event) : list downloadTask :=
  omap (fun e => match e with EEnqueue t => Some t | _ => None end) evs.

Definition received (evs : list event) : list (chan * option error) :=
  omap (fun e => match e with ERecv c v => Some (c, v) | _ => None end) evs.

(** The calls [handleTask] makes. *)
Definition worker_event (e : event) : Prop :=
  match e with
  | EEnqueue _ | ERecv _ _ | ETempDir _ _ | EOpen _ _ | ERemoveAll _ => False
  | _ => True
  end.

(** What the counters of a worker are, by where it is. *)
Definition worker_ok (wk : worker) : Prop :=
  match at_ wk with
  | Selecting | Paused => stops wk = 0 /\ acks wk = 0 /\ finished wk = taken wk
  | Handling task => stops wk = 0 /\ acks wk = 0 /\ taken wk = finished wk ++ [task]
  | Stopping => stops wk = 1 /\ acks wk = 0 /\ finished wk = taken wk
  | Exited => stops wk = 1 /\ acks wk = 1 /\ finished wk = taken wk
  end.

(** Stop tokens delivered and acknowledgments received, over the pool. *)
Definition tokens (ws : list worker) : nat := sum_list (stops <$> ws).
Definition acked (ws : list worker) : nat := sum_list (acks <$> ws).

Definition shutdown_ok (p : pool) : Prop :=
  match shutdown p with
  | NotCalled => tokens (workers p) = 0 /\ acked (workers p) = 0
  | Sending i => Z.of_nat (tokens (workers p)) = i /\ acked (workers p) = 0
  | Receiving i =>
      tokens (workers p) = length (workers p) /\ Z.of_nat (acked (workers p)) = i
  | Returned =>
      tokens (workers p) = length (workers p) /\ acked (workers p) = length (workers p)
  end.

Definition pool_inv (n : Z) (p : pool) : Prop :=
  threads p = n /\ length (workers p) = Z.to_nat n /\
  Forall worker_ok (workers p) /\ shutdown_ok p.

(** ** What a piece of code keeps *)



(** ** Runs of the pool *)

(** A run of a transition system, with the steps taken, oldest first. *)
Inductive trace {St Act : Type} (step : St -> Act -> St -> Prop)
    : St -> list Act -> St -> Prop :=
  | trace_nil s : trace step s [] s
  | trace_snoc s tr s' a s'' :
      trace step s tr s' -> step s' a s'' -> trace step s (tr ++ [a]) s''.

Definition run : pool -> list action -> pool -> Prop := trace step.

(** The tasks put in the queue, taken from it, and done, in a run. *)
Definition submitted (tr : list action) : list downloadTask :=
  omap (fun a => match a with Submit task => Some task | _ => None end) tr.

Definition started (tr : list action) : list downloadTask :=
  omap (fun a => match a with TakeTask _ task => Some task | _ => None end) tr.

Definition completed (tr : list action) : list downloadTask :=
  omap (fun a => match a with FinishTask _ task => Some task | _ => None end) tr.

(** ** Pause, Resume

    The calls of [Pause] and [Resume] are made one after the other, by one
    goroutine: it is between two calls, or at the head of the loop of a call
    with its counter [i].  Its sends on [pause] and [unpause] are the
    receives of the workers, which nobody else causes. *)
Inductive cstate :=
  | Idle
  | Pausing (i : Z)
  | Resuming (i : Z).

Record system := System {
  the_pool : pool;
  control : cstate;
}.

Inductive caction :=
  | CallPause
  | ReturnPause
  | CallResume
  | ReturnResume
  | OfPool (a : action).

(** The receives that answer [Pause] and [Resume]. *)
Definition of_control (a : action) : bool :=
  match a with
  | RecvPause _ | RecvUnpause _ => true
  | _ => false
  end.

Inductive cstep : system -> caction -> system -> Prop :=
  | cstep_call_pause p :
      cstep (System p Idle) CallPause (System p (Pausing 0))
  (* [for i := 0; i < downloader.threads; i++ { downloader.pause <- true }]
     meets [case <-downloader.pause:] of a worker at its select *)
  | cstep_pause p i k p' :
      (i < threads p)%Z -> step p (RecvPause k) p' ->
      cstep (System p (Pausing i)) (OfPool (RecvPause k)) (System p' (Pausing (i + 1)))
  | cstep_return_pause p i :
      ¬ (i < threads p)%Z ->
      cstep (System p (Pausing i)) ReturnPause (System p Idle)
  | cstep_call_resume p :
      cstep (System p Idle) CallResume (System p (Resuming 0))
  (* [for i := 0; i < downloader.threads; i++ { downloader.unpause <- true }]
     meets [<-downloader.unpause] of a paused worker *)
  | cstep_unpause p i k p' :
      (i < threads p)%Z -> step p (RecvUnpause k) p' ->
      cstep (System p (Resuming i)) (OfPool (RecvUnpause k)) (System p' (Resuming (i + 1)))
  | cstep_return_resume p i :
      ¬ (i < threads p)%Z ->
      cstep (System p (Resuming i)) ReturnResume (System p Idle)
  (* what the workers, [Shutdown] and the callers of [Download] do *)
  | cstep_pool p c a p' :
      of_control a = false -> step p a p' ->
      cstep (System p c) (OfPool a) (System p' c).

Definition crun : system -> list caction -> system -> Prop := trace cstep.

(** The number of workers at [<-downloader.unpause]. *)
Definition paused (ws : list worker) : nat :=
  sum_list ((fun wk => match at_ wk with Paused => 1 | _ => 0 end) <$> ws).

(** Between calls all the workers are paused, or none; a call has paused, or
    woken, as many as it has counted, unless nobody can answer it. *)
Definition control_ok (s : system) : Prop :=
  let n := length (workers (the_pool s)) in
  let k := paused (workers (the_pool s)) in
  match control s with
  | Idle => k = 0 \/ k = n
  | Pausing i => Z.of_nat k = i \/ (i = 0%Z /\ k = n)
  | Resuming i => Z.of_nat k = (Z.of_nat n - i)%Z \/ (i = 0%Z /\ k = 0)
  end.

End Download.

(** * A platform, a world and tasks to try the definitions on *)

Module Example.

(** Paths without ".", ".." or doubled separators: the directory of a path is
    what comes before its last separator. *)
Fixpoint before_last_slash (s : string) : option string :=
  match s with
  | "" => None
  | String c s' =>
      match before_last_slash s' with
      | Some d => Some (String c d)
      | None => if Ascii.eqb c "/"%char then Some "" else None
      end
  end.

Definition Dir_of (s : string) : string :=
  match before_last_slash s with
  | Some "" => "/"
  | Some d => d
  | None => "."
  end.

(** The prefixes of [s] that end before a separator, shortest first; [pre] is
    what was read so far. *)
Fixpoint ancestors (pre s : string) : list string :=
  match s with
  | "" => []
  | String c s' =>
      (if Ascii.eqb c "/"%char && negb (String.eqb pre "") then [pre] else [])
        ++ ancestors (pre +:+ String c "") s'
  end.

Definition magic (r : reader) : option string :=
  match r with
  | FileReader (Some (mkFile _ (File (b1 :: b2 :: _)))) =>
      if Byte.eqb b1 "031"%byte && Byte.eqb b2 "139"%byte then None
      else Some "gzip: invalid header"
  | FileReader (Some _) => Some "unexpected EOF"
  | _ => Some "invalid argument"
  end.

(** Digests that show what they were given. *)
Definition unix : Platform := {|
  filepath_Dir := Dir_of;
  filepath_Join := fun d f => d +:+ "/" +:+ f;
  mkdir_chain := fun p => ancestors "" p ++ [p];
  os_TempDir := "/tmp";
  md5sum := fun b => "md5:" +:+ string_of_list_byte b;
  sha1sum := fun b => "sha1:" +:+ string_of_list_byte b;
  sha256sum := fun b => "sha256:" +:+ string_of_list_byte b;
  gzip_header_error := magic;
|}.

Definition hello : body :=
  mkBody [list_byte_of_string "he"; list_byte_of_string "llo"] None.

Definition cut_short : body :=
  mkBody [list_byte_of_string "he"] (Some "unexpected EOF").

(** A mirror that has [Release] and [Packages.gz] (not gzip data), answers
    404 for [missing] and breaks off [broken]. *)
Definition mirror (u : string) : string + response :=
  if String.eqb u "http://mirror/Release" then inr (mkResponse 200 hello)
  else if String.eqb u "http://mirror/Packages.gz" then inr (mkResponse 200 hello)
  else if String.eqb u "http://mirror/Packages" then inr (mkResponse 200 hello)
  else if String.eqb u "http://mirror/broken" then inr (mkResponse 200 cut_short)
  else if String.eqb u "http://mirror/missing" then inr (mkResponse 404 (mkBody [] None))
  else inl "dial tcp: no such host".

Definition world0 : world :=
  World {[ "/" := Dir; "/tmp" := Dir ]} ∅ [] [] [] 0
        mirror (fun _ => None) (fun _ => "123").

Definition no_check : ChecksumInfo := mkChecksumInfo (-1) "" "" "".

Definition get_release (exp : ChecksumInfo) : downloadTask :=
  mkTask "http://mirror/Release" "/srv/aptly/Release" 0 exp.

Definition get_missing : downloadTask :=
  mkTask "http://mirror/missing" "/srv/aptly/missing" 0 no_check.

Definition get_broken : downloadTask :=
  mkTask "http://mirror/broken" "/srv/aptly/pool/broken" 0 no_check.


(** A pool of two workers: worker 0 is handling [get_broken] and
    [get_missing] is still in the queue when [Shutdown] is called. *)
Definition pool0 : pool := NewDownloader 2 world0.
Definition pool1 : pool :=
  set_pworld (set_queue (fun q => q ++ [get_broken]) (pworld pool0)) pool0.
Definition pool2 : pool :=
  set_pworld (set_queue (fun q => q ++ [get_missing]) (pworld pool1)) pool1.
Definition pool3 : pool :=
  set_pworld (set_queue (fun _ => [get_missing]) (pworld pool2))
    (set_worker 0 (Worker (Handling get_broken) 0 0 [get_broken] []) pool2).
Definition pool4 : pool := set_shutdown (Sending 0) pool3.
Definition pool5 : pool :=
  set_shutdown (Sending (0 + 1)) (set_worker 1 (Worker Stopping 1 0 [] []) pool4).
Definition pool6 : pool :=
  set_pworld (after (platform:=unix) get_broken (pworld pool5))
    (set_worker 0 (Worker Selecting 0 0 [get_broken] [get_broken]) pool5).
Definition pool7 : pool :=
  set_shutdown (Sending (0 + 1 + 1))
    (set_worker 0 (Worker Stopping 1 0 [get_broken] [get_broken]) pool6).
Definition pool8 : pool := set_shutdown (Receiving 0) pool7.
Definition pool9 : pool :=
  set_shutdown (Receiving (0 + 1))
    (set_worker 0 (Worker Exited 1 1 [get_broken] [get_broken]) pool8).
Definition pool10 : pool :=
  set_shutdown (Receiving (0 + 1 + 1)) (set_worker 1 (Worker Exited 1 1 [] []) pool9).
Definition pool11 : pool := set_shutdown Returned pool10.

(** The steps that lead from [pool0] to [pool3], and from there to
    [pool11]. *)
Definition steps3 : list action :=
  [Submit get_broken; Submit get_missing; TakeTask 0 get_broken].

Definition steps11 : list action :=
  [CallShutdown; SendStop 1; FinishTask 0 get_broken; SendStop 0; EndSends;
   RecvStopped 0; RecvStopped 1; ReturnShutdown].

(** A pool of one worker: paused by [Pause] and woken by [Resume]; stopped
    by [Shutdown]. *)
Definition solo0 : pool := NewDownloader 1 world0.
Definition solo_paused : pool := set_worker 0 (Worker Paused 0 0 [] []) solo0.
Definition solo_resumed : pool := set_worker 0 (Worker Selecting 0 0 [] []) solo_paused.

Definition pause_steps : list caction := [CallPause; OfPool (RecvPause 0)].

Definition resume_steps : list caction :=
  pause_steps ++ [ReturnPause; CallResume; OfPool (RecvUnpause 0)].

Definition solo1 : pool := set_shutdown (Sending 0) solo0.
Definition solo2 : pool :=
  set_shutdown (Sending (0 + 1)) (set_worker 0 (Worker Stopping 1 0 [] []) solo1).
Definition solo3 : pool := set_shutdown (Receiving 0) solo2.
Definition solo4 : pool :=
  set_shutdown (Receiving (0 + 1)) (set_worker 0 (Worker Exited 1 1 [] []) solo3).
Definition solo5 : pool := set_shutdown Returned solo4.

Definition shutdown_steps : list caction :=
  OfPool <$> [CallShutdown; SendStop 0; EndSends; RecvStopped 0; ReturnShutdown].


End Example.

(** * Properties *)

Section Properties.

Context {platform : Platform}.

(** ** The system calls *)

Lemma same_rest_refl w : same_rest w w.
Proof. by repeat split. Qed.

Lemma same_rest_trans w1 w2 w3 : same_rest w1 w2 -> same_rest w2 w3 -> same_rest w1 w3.
Proof. unfold same_rest. intros (?&?&?&?&?&?) (?&?&?&?&?&?). repeat split; congruence. Qed.

Lemma external_fault (o : option string) : external (OsError <$> o).
Proof. by destruct o. Qed.

Lemma grown_refl m : grown m m.
Proof. intros k. by left. Qed.

Lemma grown_trans m1 m2 m3 : grown m1 m2 -> grown m2 m3 -> grown m1 m3.
Proof.
  intros H12 H23 k. destruct (H12 k) as [E1|[E1 E1']], (H23 k) as [E2|[E2 E2']].
  - left. congruence.
  - right. split; congruence.
  - right. split; congruence.
  - congruence.
Qed.


Lemma grown_dir m m' p : grown m m' -> m !! p = Some Dir -> m' !! p = Some Dir.
Proof. intros G E. destruct (G p) as [->|[? ?]]; congruence. Qed.

Lemma grown_insert m d : m !! d = None -> grown m (<[d := Dir]> m).
Proof.
  intros E k. destruct (decide (k = d)) as [->|Hne].
  - right. split; [done|]. apply lookup_insert_eq.
  - left. by apply lookup_insert_ne.
Qed.

Lemma external_None : external None.
Proof. done. Qed.

Lemma external_OsError msg : external (Some (OsError msg)).
Proof. done. Qed.

Create HintDb world discriminated.
#[local] Hint Resolve same_rest_refl grown_refl external_None external_OsError
  external_fault : world.
#[local] Hint Extern 2 (same_rest _ _) => (by repeat split) : world.

Lemma mkdir_each_spec ds w w1 err :
  mkdir_each ds w = (w1, err) ->
  same_rest w w1 /\ writers w1 = writers w /\ grown (fs w) (fs w1) /\ external err /\
  (err = None -> forall d, d ∈ ds -> fs w1 !! d = Some Dir) /\
  (forall k, k ∉ ds -> fs w1 !! k = fs w !! k).
Proof.
  revert w. induction ds as [|d ds IH]; intros w; simpl.
  - intros [= <- <-]. split_and!; auto with world.
    intros _ d Hd. by apply elem_of_nil in Hd.
  - destruct (fs w !! d) as [[b|]|] eqn:E.
    + intros [= <- <-]. split_and!; auto with world. done.
    + intros Hrec. destruct (IH _ Hrec) as (S1 & W1 & G1 & X1 & D1 & U1).
      split_and!; auto.
      * intros -> d' [->|Hd]%elem_of_cons; [|by apply D1].
        by apply (grown_dir _ _ _ G1).
      * intros k Hk. apply U1. intros Hin. apply Hk. by apply elem_of_cons; right.
    + destruct (fault w (clock w)) as [msg|] eqn:F; simpl.
      * intros [= <- <-]. split_and!; auto with world; done.
      * intros Hrec. destruct (IH _ Hrec) as (S1 & W1 & G1 & X1 & D1 & U1).
        simpl in *. split_and!; auto.
        -- eapply grown_trans; [|exact G1]. by apply grown_insert.
        -- intros -> d' [->|Hd]%elem_of_cons; [|by apply D1].
           apply (grown_dir _ _ _ G1). apply lookup_insert_eq.
        -- intros k Hk. rewrite U1.
           ++ apply lookup_insert_ne. intros <-. apply Hk. by apply elem_of_cons; left.
           ++ intros Hin. apply Hk. by apply elem_of_cons; right.
Qed.

(** ** Copying *)

Lemma file_Write_spec p c w w1 err d0 :
  file_Write p c w = (w1, err) -> fs w !! p = Some (File d0) ->
  same_rest w w1 /\ writers w1 = writers w /\ external err /\
  exists data, fs w1 = <[p := File data]> (fs w) /\ (err = None -> data = d0 ++ c).
Proof.
  unfold file_Write. simpl. intros Hw E.
  destruct (fault w (clock w)) as [msg|]; simpl in Hw.
  - injection Hw as <- <-. split_and!; auto with world.
    exists d0. split; [|done]. simpl. by rewrite insert_id.
  - simpl in Hw. rewrite E in Hw. injection Hw as <- <-.
    split_and!; auto with world.
    exists (d0 ++ c). by split.
Qed.

Lemma copy_file_spec p cs w w1 err d0 :
  copy_chunks (FileWriter p) cs w = (w1, err) -> fs w !! p = Some (File d0) ->
  same_rest w w1 /\ writers w1 = writers w /\ external err /\
  exists data, fs w1 = <[p := File data]> (fs w) /\ (err = None -> data = d0 ++ concat cs).
Proof.
  revert w d0. induction cs as [|c cs IH]; intros w d0; simpl.
  - intros [= <- <-] E. split_and!; auto with world.
    exists d0. rewrite insert_id by done. by rewrite app_nil_r.
  - destruct (file_Write p c w) as [w2 [e|]] eqn:Hw.
    + intros [= <- <-] E.
      destruct (file_Write_spec _ _ _ _ _ _ Hw E) as (S2 & W2 & X2 & data & F2 & _).
      split_and!; auto. by exists data.
    + intros Hrec E.
      destruct (file_Write_spec _ _ _ _ _ _ Hw E) as (S2 & W2 & X2 & data & F2 & D2).
      specialize (D2 eq_refl). subst data.
      assert (E2 : fs w2 !! p = Some (File (d0 ++ c))) by (rewrite F2; apply lookup_insert_eq).
      destruct (IH _ _ Hrec E2) as (S1 & W1 & X1 & data & F1 & D1).
      split_and!; [by eapply same_rest_trans|congruence|done|].
      exists data. split.
      * by rewrite F1, F2, insert_insert_eq.
      * intros ->. rewrite D1 by done. by rewrite <- app_assoc.
Qed.

Lemma copy_multi_spec p id cs w w1 err d0 b0 :
  copy_chunks (MultiWriter [FileWriter p; ChecksumWriter id]) cs w = (w1, err) ->
  fs w !! p = Some (File d0) -> writers w !! id = Some b0 ->
  same_rest w w1 /\ external err /\
  exists data sunk,
    fs w1 = <[p := File data]> (fs w) /\ writers w1 = <[id := sunk]> (writers w) /\
    (err = None -> data = d0 ++ concat cs /\ sunk = b0 ++ concat cs).
Proof.
  revert w d0 b0. induction cs as [|c cs IH]; intros w d0 b0; simpl.
  - intros [= <- <-] E B. split_and!; auto with world.
    exists d0, b0. rewrite insert_id by done. rewrite list_insert_id by done.
    by rewrite !app_nil_r.
  - destruct (file_Write p c w) as [w2 [e|]] eqn:Hw.
    + intros [= <- <-] E B.
      destruct (file_Write_spec _ _ _ _ _ _ Hw E) as (S2 & W2 & X2 & data & F2 & _).
      split_and!; auto. exists data, b0. split_and!; [done| |done].
      by rewrite W2, list_insert_id.
    + unfold checksum_Write. intros Hrec E B.
      destruct (file_Write_spec _ _ _ _ _ _ Hw E) as (S2 & W2 & X2 & data & F2 & D2).
      specialize (D2 eq_refl). subst data.
      set (w3 := set_writers _ w2) in Hrec.
      assert (E3 : fs w3 !! p = Some (File (d0 ++ c))) by (simpl; rewrite F2; apply lookup_insert_eq).
      assert (B3 : writers w3 !! id = Some (b0 ++ c)).
      { simpl. rewrite W2, B. simpl. apply list_lookup_insert_eq.
        by eapply lookup_lt_Some. }
      destruct (IH _ _ _ Hrec E3 B3) as (S1 & X1 & data & sunk & F1 & W1 & D1).
      split_and!; [|done|].
      * eapply same_rest_trans; [exact S2|]. exact S1.
      * exists data, sunk. split_and!.
        -- rewrite F1. simpl. by rewrite F2, insert_insert_eq.
        -- rewrite W1. simpl. by rewrite W2, list_insert_insert_eq.
        -- intros ->. destruct (D1 eq_refl) as [-> ->]. by rewrite <- !app_assoc.
Qed.

(** ** The paths of handleTask *)

Lemma defer_Close {R A} (m : M R A) w : defer (Close (R:=unit)) m w = m w.
Proof. unfold defer, call, Close, ret. by destruct (m w) as [w' [a|r|]]. Qed.

Lemma bind_prim {R A B} (f : world -> world * A) (k : A -> M R B) w :
  bind (prim f) k w = k (f w).2 (f w).1.
Proof. unfold bind, prim. by destruct (f w). Qed.

Lemma bind_when {R B} (c : bool) (m : M R unit) (k : unit -> M R B) w :
  bind (when c m) k w = if c then bind m k w else k tt w.
Proof. by destruct c. Qed.

Lemma bind_if_err {R B} err (m : M R unit) (k : unit -> M R B) w :
  bind (if_err err m) k w = match err with Some _ => bind m k w | None => k tt w end.
Proof. by destruct err. Qed.

Lemma bind_assoc {R A B C} (m : M R A) (k : A -> M R B) (k' : B -> M R C) w :
  bind (bind m k) k' w = bind m (fun a => bind (k a) k') w.
Proof. unfold bind. by destruct (m w) as [w1 [a|r|]]. Qed.

Lemma bind_return {R A B} (r : R) (k : A -> M R B) w :
  bind (return_ r) k w = (w, Return r).
Proof. done. Qed.

Lemma copy_spec (v : bool) p id cs w w1 err d0 b0 :
  copy_chunks (if v then MultiWriter [FileWriter p; ChecksumWriter id] else FileWriter p)
              cs w = (w1, err) ->
  fs w !! p = Some (File d0) -> writers w !! id = Some b0 ->
  same_rest w w1 /\ external err /\
  exists data sunk,
    fs w1 = <[p := File data]> (fs w) /\ writers w1 = <[id := sunk]> (writers w) /\
    (v = false -> sunk = b0) /\
    (err = None -> data = d0 ++ concat cs /\ sunk = if v then b0 ++ concat cs else b0).
Proof.
  destruct v; intros Hc E B.
  - destruct (copy_multi_spec _ _ _ _ _ _ _ _ Hc E B) as (S1 & X1 & data & sunk & F1 & W1 & D1).
    split_and!; auto. by exists data, sunk.
  - destruct (copy_file_spec _ _ _ _ _ _ Hc E) as (S1 & W1 & X1 & data & F1 & D1).
    split_and!; auto. exists data, b0. split_and!; auto.
    by rewrite W1, list_insert_id.
Qed.

Lemma append_empty (s : string) : s +:+ "" = s.
Proof.
  induction s as [|a s IH]; [done|].
  change (String a (s +:+ "") = String a s). by rewrite IH.
Qed.

(** The temporary path is never the destination. *)
Lemma temp_ne (d : string) : d +:+ ".down" ≠ d.
Proof.
  intros E. rewrite <- (append_empty d) in E at 2.
  by apply (String.app_inj d) in E.
Qed.

Lemma match_not_dir {A} (o : option node) (a b : A) :
  o ≠ Some Dir -> match o with Some Dir => a | _ => b end = b.
Proof. by destruct o as [[|]|]. Qed.

Lemma insert_last {A} (l : list A) (x y : A) : <[length l := x]> (l ++ [y]) = l ++ [x].
Proof.
  rewrite insert_app_r_alt by lia. by rewrite Nat.sub_diag.
Qed.

Lemma lookup_last {A} (l : list A) (y : A) : (l ++ [y]) !! length l = Some y.
Proof. rewrite lookup_app_r by lia. by rewrite Nat.sub_diag. Qed.

Lemma bind_returned {R A B} (m : M R A) (k : A -> M R B) w w1 r :
  m w = (w1, Return r) -> bind m k w = (w1, Return r).
Proof. unfold bind. by intros ->. Qed.

(** The three lines that give up: remove the temporary file, send the error,
    return. *)
Lemma cleanup_spec temp c err w5 data :
  fs w5 !! temp = Some (File data) ->
  exists w6,
    (os_Remove (R:=unit) temp ;; chan_send c err ;; return_ (A:=unit) tt) w5
      = (w6, Return tt) /\
    fs w6 = delete temp (fs w5) /\
    events w6 = events w5 ++ [ERemove temp; ESend c err] /\
    chans w6 = <[c := pending w5 c ++ [err]]> (chans w5) /\
    writers w6 = writers w5 /\ queue w6 = queue w5 /\
    net w6 = net w5 /\ fault w6 = fault w5 /\ rand w6 = rand w5.
Proof.
  intros E. unfold os_Remove, chan_send. rewrite !bind_prim. simpl.
  rewrite E. simpl. eexists. split; [reflexivity|]. simpl.
  split_and!; try done. by rewrite <- app_assoc.
Qed.

(** Use what a frame lemma says of a later world. *)
Ltac use_rest S :=
  let Sc := fresh "Sc" in let Sq := fresh "Sq" in let Se := fresh "Se" in
  let Sn := fresh "Sn" in let Sf := fresh "Sf" in let Sr := fresh "Sr" in
  destruct S as (Sc & Sq & Se & Sn & Sf & Sr); simpl in Sc, Sq, Se, Sn, Sf, Sr.

Ltac finish :=
  simpl; split_and!; try done; unfold pending in *; simpl in *;
  repeat match goal with E : _ = _ |- _ => rewrite E end;
  rewrite <- ?app_assoc, ?app_nil_r; simpl; try done.

Lemma handleTask_protocol t w w' o :
  handleTask t w = (w', o) ->
  exists s, protocol t w s /\
    o ≠ Blocked /\
    fs w' = s_fs s /\
    events w' = events w ++ s_events s /\
    chans w' = <[result t := pending w (result t) ++ [s_value s]]> (chans w) /\
    writers w' = writers w ++ s_sunk s /\
    queue w' = queue w /\
    net w' = net w /\ fault w' = fault w /\ rand w' = rand w.
Proof.
  unfold handleTask.
  unfold fmt_Printf, http_Get. rewrite !bind_prim. cbn [fst snd].
  change (net (log _ w) (url t)) with (net w (url t)).
  destruct (net w (url t)) as [msg|resp] eqn:Enet.
  { unfold chan_send. rewrite bind_prim. simpl.
    intros [= <- <-]. eexists. split; [by eapply path_transport|]. finish. }
  rewrite defer_Close, bind_when.
  destruct (_ || _) eqn:Estatus.
  { unfold chan_send. rewrite bind_assoc, bind_prim. simpl.
    intros [= <- <-]. eexists. split; [eapply path_status; eauto|finish].
    unfold in_range. lia. }
  assert (Hrange : in_range resp) by (unfold in_range; lia).
  unfold os_MkdirAll at 1. rewrite bind_prim.
  set (w0 := log (EGet (url t)) (log (EPrintf _ _) w)).
  destruct (mkdir_each _ w0) as [w1 err1] eqn:Hmk. cbn [fst snd].
  destruct (mkdir_each_spec _ _ _ _ Hmk) as (S1 & W1 & G1 & X1 & D1 & U1).
  use_rest S1. simpl in W1, G1, U1.
  rewrite bind_if_err.
  destruct err1 as [[msg|]|]; [|done|].
  { unfold chan_send. rewrite bind_assoc, bind_prim. simpl.
    intros [= <- <-]. eexists. split; [eapply path_mkdir; eauto|finish]. }
  specialize (D1 eq_refl).
  unfold os_Create at 1. rewrite bind_prim. unfold syscall_fault. simpl fault. simpl clock.
  set (temp := destination t +:+ ".down") in *.
  assert (Hcreate_failed : forall w2 msg,
    fs w2 = fs w1 ->
    same_rest (log (EMkdirAll (filepath_Dir (destination t)) None) w1) w2 ->
    writers w2 = writers w1 ->
    (chan_send (R:=unit) (result t) (Some (OsError msg)) ;; return_ tt)
      (log (ECreate temp (Some (OsError msg))) w2) = (w', o) ->
    exists s, protocol t w s /\ o ≠ Blocked /\ fs w' = s_fs s /\
      events w' = events w ++ s_events s /\
      chans w' = <[result t := pending w (result t) ++ [s_value s]]> (chans w) /\
      writers w' = writers w ++ s_sunk s /\ queue w' = queue w /\
      net w' = net w /\ fault w' = fault w /\ rand w' = rand w).
  { intros w2 msg F2 S2 W2. use_rest S2.
    unfold chan_send. rewrite bind_prim. simpl.
    intros [= <- <-]. eexists. split; [eapply path_create; eauto|finish]. }
  destruct (fault w1 (clock w1)) as [msg|] eqn:Hf1; cbn [fmap option_fmap option_map].
  { cbn [fst snd]. rewrite bind_if_err, bind_assoc. apply Hcreate_failed; auto with world. }
  change (fs (set_clock S (log _ w1))) with (fs w1).
  destruct (decide (fs w1 !! temp = Some Dir)) as [Etemp|Etemp].
  { rewrite Etemp. cbn [fst snd]. rewrite bind_if_err, bind_assoc.
    apply Hcreate_failed; auto with world. }
  clear Hcreate_failed. rewrite (match_not_dir _ _ _ Etemp). cbn [fst snd].
  rewrite bind_if_err, defer_Close.
  set (w2 := log (ECreate temp None) _).
  unfold NewChecksumWriter at 1. rewrite bind_prim. cbn [fst snd].
  unfold io_Copy at 1. rewrite bind_prim.
  set (v := bool_decide (Size (expected t) ≠ (-1)%Z)) in *.
  set (w3 := set_writers _ w2).
  destruct (copy_chunks _ (chunks (Body resp)) w3) as [w4 err4] eqn:Hcopy.
  destruct (copy_spec v temp (length (writers w2)) _ _ _ _ [] [] Hcopy)
    as (S4 & X4 & data & sunk & F4 & W4 & N4 & D4).
  { simpl. apply lookup_insert_eq. }
  { simpl. apply lookup_last. }
  use_rest S4. simpl in F4, W4. rewrite insert_insert_eq in F4. rewrite insert_last in W4.
  assert (Hcopy_failed : forall msg (k : unit -> M unit unit),
    bind (if_err (Some (OsError msg))
       (os_Remove temp ;; chan_send (result t) (Some (OsError msg)) ;; return_ tt)) k
      (log (ECopy (Some (OsError msg))) w4) = (w', o) ->
    exists s, protocol t w s /\ o ≠ Blocked /\ fs w' = s_fs s /\
      events w' = events w ++ s_events s /\
      chans w' = <[result t := pending w (result t) ++ [s_value s]]> (chans w) /\
      writers w' = writers w ++ s_sunk s /\ queue w' = queue w /\
      net w' = net w /\ fault w' = fault w /\ rand w' = rand w).
  { intros msg k. rewrite bind_if_err.
    destruct (cleanup_spec temp (result t) (Some (OsError msg))
                (log (ECopy (Some (OsError msg))) w4) data)
      as (w6 & Hrun & F6 & E6 & C6 & W6 & Q6 & N6 & Fa6 & R6).
    { simpl. rewrite F4. apply lookup_insert_eq. }
    rewrite (bind_returned _ _ _ _ _ Hrun). intros [= <- <-].
    simpl in *. rewrite F4, delete_insert_eq in F6.
    eexists. split; [eapply (path_copy _ _ resp (fs w1) msg sunk); eauto|].
    - by split_and!.
    - finish. }
  destruct err4 as [[msg|]|]; [|done|].
  { cbn [fst snd]. by apply Hcopy_failed. }
  destruct (read_err (Body resp)) as [msg|] eqn:Eread; cbn [fmap option_fmap option_map fst snd].
  { by apply Hcopy_failed. }
  clear Hcopy_failed. destruct (D4 eq_refl) as [-> ->]. clear D4 N4. simpl in F4, W4.
  rewrite bind_if_err, bind_when.
  set (w5 := log (ECopy None) w4).
  set (content := concat (chunks (Body resp))) in *.
  assert (Hcommit : forall w6,
    fs w6 = fs w4 -> writers w6 = writers w4 -> chans w6 = chans w4 ->
    queue w6 = queue w4 -> net w6 = net w4 -> fault w6 = fault w4 -> rand w6 = rand w4 ->
    events w6 = events w5 ++ (if v then [ESum (length (writers w))] else []) ->
    (v = true -> mismatch (url t) (checksums content) (expected t) = None) ->
    (err <~ os_Rename temp (destination t) ;;
     if_err err (os_Remove temp ;; chan_send (result t) err ;; return_ tt) ;;
     chan_send (result t) None) w6 = (w', o) ->
    exists s, protocol t w s /\ o ≠ Blocked /\ fs w' = s_fs s /\
      events w' = events w ++ s_events s /\
      chans w' = <[result t := pending w (result t) ++ [s_value s]]> (chans w) /\
      writers w' = writers w ++ s_sunk s /\ queue w' = queue w /\
      net w' = net w /\ fault w' = fault w /\ rand w' = rand w).
  { intros w6 F6 W6 C6 Q6 N6 Fa6 R6 E6 Hmm.
    unfold os_Rename. rewrite bind_prim. unfold syscall_fault.
    change (fs (set_clock S w6)) with (fs w6). rewrite F6, F4.
    rewrite lookup_insert_eq.
    assert (Hrename_failed : forall msg w7 (k : unit -> M unit unit),
      fs w7 = fs w4 -> writers w7 = writers w4 -> chans w7 = chans w4 ->
      queue w7 = queue w4 -> net w7 = net w4 -> fault w7 = fault w4 -> rand w7 = rand w4 ->
      events w7 = events w6 ++ [ERename temp (destination t) (Some (OsError msg))] ->
      bind (if_err (Some (OsError msg))
         (os_Remove temp ;; chan_send (result t) (Some (OsError msg)) ;; return_ tt)) k w7
        = (w', o) ->
      exists s, protocol t w s /\ o ≠ Blocked /\ fs w' = s_fs s /\
        events w' = events w ++ s_events s /\
        chans w' = <[result t := pending w (result t) ++ [s_value s]]> (chans w) /\
        writers w' = writers w ++ s_sunk s /\ queue w' = queue w /\
        net w' = net w /\ fault w' = fault w /\ rand w' = rand w).
    { intros msg w7 k F7 W7 C7 Q7 N7 Fa7 R7 E7. rewrite bind_if_err.
      destruct (cleanup_spec temp (result t) (Some (OsError msg)) w7 content)
        as (w8 & Hrun & F8 & E8 & C8 & W8 & Q8 & N8 & Fa8 & R8).
      { rewrite F7, F4. apply lookup_insert_eq. }
      rewrite (bind_returned _ _ _ _ _ Hrun). intros [= <- <-].
      rewrite F7, F4, delete_insert_eq in F8.
      eexists. split; [eapply (path_rename _ _ resp (fs w1) msg); eauto|].
      - by split_and!.
      - fold v. finish. }
    rewrite lookup_insert_ne by apply temp_ne.
    destruct (fault w6 (clock w6)) as [msg|] eqn:Hf6; cbn [fmap option_fmap option_map fst snd].
    { by apply Hrename_failed. }
    destruct (names_file (destination t)) eqn:Hnames; [|cbn [fst snd]; by apply Hrename_failed].
    destruct (decide (fs w1 !! destination t = Some Dir)) as [Edest|Edest].
    { rewrite Edest. cbn [fst snd]. by apply Hrename_failed. }
    rewrite (match_not_dir _ _ _ Edest). cbn [fst snd]. clear Hrename_failed.
    rewrite bind_if_err. unfold chan_send, prim. simpl.
    intros [= <- <-].
    eexists. split; [eapply (path_success _ _ resp (fs w1)); eauto|].
    - by split_and!.
    - fold v. finish. by rewrite delete_insert_eq. }
  destruct v eqn:Ev.
  - unfold checksum_Sum at 1. rewrite bind_assoc, bind_prim. cbn [fst snd].
    change (writers w5) with (writers w4). change (writers w2) with (writers w1).
    rewrite W4, lookup_last.
    change (default [] (Some content)) with content.
    change (if bool_decide (Size (checksums content) ≠ Size (expected t)) then _ else _)
      with (mismatch (url t) (checksums content) (expected t)).
    destruct (mismatch (url t) (checksums content) (expected t)) as [e|] eqn:Emm.
    + rewrite bind_if_err.
      destruct (cleanup_spec temp (result t) (Some e) (log (ESum (length (writers w1))) w5) content)
        as (w8 & Hrun & F8 & E8 & C8 & W8 & Q8 & N8 & Fa8 & R8).
      { simpl. rewrite F4. apply lookup_insert_eq. }
      rewrite (bind_returned _ _ _ _ _ Hrun). intros [= <- <-].
      simpl in F8. rewrite F4, delete_insert_eq in F8.
      eexists. split; [eapply (path_verify _ _ resp (fs w1) e); eauto|].
      * by split_and!.
      * finish.
    + rewrite bind_if_err.
      apply Hcommit; try done. simpl. by rewrite W1.
  - apply Hcommit; try done. simpl. by rewrite app_nil_r.
Qed.

Lemma after_fst t w : after t w = (handleTask t w).1.
Proof. unfold after, call. by destruct (handleTask t w) as [w' [[]|[]|]]. Qed.

(** Every run of [handleTask] follows one of the eight paths and does not
    block. *)
Lemma after_protocol t w :
  exists s, protocol t w s /\
    (handleTask t w).2 ≠ Blocked /\
    fs (after t w) = s_fs s /\
    new_events w (after t w) = s_events s /\
    chans (after t w) = <[result t := pending w (result t) ++ [s_value s]]> (chans w) /\
    writers (after t w) = writers w ++ s_sunk s /\
    queue (after t w) = queue w /\
    net (after t w) = net w /\ fault (after t w) = fault w /\ rand (after t w) = rand w.
Proof.
  rewrite after_fst. destruct (handleTask t w) as [w' o] eqn:Hrun.
  destruct (handleTask_protocol _ _ _ _ Hrun) as (s & P & B & F & E & C & W & Q & N & Fa & R).
  exists s. unfold new_events. simpl. rewrite E, drop_app_length. by split_and!.
Qed.

(** The sends of each path: one, on the result channel, of the value of the
    path. *)
Lemma protocol_sent t w s c :
  protocol t w s ->
  sent_on c (s_events s) = if bool_decide (result t = c) then [s_value s] else [].
Proof.
  destruct 1; simpl; try destruct (bool_decide (Size _ ≠ _)); simpl;
    by destruct (bool_decide (result t = c)).
Qed.

Lemma mismatch_internal u a x e : mismatch u a x = Some e -> exists f args, e = Errorf f args.
Proof.
  unfold mismatch. repeat case_match; intros [= <-]; eauto.
Qed.

Lemma mismatch_not_status u a x e : mismatch u a x = Some e -> ¬ is_status_error e.
Proof.
  unfold mismatch. repeat case_match; intros [= <-] (code & u' & [=]).
Qed.

Lemma reported_value t w s :
  protocol t w s -> new_events w (after t w) = s_events s -> reported t w = [s_value s].
Proof.
  intros P E. unfold reported. rewrite E, (protocol_sent _ _ _ _ P).
  by rewrite bool_decide_true.
Qed.

Lemma pending_after t w s c :
  chans (after t w) = <[result t := pending w (result t) ++ [s_value s]]> (chans w) ->
  pending (after t w) c =
    if bool_decide (result t = c) then pending w c ++ [s_value s] else pending w c.
Proof.
  intros C. unfold pending at 1. rewrite C. case_bool_decide as E.
  - subst c. by rewrite lookup_insert_eq.
  - by rewrite lookup_insert_ne.
Qed.

(** Membership in the explicit event lists of the paths. *)
Ltac in_events :=
  simpl; try destruct (bool_decide (Size _ ≠ _)); simpl;
  rewrite ?elem_of_cons, ?elem_of_nil; naive_solver.

(** C3. Every execution of [handleTask] delivers exactly one outcome on the
    result channel of its task, on every path: it does not block, it
    executes one send, on that channel, and the channel holds one more value;
    the value is [nil] exactly when the rename succeeded (the success path)
    and an error on every other path: the error of the transport, or of the
    call that failed. *)
Theorem handleTask_one_outcome t w :
  (handleTask t w).2 ≠ Blocked /\
  exists v,
    reported t w = [v] /\
    pending (after t w) (result t) = pending w (result t) ++ [v] /\
    (forall c, c ≠ result t ->
       sent_on c (new_events w (after t w)) = [] /\ pending (after t w) c = pending w c) /\
    (v = None <->
     ERename (destination t +:+ ".down") (destination t) None ∈ new_events w (after t w)) /\
    (forall msg, net w (url t) = inl msg -> v = Some (OsError msg)) /\
    (forall e,
       (exists p, EMkdirAll p (Some e) ∈ new_events w (after t w)) \/
       (exists p, ECreate p (Some e) ∈ new_events w (after t w)) \/
       ECopy (Some e) ∈ new_events w (after t w) \/
       (exists p q, ERename p q (Some e) ∈ new_events w (after t w)) ->
       v = Some e).
Proof.
  destruct (after_protocol t w) as (s & P & B & F & E & C & W & Q & N & Fa & R).
  split; [done|]. exists (s_value s). split_and!.
  - by apply reported_value.
  - rewrite (pending_after _ _ _ _ C). by rewrite bool_decide_true.
  - intros c Hc. split.
    + rewrite E, (protocol_sent _ _ _ _ P). by rewrite bool_decide_false.
    + rewrite (pending_after _ _ _ _ C). by rewrite bool_decide_false.
  - rewrite E. clear -P. destruct P; in_events.
  - intros msg Hnet. clear -P Hnet. destruct P; simpl; congruence.
  - rewrite E. clear -P. intros e'.
    destruct P; intros [[p Hin]|[[p Hin]|[Hin|(p & q & Hin)]]]; revert Hin; clear; in_events.
Qed.

(** C5. When the GET gives a response, [handleTask] reports an HTTP-status
    error exactly when the status code is outside 200..299; that error carries
    the code and the URL; and then no temporary file is created and the file
    system is as it was. *)
Theorem status_error_iff_out_of_range t w resp :
  net w (url t) = inr resp ->
  let out_of_range := (StatusCode resp < 200 \/ StatusCode resp > 299)%Z in
  ((exists e, reported t w = [Some e] /\ is_status_error e) <-> out_of_range) /\
  (out_of_range ->
     reported t w =
       [Some (Errorf "HTTP code %d while fetching %s"
                [ArgInt (StatusCode resp); ArgStr (url t)])] /\
     fs (after t w) = fs w /\
     forall p err, ECreate p err ∉ new_events w (after t w)).
Proof.
  intros Enet out_of_range.
  destruct (after_protocol t w) as (s & P & B & F & E & C & W & Q & N & Fa & R).
  rewrite (reported_value _ _ _ P E), F, E. clear -P Enet.
  assert (Hin : forall r : response, in_range r ->
            ¬ (StatusCode r < 200 \/ StatusCode r > 299)%Z)
    by (unfold in_range; lia).
  destruct P;
    match goal with Hn : net w (url t) = _ |- _ => rewrite Enet in Hn end;
    simplify_eq/=; unfold out_of_range;
    repeat match goal with e := _ : error |- _ => subst e end;
    try match goal with Hr : in_range _ |- _ => specialize (Hin _ Hr) end.
  { split.
    - split; [intros _; unfold in_range in *; lia|].
      intros _. eexists. split; [done|]. by eexists _, _.
    - intros _. split_and!; try done. intros p err. in_events. }
  all: split; [split; [|done]|done].
  all: intros (e' & Heq & He); simplify_eq.
  all: try (by destruct He as (? & ? & [=])).
  exfalso. by eapply mismatch_not_status.
Qed.

(** What lines 152-160 compute, check by check. *)
Lemma mismatch_spec u a x :
  let size_ok := Size a = Size x in
  let md5_bad := MD5 x ≠ "" /\ MD5 a ≠ MD5 x in
  let sha1_bad := SHA1 x ≠ "" /\ SHA1 a ≠ SHA1 x in
  let sha256_bad := SHA256 x ≠ "" /\ SHA256 a ≠ SHA256 x in
  (¬ size_ok ->
     mismatch u a x = Some (Errorf "%s: size check mismatch %d != %d"
                              [ArgStr u; ArgInt (Size a); ArgInt (Size x)])) /\
  (size_ok -> md5_bad ->
     mismatch u a x = Some (Errorf "%s: md5 hash mismatch %#v != %#v"
                              [ArgStr u; ArgGoStr (MD5 a); ArgGoStr (MD5 x)])) /\
  (size_ok -> ¬ md5_bad -> sha1_bad ->
     mismatch u a x = Some (Errorf "%s: sha1 hash mismatch %#v != %#v"
                              [ArgStr u; ArgGoStr (SHA1 a); ArgGoStr (SHA1 x)])) /\
  (size_ok -> ¬ md5_bad -> ¬ sha1_bad -> sha256_bad ->
     mismatch u a x = Some (Errorf "%s: sha256 hash mismatch %#v != %#v"
                              [ArgStr u; ArgGoStr (SHA256 a); ArgGoStr (SHA256 x)])) /\
  (size_ok -> ¬ md5_bad -> ¬ sha1_bad -> ¬ sha256_bad -> mismatch u a x = None).
Proof.
  unfold mismatch. repeat case_bool_decide; simpl; naive_solver.
Qed.

(** C1. With verification requested (expected size not -1), once the copy has
    completed the checks run in the order size, md5, sha1, sha256 on the
    checksums of the bytes streamed; a hash is compared only when its expected
    value is not empty; the first mismatch is the error reported, it names
    that field, and the later checks do not matter (a size mismatch reports
    size whatever the hashes are).  When no check fails the task goes on to
    the rename. *)
Theorem checks_in_order t w resp :
  net w (url t) = inr resp ->
  Size (expected t) ≠ (-1)%Z ->
  ECopy None ∈ new_events w (after t w) ->
  let u := url t in
  let exp := expected t in
  let actual := checksums (concat (chunks (Body resp))) in
  let size_ok := Size actual = Size exp in
  let md5_bad := MD5 exp ≠ "" /\ MD5 actual ≠ MD5 exp in
  let sha1_bad := SHA1 exp ≠ "" /\ SHA1 actual ≠ SHA1 exp in
  let sha256_bad := SHA256 exp ≠ "" /\ SHA256 actual ≠ SHA256 exp in
  writers (after t w) = writers w ++ [concat (chunks (Body resp))] /\
  (¬ size_ok ->
     reported t w = [Some (Errorf "%s: size check mismatch %d != %d"
                             [ArgStr u; ArgInt (Size actual); ArgInt (Size exp)])]) /\
  (size_ok -> md5_bad ->
     reported t w = [Some (Errorf "%s: md5 hash mismatch %#v != %#v"
                             [ArgStr u; ArgGoStr (MD5 actual); ArgGoStr (MD5 exp)])]) /\
  (size_ok -> ¬ md5_bad -> sha1_bad ->
     reported t w = [Some (Errorf "%s: sha1 hash mismatch %#v != %#v"
                             [ArgStr u; ArgGoStr (SHA1 actual); ArgGoStr (SHA1 exp)])]) /\
  (size_ok -> ¬ md5_bad -> ¬ sha1_bad -> sha256_bad ->
     reported t w = [Some (Errorf "%s: sha256 hash mismatch %#v != %#v"
                             [ArgStr u; ArgGoStr (SHA256 actual); ArgGoStr (SHA256 exp)])]) /\
  (size_ok -> ¬ md5_bad -> ¬ sha1_bad -> ¬ sha256_bad ->
     exists err,
       ERename (destination t +:+ ".down") (destination t) err ∈ new_events w (after t w) /\
       reported t w = [err]).
Proof.
  intros Enet Hsize Hcopied u exp actual.
  destruct (after_protocol t w) as (s & P & B & F & E & C & W & Q & N & Fa & R).
  rewrite (reported_value _ _ _ P E), W. rewrite E in Hcopied |- *. clear -P Enet Hsize Hcopied.
  assert (Hv : bool_decide (Size (expected t) ≠ (-1)%Z) = true) by by apply bool_decide_eq_true.
  destruct (mismatch_spec u actual exp) as (M1 & M2 & M3 & M4 & M5).
  subst u exp actual.
  destruct P;
    match goal with Hn : net w (url t) = _ |- _ => rewrite Enet in Hn end;
    simplify_eq;
    repeat match goal with e := _ : error |- _ => subst e end;
    try (exfalso; clear -Hcopied Hv; revert Hcopied; rewrite ?Hv; clear Hv; in_events);
    cbn [s_value s_sunk s_events]; rewrite ?Hv;
    repeat match goal with
           | Hm : _ = true -> mismatch _ _ _ = None |- _ => specialize (Hm eq_refl)
           end.
  all: split_and!; [done|..]; intros;
    repeat match goal with M : ?A -> _, HA : ?A |- _ => specialize (M HA) end;
    try congruence.
  all: eexists; (split; [|done]); clear; in_events.
Qed.

(** C4. With expected size -1 verification is skipped whatever the stream
    and whatever the md5, sha1 and sha256 fields: the checksum writer is never
    asked for its sums, it is given none of the bytes, the run is the same as
    for any other task with size -1 that differs only in the hashes, and the
    only errors that can be reported are those of the transport and of the
    file system. *)
Theorem size_minus_one_skips_verification t w :
  Size (expected t) = (-1)%Z ->
  (forall id, ESum id ∉ new_events w (after t w)) /\
  (writers (after t w) = writers w \/ writers (after t w) = writers w ++ [[]]) /\
  (forall e, reported t w = [Some e] -> (exists msg, e = OsError msg) \/ is_status_error e) /\
  (forall exp', Size exp' = (-1)%Z ->
     handleTask (mkTask (url t) (destination t) (result t) exp') w = handleTask t w).
Proof.
  intros Hsize.
  destruct (after_protocol t w) as (s & P & B & F & E & C & W & Q & N & Fa & R).
  rewrite (reported_value _ _ _ P E), E, W. clear -P Hsize.
  assert (Hv : bool_decide (Size (expected t) ≠ (-1)%Z) = false)
    by (apply bool_decide_eq_false; tauto).
  split_and!.
  - intros id. destruct P; try congruence; cbn [s_events]; rewrite ?Hv; clear; in_events.
  - destruct P; try congruence; cbn [s_sunk]; rewrite ?Hv, ?app_nil_r; auto.
    match goal with Hs : _ = false -> _ = [] |- _ => rewrite (Hs Hv) end. auto.
  - intros e' He. destruct P; try congruence; cbn [s_value] in He;
      repeat match goal with e := _ : error |- _ => subst e end; simplify_eq; eauto.
    right. by eexists _, _.
  - intros exp' Hsize'. destruct t as [u d c exp]. destruct exp, exp'. simpl in *. by subst.
Qed.





(** C10. When a task fails after the parent-directory step, the directories
    of the destination that [os.MkdirAll] made sure exist are still there,
    like every directory there was before: giving up removes the temporary
    file and nothing else. *)
Theorem directories_remain t w e :
  EMkdirAll (filepath_Dir (destination t)) None ∈ new_events w (after t w) ->
  reported t w = [Some e] ->
  (forall d, d ∈ mkdir_chain (filepath_Dir (destination t)) \/ fs w !! d = Some Dir ->
     fs (after t w) !! d = Some Dir) /\
  (forall p, ERemove p ∈ new_events w (after t w) -> p = destination t +:+ ".down") /\
  (forall p, p ≠ destination t +:+ ".down" -> fs w !! p = None ->
     fs (after t w) !! p = None \/ fs (after t w) !! p = Some Dir).
Proof.
  intros Hmk He.
  destruct (after_protocol t w) as (s & P & B & F & E & C & W & Q & N & Fa & R).
  rewrite (reported_value _ _ _ P E) in He. rewrite E in *. rewrite F. clear -P He Hmk.
  assert (Hdirs : forall m1, grown (fs w) m1 ->
    (forall d, d ∈ mkdir_chain (filepath_Dir (destination t)) -> m1 !! d = Some Dir) ->
    forall d, d ∈ mkdir_chain (filepath_Dir (destination t)) \/ fs w !! d = Some Dir ->
      m1 !! d = Some Dir).
  { intros m1 G D d [Hd|Hd]; [by apply D|by eapply grown_dir]. }
  assert (Hnew : forall m1 p, grown (fs w) m1 -> fs w !! p = None ->
    m1 !! p = None \/ m1 !! p = Some Dir).
  { intros m1 p G Hp. destruct (G p) as [->|[_ ->]]; auto. }
  assert (Hdel : forall m1, prepared t w m1 ->
    (forall d, d ∈ mkdir_chain (filepath_Dir (destination t)) \/ fs w !! d = Some Dir ->
       delete (destination t +:+ ".down") m1 !! d = Some Dir) /\
    (forall p, p ≠ destination t +:+ ".down" -> fs w !! p = None ->
       delete (destination t +:+ ".down") m1 !! p = None \/
       delete (destination t +:+ ".down") m1 !! p = Some Dir)).
  { intros m1 (G & D & T & _). split.
    - intros d Hd. pose proof (Hdirs _ G D d Hd) as Hdir.
      rewrite lookup_delete_ne; [done|]. intros <-. by rewrite Hdir in T.
    - intros p Hp Hnone. rewrite lookup_delete_ne by done. by apply Hnew. }
  destruct P; cbn [s_value s_events s_fs] in *; simplify_eq;
    try (exfalso; clear -Hmk; revert Hmk; in_events).
  - (* the temporary file cannot be created *)
    split_and!; [by apply Hdirs| |intros; by apply Hnew]. clear. intros p. in_events.
  - (* the copy fails *)
    match goal with Hp : prepared _ _ _ |- _ => destruct (Hdel _ Hp) end.
    split_and!; [done| |done]. clear. intros p. in_events.
  - (* a check fails *)
    match goal with Hp : prepared _ _ _ |- _ => destruct (Hdel _ Hp) end.
    split_and!; [done| |done]. clear. intros p. in_events.
  - (* the rename fails *)
    match goal with Hp : prepared _ _ _ |- _ => destruct (Hdel _ Hp) end.
    split_and!; [done| |done]. clear. intros p. in_events.
Qed.

(** ** Download, DownloadWithChecksum *)

Lemma call_call {R R''} (m : M R R) w :
  call (R':=R'') (call (R':=R) m) w = call (R':=R'') m w.
Proof. unfold call. by destruct (m w) as [w' [a|r|]]. Qed.

(** C6. [Download(url, destination, result)] behaves as
    [DownloadWithChecksum(url, destination, result, ChecksumInfo{Size: -1})]:
    called in the same world they leave the same world, and what they do is
    to put the task with that [ChecksumInfo] at the end of the queue, so that
    the worker that takes it runs the same [handleTask]. *)
Theorem Download_is_DownloadWithChecksum_minus_one u d c w :
  let task := mkTask u d c (mkChecksumInfo (-1) "" "" "") in
  call (R':=unit) (Download u d c) w
    = call (DownloadWithChecksum u d c (mkChecksumInfo (-1) "" "" "")) w /\
  (call (R':=unit) (Download u d c) w).2 = Next tt /\
  (exists q, queue (call (R':=unit) (Download u d c) w).1 = q ++ [task]) /\
  last (events (call (R':=unit) (Download u d c) w).1) = Some (EEnqueue task).
Proof.
  intros task. unfold Download. rewrite call_call. split; [done|].
  unfold call, DownloadWithChecksum, queue_send, prim. cbn [fst snd].
  split_and!; [done| |].
  - simpl. by eexists.
  - simpl. apply last_snoc.
Qed.

(** ** DownloadTemp *)

Lemma protocol_worker_events t w s : protocol t w s -> Forall worker_event (s_events s).
Proof.
  destruct 1; simpl; try destruct (bool_decide (Size _ ≠ _)); simpl;
    repeat constructor.
Qed.

Lemma protocol_success t w s :
  protocol t w s -> s_value s = None ->
  exists resp, net w (url t) = inr resp /\
    s_fs s !! destination t = Some (File (concat (chunks (Body resp)))).
Proof.
  destruct 1; simpl; try done. intros _. eexists. split; [done|]. apply lookup_insert_eq.
Qed.

Lemma worker_events_enqueued evs : Forall worker_event evs -> enqueued evs = [].
Proof. induction 1 as [|e evs He _ IH]; [done|]. by destruct e. Qed.

Lemma worker_events_received evs : Forall worker_event evs -> received evs = [].
Proof. induction 1 as [|e evs He _ IH]; [done|]. by destruct e. Qed.

Lemma enqueued_app evs evs' : enqueued (evs ++ evs') = enqueued evs ++ enqueued evs'.
Proof. apply omap_app. Qed.

Lemma received_app evs evs' : received (evs ++ evs') = received evs ++ received evs'.
Proof. apply omap_app. Qed.

Lemma sent_on_app c evs evs' : sent_on c (evs ++ evs') = sent_on c evs ++ sent_on c evs'.
Proof. apply omap_app. Qed.

(** One turn of the worker, seen from channel [ch]. *)
Lemma worker_turn_spec w t q ch :
  queue w = t :: q ->
  exists evs v,
    events (worker_turn w) = events w ++ evs /\ Forall worker_event evs /\
    sent_on ch evs = (if bool_decide (result t = ch) then [v] else []) /\
    pending (worker_turn w) ch
      = (if bool_decide (result t = ch) then pending w ch ++ [v] else pending w ch) /\
    (v = None -> exists resp, net w (url t) = inr resp /\
       fs (worker_turn w) !! destination t = Some (File (concat (chunks (Body resp))))) /\
    queue (worker_turn w) = q /\
    net (worker_turn w) = net w /\ fault (worker_turn w) = fault w /\
    rand (worker_turn w) = rand w.
Proof.
  intros Hq. unfold worker_turn. rewrite Hq.
  set (w0 := set_queue (fun _ => q) w).
  rewrite after_fst. destruct (handleTask t w0) as [w' o] eqn:Hrun.
  destruct (handleTask_protocol _ _ _ _ Hrun) as (s & P & B & F & E & C & W & Q & N & Fa & R).
  exists (s_events s), (s_value s). cbn [fst]. split_and!; try done.
  - by apply (protocol_worker_events _ _ _ P).
  - by apply (protocol_sent _ _ _ _ P).
  - unfold pending at 1. rewrite C. case_bool_decide as Hc.
    + subst ch. by rewrite lookup_insert_eq.
    + by rewrite lookup_insert_ne.
  - intros Hv. rewrite F. by apply (protocol_success _ _ _ P).
Qed.

Lemma recv_loop_eq {R} turns c w :
  recv_loop (R:=R) turns c w =
    match pending w c with
    | v :: vs => (set_chans (fun m => <[c := vs]> m) (log (ERecv c v) w), Next v)
    | [] =>
        match turns, queue w with
        | S n, _ :: _ => recv_loop n c (worker_turn w)
        | _, _ => (w, Blocked)
        end
    end.
Proof. by destruct turns. Qed.

(** Waiting for the result of the task that is last in the queue: the worker
    works through the queue, and the value received is the one that task
    sent. *)
Lemma recv_loop_backlog {R} q w task ch :
  queue w = q ++ [task] -> result task = ch ->
  Forall (fun t => result t ≠ ch) q -> pending w ch = [] ->
  exists w' evs v,
    recv_loop (R:=R) (length (q ++ [task])) ch w = (w', Next v) /\
    events w' = events w ++ evs ++ [ERecv ch v] /\
    Forall worker_event evs /\ sent_on ch evs = [v] /\
    (v = None -> exists resp, net w (url task) = inr resp /\
       fs w' !! destination task = Some (File (concat (chunks (Body resp))))) /\
    net w' = net w /\ fault w' = fault w /\ rand w' = rand w /\ queue w' = [].
Proof.
  revert w. induction q as [|t0 q IH]; intros w Hq Hres Hothers Hempty.
  - simpl in Hq. rewrite recv_loop_eq, Hempty, Hq. simpl length.
    destruct (worker_turn_spec w task [] ch Hq)
      as (evs & v & E & WE & S & Pd & Ok & Q & N & Fa & Rn).
    rewrite bool_decide_true in S, Pd by done. rewrite Hempty in Pd. simpl in Pd.
    rewrite recv_loop_eq, Pd.
    eexists _, evs, v. split; [reflexivity|]. simpl.
    split_and!; try done. by rewrite E, <- app_assoc.
  - simpl in Hq. apply Forall_cons in Hothers as [Hne Hothers].
    rewrite recv_loop_eq, Hempty, Hq. simpl length. cbn iota.
    destruct (worker_turn_spec w t0 (q ++ [task]) ch Hq)
      as (evs0 & v0 & E0 & WE0 & S0 & Pd0 & _ & Q0 & N0 & Fa0 & Rn0).
    rewrite bool_decide_false in S0, Pd0 by done.
    destruct (IH (worker_turn w)) as (w' & evs & v & Hrun & E & WE & S & Ok & N & Fa & Rn & Q);
      try done; [congruence|].
    exists w', (evs0 ++ evs), v. split; [done|].
    split_and!; try congruence.
    + by rewrite E, E0, <- !app_assoc.
    + by apply Forall_app.
    + by rewrite sent_on_app, S0, S.
    + intros Hv. destruct (Ok Hv) as (resp & Hnet & Hfs). exists resp. by rewrite <- N0.
Qed.

(** The channel [make_chan] makes is empty and no queued task reports on
    it. *)
Lemma fresh_chan w :
  let c := fresh (dom (chans w) ∪ list_to_set (result <$> queue w) : gset nat) in
  chans w !! c = None /\ Forall (fun t => result t ≠ c) (queue w).
Proof.
  intros c. pose proof (is_fresh (dom (chans w) ∪ list_to_set (result <$> queue w) : gset nat))
    as Hf. fold c in Hf. split.
  - apply not_elem_of_dom. set_solver.
  - apply Forall_forall. intros t Ht Hc. apply Hf.
    apply elem_of_union_r, elem_of_list_to_set, list_elem_of_fmap. by exists t.
Qed.

Lemma defer_run {R A B} (d : M B B) (m : M R A) w w' o :
  m w = (w', o) -> o ≠ Blocked -> defer d m w = ((call (R':=unit) d w').1, o).
Proof. unfold defer. intros -> Ho. by destruct o. Qed.

Lemma RemoveAll_gone path w k :
  under path k = true -> fs (call (R':=unit) (os_RemoveAll path) w).1 !! k = None.
Proof.
  intros Hk. unfold call, os_RemoveAll, prim. simpl.
  apply map_lookup_filter_None. right. intros n _. simpl. by rewrite Hk.
Qed.

Lemma RemoveAll_events path w :
  events (call (R':=unit) (os_RemoveAll path) w).1 = events w ++ [ERemoveAll path].
Proof. done. Qed.

Lemma bind_Download {R B} u dst ch (k : unit -> M R B) w :
  bind (call (Download u dst ch)) k w =
    let task := mkTask u dst ch (mkChecksumInfo (-1) "" "" "") in
    k tt (set_queue (fun q => q ++ [task])
            (log (EEnqueue task)
               (if bool_decide (length (queue w) < 1000) then w else worker_turn w))).
Proof. done. Qed.

(** What [DownloadTemp] does between making the directory and removing it. *)
Lemma DownloadTemp_body u tempfile w1 wb ob :
  (ch <~ make_chan ;;
   call (Download u tempfile ch) ;;
   err <~ chan_recv ch ;;
   if_err err (return_ (None, err)) ;;
   r <~ os_Open tempfile ;;
   (let '(file0, err0) := r in
    if_err err0 (return_ (None, err0)) ;;
    return_ (A:=option file * option error) (file0, None))) w1 = (wb, ob) ->
  exists ch v evs,
    events wb = events w1 ++ evs /\
    enqueued evs = [mkTask u tempfile ch (mkChecksumInfo (-1) "" "" "")] /\
    received evs = [(ch, v)] /\ sent_on ch evs = [v] /\
    match v with
    | Some e => ob = Return (None, Some e)
    | None =>
        (exists resp, net w1 u = inr resp /\ EOpen tempfile None ∈ evs /\
           ob = Return (Some (mkFile tempfile (File (concat (chunks (Body resp))))), None)) \/
        (exists e, EOpen tempfile (Some e) ∈ evs /\ ob = Return (None, Some e))
    end /\
    net wb = net w1 /\ fault wb = fault w1 /\ rand wb = rand w1.
Proof.
  unfold make_chan at 1. rewrite bind_prim. cbn [fst snd].
  set (ch := fresh _). destruct (fresh_chan w1) as [Hfresh Hothers]. fold ch in Hfresh, Hothers.
  set (w2 := set_chans _ w1).
  rewrite bind_Download. cbn zeta.
  set (task := mkTask u tempfile ch _).
  assert (Hturn : exists evs0 q,
    let w2' := if bool_decide (length (queue w2) < 1000) then w2 else worker_turn w2 in
    events w2' = events w1 ++ evs0 /\ Forall worker_event evs0 /\ sent_on ch evs0 = [] /\
    queue w2' = q /\ Forall (fun t => result t ≠ ch) q /\ pending w2' ch = [] /\
    net w2' = net w1 /\ fault w2' = fault w1 /\ rand w2' = rand w1).
  { assert (Hp2 : pending w2 ch = []) by (unfold pending; simpl; by rewrite lookup_insert_eq).
    case_bool_decide as Hlen.
    - exists [], (queue w1). simpl. rewrite app_nil_r. by split_and!.
    - destruct (queue w2) as [|t0 q] eqn:Hq; [simpl in Hlen; lia|].
      change (queue w2) with (queue w1) in Hq. rewrite Hq in Hothers.
      apply Forall_cons in Hothers as [Hne Hothers].
      destruct (worker_turn_spec w2 t0 q ch Hq)
        as (evs0 & v0 & E0 & WE0 & S0 & Pd0 & _ & Q0 & N0 & Fa0 & Rn0).
      rewrite bool_decide_false in S0, Pd0 by done.
      exists evs0, q. cbn zeta. split_and!; try done. congruence. }
  destruct Hturn as (evs0 & q & E0 & WE0 & S0 & Q0 & Hq & Pd0 & N0 & Fa0 & Rn0).
  cbn zeta in *. set (w2' := if bool_decide _ then w2 else worker_turn w2) in *.
  set (w3 := set_queue _ _).
  unfold chan_recv at 1. unfold bind at 1.
  change (queue w3) with (queue w2' ++ [task]). rewrite Q0.
  destruct (recv_loop_backlog (R:=option file * option error) q w3 task ch)
    as (w4 & evs & v & Hrecv & E & WE & Sv & Ok & N & Fa & Rn & Q); try done.
  { simpl. by rewrite Q0. }
  rewrite Hrecv.
  assert (Hev : forall tail,
    enqueued tail = [] -> received tail = [] -> sent_on ch tail = [] ->
    let all := evs0 ++ [EEnqueue task] ++ evs ++ [ERecv ch v] ++ tail in
    enqueued all = [task] /\ received all = [(ch, v)] /\ sent_on ch all = [v]).
  { intros tail T1 T2 T3. cbn zeta.
    rewrite !enqueued_app, !received_app, !sent_on_app, T1, T2, T3, S0, Sv.
    rewrite (worker_events_enqueued _ WE0), (worker_events_enqueued _ WE).
    rewrite (worker_events_received _ WE0), (worker_events_received _ WE). done. }
  assert (E4 : events w4 = events w1 ++ evs0 ++ [EEnqueue task] ++ evs ++ [ERecv ch v]).
  { rewrite E. simpl. rewrite E0. by rewrite <- !app_assoc. }
  rewrite bind_if_err. destruct v as [e|].
  { intros [= <- <-]. exists ch, (Some e), (evs0 ++ [EEnqueue task] ++ evs ++ [ERecv ch (Some e)] ++ []).
    destruct (Hev [] eq_refl eq_refl eq_refl) as (H1 & H2 & H3).
    rewrite app_nil_r in *.
    split_and!; try done; simpl in *; congruence. }
  destruct (Ok eq_refl) as (resp & Hnet & Hfile). simpl in Hnet, Hfile.
  unfold os_Open at 1. rewrite bind_prim. unfold syscall_fault.
  change (fs (set_clock S w4)) with (fs w4). rewrite Hfile.
  destruct (fault w4 (clock w4)) as [msg|] eqn:Hf4; cbn [fmap option_fmap option_map fst snd].
  - intros [= <- <-].
    exists ch, None, (evs0 ++ [EEnqueue task] ++ evs ++ [ERecv ch None]
                    ++ [EOpen tempfile (Some (OsError msg))]).
    destruct (Hev [EOpen tempfile (Some (OsError msg))] eq_refl eq_refl eq_refl) as (H1 & H2 & H3).
    split_and!; try done; simpl in *; try congruence.
    + rewrite E4. by repeat (rewrite <- app_assoc; simpl).
    + right. exists (OsError msg). split; [|done].
      clear. repeat first [rewrite elem_of_app | rewrite elem_of_cons].
      repeat (first [left; reflexivity | right]).
  - intros [= <- <-].
    exists ch, None, (evs0 ++ [EEnqueue task] ++ evs ++ [ERecv ch None]
                    ++ [EOpen tempfile None]).
    destruct (Hev [EOpen tempfile None] eq_refl eq_refl eq_refl) as (H1 & H2 & H3).
    split_and!; try done; simpl in *; try congruence.
    + rewrite E4. by repeat (rewrite <- app_assoc; simpl).
    + left. exists resp. split_and!; [congruence| |done].
      clear. repeat first [rewrite elem_of_app | rewrite elem_of_cons].
      repeat (first [left; reflexivity | right]).
Qed.

Lemma DownloadTemp_run u w w' o :
  DownloadTemp u w = (w', o) ->
  exists evs, events w' = events w ++ evs /\
  ((exists e, evs = [ETempDir "" (Some e)] /\ o = Return (None, Some e) /\ fs w' = fs w) \/
   (exists d ch v,
     head evs = Some (ETempDir d None) /\ fs w !! d = None /\
     enqueued evs = [mkTask u (filepath_Join d "buffer") ch (mkChecksumInfo (-1) "" "" "")] /\
     received evs = [(ch, v)] /\ sent_on ch evs = [v] /\
     match v with
     | Some e => o = Return (None, Some e)
     | None =>
         (exists resp, net w u = inr resp /\
            EOpen (filepath_Join d "buffer") None ∈ evs /\
            o = Return (Some (mkFile (filepath_Join d "buffer")
                                     (File (concat (chunks (Body resp))))), None)) \/
         (exists e, EOpen (filepath_Join d "buffer") (Some e) ∈ evs /\
            o = Return (None, Some e))
     end /\
     last evs = Some (ERemoveAll d) /\
     forall k, under d k = true -> fs w' !! k = None)) /\
  net w' = net w /\ fault w' = fault w /\ rand w' = rand w.
Proof.
  unfold DownloadTemp.
  unfold ioutil_TempDir at 1. rewrite bind_prim. unfold syscall_fault.
  destruct (fault w (clock w)) as [msg|] eqn:Hf; cbn [fmap option_fmap option_map fst snd].
  { intros [= <- <-]. eexists. split; [reflexivity|]. split; [|done]. left. by eexists. }
  set (d := filepath_Join os_TempDir ("aptly" +:+ rand w (clock w))).
  change (fs (set_clock S w)) with (fs w).
  destruct (fs w !! d) as [n|] eqn:Hd; cbn [fst snd].
  { intros [= <- <-]. eexists. split; [reflexivity|]. split; [|done]. left. by eexists. }
  rewrite bind_if_err.
  set (w1 := log (ETempDir d None) _).
  match goal with |- defer _ ?m w1 = _ -> _ => destruct (m w1) as [wb ob] eqn:Hbody end.
  destruct (DownloadTemp_body _ _ _ _ _ Hbody)
    as (ch & v & evs & E & Enq & Rcv & Snt & Hv & N & Fa & Rn).
  assert (Hob : ob ≠ Blocked).
  { destruct v as [e|]; [by subst|]. by destruct Hv as [(? & _ & _ & ->)|(? & _ & ->)]. }
  unfold defer. rewrite Hbody. intros Hrun.
  assert (Hdone : (call (R':=unit) (os_RemoveAll d) wb).1 = w' /\ ob = o).
  { destruct ob; [| |done]; by injection Hrun as <- <-. }
  destruct Hdone as [<- <-]. clear Hrun Hob.
  exists ([ETempDir d None] ++ evs ++ [ERemoveAll d]). split_and!; try done.
  - rewrite RemoveAll_events, E. simpl. by rewrite <- !app_assoc.
  - right. exists d, ch, v. split_and!; try done.
    + by rewrite enqueued_app, enqueued_app, Enq.
    + by rewrite received_app, received_app, Rcv.
    + by rewrite sent_on_app, sent_on_app, Snt.
    + destruct v as [e|]; [done|].
      destruct Hv as [(resp & Hnet & Hin & ->)|(e & Hin & ->)].
      * left. exists resp. split_and!; try done.
        rewrite !elem_of_app. auto.
      * right. exists e. split; [|done]. rewrite !elem_of_app. auto.
    + rewrite app_assoc. apply last_snoc.
    + intros k Hk. by apply RemoveAll_gone.
Qed.

(** C8. [DownloadTemp] makes a new temporary directory, puts in the queue one
    task, for the file "buffer" in that directory and without verification,
    and waits for the one result of that task; when the download failed it
    returns no file and that error; when it succeeded it opens the file and
    returns the handle, which refers to the bytes fetched (or the error of
    [os.Open]); and in each of these cases the temporary directory and all
    that is below it are gone when it returns.  (When the directory cannot be
    made, that error is returned and nothing else is done.) *)
Theorem DownloadTemp_spec u w :
  let r := DownloadTemp u w in
  let evs := new_events w r.1 in
  (exists e, evs = [ETempDir "" (Some e)] /\ r.2 = Return (None, Some e) /\ fs r.1 = fs w) \/
  (exists d ch v,
     head evs = Some (ETempDir d None) /\ fs w !! d = None /\
     enqueued evs = [mkTask u (filepath_Join d "buffer") ch (mkChecksumInfo (-1) "" "" "")] /\
     received evs = [(ch, v)] /\ sent_on ch evs = [v] /\
     match v with
     | Some e => r.2 = Return (None, Some e)
     | None =>
         (exists resp, net w u = inr resp /\
            EOpen (filepath_Join d "buffer") None ∈ evs /\
            r.2 = Return (Some (mkFile (filepath_Join d "buffer")
                                       (File (concat (chunks (Body resp))))), None)) \/
         (exists e, EOpen (filepath_Join d "buffer") (Some e) ∈ evs /\
            r.2 = Return (None, Some e))
     end /\
     last evs = Some (ERemoveAll d) /\
     forall k, under d k = true -> fs r.1 !! k = None).
Proof.
  intros r evs. subst r evs.
  destruct (DownloadTemp u w) as [w' o] eqn:Hrun.
  destruct (DownloadTemp_run _ _ _ _ Hrun) as (evs & E & Hcases & _).
  unfold new_events. cbn [fst snd]. by rewrite E, drop_app_length.
Qed.

(** ** DownloadTryCompression *)

(** A call of [DownloadTemp] returns: it puts at most one task in the queue,
    for the URL it was given, and leaves the environment alone. *)
Lemma call_DownloadTemp {R'} u w :
  exists w' f err evs,
    call (R':=R') (DownloadTemp u) w = (w', Next (f, err)) /\
    events w' = events w ++ evs /\
    (url <$> enqueued evs = [] \/ url <$> enqueued evs = [u]) /\
    net w' = net w /\ fault w' = fault w /\ rand w' = rand w.
Proof.
  unfold call. destruct (DownloadTemp u w) as [w' o] eqn:Hrun.
  destruct (DownloadTemp_run _ _ _ _ Hrun) as (evs & E & Hcases & N & Fa & Rn).
  destruct Hcases as [(e & -> & -> & _)|(d & ch & v & _ & _ & Enq & _ & _ & Hv & _)].
  - exists w', None, (Some e), [ETempDir "" (Some e)]. split_and!; auto.
  - assert (Ho : exists f err, o = Return (f, err)).
    { destruct v as [e|]; [by eexists _, _|].
      destruct Hv as [(? & _ & _ & ->)|(? & _ & ->)]; by eexists _, _. }
    destruct Ho as (f & err & ->). exists w', f, err, evs. split_and!; auto.
    right. by rewrite Enq.
Qed.

(** C7. [DownloadTryCompression] tries url+".bz2" (bzip2), then url+".gz"
    (gzip), then url+"" (as it is), in that order.  The first candidate whose
    download succeeds and whose decoder can be made is returned, with the
    decoder on its file, in the world that download left: nothing is tried
    after it.  When all fail, the error returned is the last one met, that of
    the candidate without suffix.  The URLs of the tasks it puts in the queue
    are, in order, among these three. *)
Theorem DownloadTryCompression_spec u w :
  let r1 := call (R':=unit) (DownloadTemp (u +:+ ".bz2")) w in
  let r2 := call (R':=unit) (DownloadTemp (u +:+ ".gz")) r1.1 in
  let r3 := call (R':=unit) (DownloadTemp (u +:+ "")) r2.1 in
  let failed1 := exists f e, r1.2 = Next (f, Some e) in
  let failed2 :=
    (exists f e, r2.2 = Next (f, Some e)) \/
    (exists f msg, r2.2 = Next (f, None) /\ gzip_header_error (FileReader f) = Some msg) in
  (forall f, r1.2 = Next (f, None) ->
     DownloadTryCompression u w
       = (r1.1, Return (Some (Bzip2Reader (FileReader f)), f, None))) /\
  (forall f, failed1 -> r2.2 = Next (f, None) -> gzip_header_error (FileReader f) = None ->
     DownloadTryCompression u w
       = (r2.1, Return (Some (GzipReader (FileReader f)), f, None))) /\
  (forall f, failed1 -> failed2 -> r3.2 = Next (f, None) ->
     DownloadTryCompression u w = (r3.1, Return (Some (FileReader f), f, None))) /\
  (forall f e, failed1 -> failed2 -> r3.2 = Next (f, Some e) ->
     DownloadTryCompression u w = (r3.1, Return (None, None, Some e))) /\
  sublist (url <$> enqueued (new_events w (DownloadTryCompression u w).1))
          [u +:+ ".bz2"; u +:+ ".gz"; u +:+ ""].
Proof.
  intros r1 r2 r3 failed1 failed2. subst failed1 failed2 r3 r2 r1.
  destruct (DownloadTryCompression u w) as [wf res] eqn:Hrun.
  unfold DownloadTryCompression, compressionMethods in Hrun.
  cbn [try_methods extenstion transformation] in Hrun.
  unfold bind at 1 2 in Hrun.
  destruct (call_DownloadTemp (R':=option reader * option file * option error) (u +:+ ".bz2") w)
    as (w1 & f1 & e1 & evs1 & H1 & E1 & Q1 & _).
  assert (H1' : call (R':=unit) (DownloadTemp (u +:+ ".bz2")) w = (w1, Next (f1, e1))).
  { revert H1. unfold call. destruct (DownloadTemp _ w) as [? [?|?|]]; intros; by simplify_eq. }
  destruct (call_DownloadTemp (R':=option reader * option file * option error) (u +:+ ".gz") w1)
    as (w2 & f2 & e2 & evs2 & H2 & E2 & Q2 & _).
  assert (H2' : call (R':=unit) (DownloadTemp (u +:+ ".gz")) w1 = (w2, Next (f2, e2))).
  { revert H2. unfold call. destruct (DownloadTemp _ w1) as [? [?|?|]]; intros; by simplify_eq. }
  destruct (call_DownloadTemp (R':=option reader * option file * option error) (u +:+ "") w2)
    as (w3 & f3 & e3 & evs3 & H3 & E3 & Q3 & _).
  assert (H3' : call (R':=unit) (DownloadTemp (u +:+ "")) w2 = (w3, Next (f3, e3))).
  { revert H3. unfold call. destruct (DownloadTemp _ w2) as [? [?|?|]]; intros; by simplify_eq. }
  rewrite H1'. cbn [fst snd]. rewrite H2'. cbn [fst snd]. rewrite H3'. cbn [fst snd].
  rewrite H1 in Hrun.
  assert (Hsub : forall (l1 l2 l3 : list string) a b c,
    (l1 = [] \/ l1 = [a]) -> (l2 = [] \/ l2 = [b]) -> (l3 = [] \/ l3 = [c]) ->
    sublist (l1 ++ l2 ++ l3) [a; b; c]).
  { intros l1 l2 l3 a b c [-> | ->] [-> | ->] [-> | ->]; simpl; repeat constructor. }
  assert (Hsub1 : sublist (url <$> enqueued evs1) [u +:+ ".bz2"; u +:+ ".gz"; u +:+ ""]).
  { specialize (Hsub _ [] [] _ (u +:+ ".gz") (u +:+ "") Q1). rewrite !app_nil_r in Hsub. auto. }
  assert (Hsub2 : sublist (url <$> enqueued (evs1 ++ evs2))
                          [u +:+ ".bz2"; u +:+ ".gz"; u +:+ ""]).
  { specialize (Hsub _ _ [] _ _ (u +:+ "") Q1 Q2). rewrite !app_nil_r in Hsub.
    rewrite enqueued_app, fmap_app. auto. }
  assert (Hsub3 : sublist (url <$> enqueued (evs1 ++ evs2 ++ evs3))
                          [u +:+ ".bz2"; u +:+ ".gz"; u +:+ ""]).
  { rewrite !enqueued_app, !fmap_app. auto. }
  assert (Hnew1 : new_events w w1 = evs1) by (unfold new_events; by rewrite E1, drop_app_length).
  assert (Hnew2 : new_events w w2 = evs1 ++ evs2).
  { unfold new_events. by rewrite E2, E1, <- app_assoc, drop_app_length. }
  assert (Hnew3 : new_events w w3 = evs1 ++ evs2 ++ evs3).
  { unfold new_events. by rewrite E3, E2, E1, <- !app_assoc, drop_app_length. }
  clear Hsub Q1 Q2 Q3 E1 E2 E3 H1 H1' H2' H3'.
  assert (Hcases :
    (wf, res) =
      match e1 with
      | None => (w1, Return (Some (Bzip2Reader (FileReader f1)), f1, None))
      | Some _ =>
          match e2, gzip_header_error (FileReader f2) with
          | None, None => (w2, Return (Some (GzipReader (FileReader f2)), f2, None))
          | _, _ =>
              match e3 with
              | None => (w3, Return (Some (FileReader f3), f3, None))
              | Some e => (w3, Return (None, None, Some e))
              end
          end
      end).
  { rewrite <- Hrun. clear Hrun. destruct e1 as [e1|]; [|done].
    unfold bind at 1. rewrite H2.
    destruct e2 as [e2|]; [|destruct (gzip_header_error (FileReader f2))];
      try done; unfold bind at 1; rewrite H3; by destruct e3. }
  clear Hrun H2 H3.
  destruct e1 as [e1|]; [destruct e2 as [e2|];
    [|destruct (gzip_header_error (FileReader f2)) as [msg|] eqn:Hgz]; [destruct e3 as [e3|]..|]|];
    injection Hcases as -> ->; cbn [fst snd]; rewrite ?Hnew1, ?Hnew2, ?Hnew3;
    (split_and!; [..|done]);
    intros;
    repeat match goal with
           | Hx : _ \/ _ |- _ => destruct Hx
           | Hx : exists _, _ |- _ => destruct Hx
           | Hx : _ /\ _ |- _ => destruct Hx
           end; simplify_eq; congruence.
Qed.

(** ** The pool *)

Lemma sum_list_cons (x : nat) (l : list nat) : sum_list (x :: l) = x + sum_list l.
Proof. done. Qed.

Lemma sum_list_insert {A} (f : A -> nat) (l : list A) k x y :
  l !! k = Some x ->
  sum_list (f <$> <[k := y]> l) + f x = sum_list (f <$> l) + f y.
Proof.
  revert k. induction l as [|a l IH]; intros [|k] Hk; try done.
  - injection Hk as ->. change (<[0 := y]> (x :: l)) with (y :: l).
    rewrite !fmap_cons, !sum_list_cons. lia.
  - change ((a :: l) !! S k) with (l !! k) in Hk. specialize (IH _ Hk).
    change (<[S k := y]> (a :: l)) with (a :: <[k := y]> l).
    rewrite !fmap_cons, !sum_list_cons. lia.
Qed.

Lemma sum_list_le_length (l : list nat) :
  Forall (fun x => x <= 1) l -> sum_list l <= length l.
Proof. induction 1; [done|]. rewrite sum_list_cons. simpl length. lia. Qed.

Lemma sum_list_full (l : list nat) :
  Forall (fun x => x <= 1) l -> sum_list l = length l -> Forall (fun x => x = 1) l.
Proof.
  induction 1 as [|x l Hx Hl IH]; [constructor|].
  rewrite sum_list_cons. simpl length. intros Hs. pose proof (sum_list_le_length l Hl).
  constructor; [lia|]. apply IH. lia.
Qed.

Lemma worker_ok_bounds wk : worker_ok wk -> acks wk <= stops wk <= 1.
Proof. unfold worker_ok. destruct (at_ wk); lia. Qed.

Lemma tokens_le ws : Forall worker_ok ws -> tokens ws <= length ws.
Proof.
  intros Hok. unfold tokens. rewrite <- (length_fmap stops). apply sum_list_le_length.
  apply Forall_fmap. eapply Forall_impl; [exact Hok|]. intros wk Hwk. simpl.
  apply worker_ok_bounds in Hwk. lia.
Qed.

Lemma acked_le_tokens ws : Forall worker_ok ws -> acked ws <= tokens ws.
Proof.
  unfold acked, tokens. induction 1 as [|wk ws Hwk _ IH]; [simpl; lia|].
  rewrite !fmap_cons, !sum_list_cons. apply worker_ok_bounds in Hwk. lia.
Qed.

Lemma acked_full ws :
  Forall worker_ok ws -> acked ws = length ws ->
  Forall (fun wk => at_ wk = Exited /\ stops wk = 1 /\ acks wk = 1 /\ finished wk = taken wk) ws.
Proof.
  intros Hok Hfull.
  assert (Hone : Forall (fun x => x = 1) (acks <$> ws)).
  { apply sum_list_full; [|by rewrite length_fmap].
    apply Forall_fmap. eapply Forall_impl; [exact Hok|]. intros wk Hwk. simpl.
    apply worker_ok_bounds in Hwk. lia. }
  apply Forall_fmap in Hone. apply Forall_forall. intros wk Hin.
  pose proof (proj1 (Forall_forall _ _) Hok wk Hin) as Hwk.
  pose proof (proj1 (Forall_forall _ _) Hone wk Hin) as Hack. simpl in Hack.
  unfold worker_ok in Hwk. destruct (at_ wk); try lia. by destruct Hwk as (? & ? & ?).
Qed.

Lemma Forall_insert_ok ws k wk :
  Forall worker_ok ws -> worker_ok wk -> Forall worker_ok (<[k := wk]> ws).
Proof. intros. by apply Forall_insert. Qed.

Lemma sum_list_zeros {A} (f : A -> nat) (x : A) m :
  f x = 0 -> sum_list (f <$> replicate m x) = 0.
Proof.
  intros Hx. induction m as [|m IH]; [done|].
  change (replicate (S m) x) with (x :: replicate m x).
  rewrite fmap_cons, sum_list_cons. lia.
Qed.

Lemma NewDownloader_inv n w : pool_inv n (NewDownloader n w).
Proof.
  unfold pool_inv, NewDownloader, shutdown_ok, tokens, acked. simpl.
  rewrite length_replicate. split_and!; try done.
  - apply Forall_replicate. by unfold worker_ok.
  - by apply sum_list_zeros.
  - by apply sum_list_zeros.
Qed.

Lemma tokens_insert ws k wk wk' :
  ws !! k = Some wk -> tokens (<[k := wk']> ws) + stops wk = tokens ws + stops wk'.
Proof. apply sum_list_insert. Qed.

Lemma acked_insert ws k wk wk' :
  ws !! k = Some wk -> acked (<[k := wk']> ws) + acks wk = acked ws + acks wk'.
Proof. apply sum_list_insert. Qed.

(** A worker changes place and keeps its counts of tokens. *)
Lemma shutdown_ok_same p k wk wk' :
  workers p !! k = Some wk -> stops wk' = stops wk -> acks wk' = acks wk ->
  shutdown_ok p -> shutdown_ok (set_worker k wk' p).
Proof.
  intros Hk Hs Ha. unfold shutdown_ok. simpl.
  pose proof (tokens_insert _ _ _ wk' Hk). pose proof (acked_insert _ _ _ wk' Hk).
  rewrite length_insert. destruct (shutdown p); lia.
Qed.

Lemma step_inv n p a p' : pool_inv n p -> step p a p' -> pool_inv n p'.
Proof.
  intros (Hn & Hlen & Hok & Hsd) Hstep.
  pose proof (tokens_le _ Hok) as Hle. pose proof (acked_le_tokens _ Hok) as Hle'.
  destruct Hstep as [p Hs|p i k wk Hs Hi Hk Hat|p i Hs Hi|p i k wk Hs Hi Hk Hat|p i Hs Hi
                    |p k wk Hk Hat|p k wk Hk Hat|p k wk task q Hk Hat Hq|p k wk task Hk Hat
                    |p task Hq];
    unfold pool_inv; simpl; rewrite ?length_insert;
    try (pose proof (proj1 (Forall_forall _ _) Hok wk (list_elem_of_lookup_2 _ _ _ Hk)) as Hwk;
         unfold worker_ok in Hwk; rewrite Hat in Hwk; destruct Hwk as (Hw1 & Hw2 & Hw3)).
  - (* call *)
    split_and!; try done. unfold shutdown_ok in *. rewrite Hs in Hsd. simpl. lia.
  - (* a stop token *)
    split_and!; try done.
    + apply Forall_insert; [done|]. unfold worker_ok. simpl. by rewrite Hw1.
    + unfold shutdown_ok in *. rewrite Hs in Hsd. simpl.
      pose proof (tokens_insert _ _ _ (Worker Stopping (S (stops wk)) (acks wk) (taken wk) (finished wk)) Hk).
      pose proof (acked_insert _ _ _ (Worker Stopping (S (stops wk)) (acks wk) (taken wk) (finished wk)) Hk).
      simpl in *. lia.
  - (* the first loop ends *)
    split_and!; try done. unfold shutdown_ok in *. rewrite Hs in Hsd. simpl. lia.
  - (* an acknowledgment *)
    split_and!; try done.
    + apply Forall_insert; [done|]. unfold worker_ok. simpl. by rewrite Hw1, Hw2.
    + unfold shutdown_ok in *. rewrite Hs in Hsd. simpl. rewrite length_insert.
      pose proof (tokens_insert _ _ _ (Worker Exited (stops wk) (S (acks wk)) (taken wk) (finished wk)) Hk).
      pose proof (acked_insert _ _ _ (Worker Exited (stops wk) (S (acks wk)) (taken wk) (finished wk)) Hk).
      simpl in *. lia.
  - (* return *)
    split_and!; try done. unfold shutdown_ok in *. rewrite Hs in Hsd. simpl. lia.
  - (* pause *)
    split_and!; try done.
    + apply Forall_insert; [done|]. by unfold worker_ok.
    + by apply (shutdown_ok_same p k wk).
  - (* unpause *)
    split_and!; try done.
    + apply Forall_insert; [done|]. by unfold worker_ok.
    + by apply (shutdown_ok_same p k wk).
  - (* a task is taken *)
    split_and!; try done.
    + apply Forall_insert; [done|]. unfold worker_ok. simpl. by rewrite Hw3.
    + by apply (shutdown_ok_same p k wk).
  - (* a task is finished *)
    split_and!; try done.
    + apply Forall_insert; [done|]. unfold worker_ok. simpl. by rewrite Hw3.
    + by apply (shutdown_ok_same p k wk).
  - (* a task is submitted *)
    by split_and!.
Qed.

Lemma reachable_inv n w p : reachable n w p -> pool_inv n p.
Proof.
  induction 1 as [|p a p' _ IH Hstep]; [apply NewDownloader_inv|].
  by eapply step_inv.
Qed.

Lemma after_pending t w :
  exists v, pending (after t w) (result t) = pending w (result t) ++ [v].
Proof.
  destruct (after_protocol t w) as (s & P & B & F & E & C & W & Q & N & Fa & R).
  exists (s_value s). rewrite (pending_after _ _ _ _ C). by rewrite bool_decide_true.
Qed.

(** C9. [Shutdown] gives one stop token to each of the N workers and returns
    only when each has acknowledged it.  A worker takes the token at its
    select only, so not while it handles a task: what it took it has
    finished - and [handleTask] has delivered the result - before it
    acknowledges.  The steps of [Shutdown] touch neither a worker that is
    handling a task nor the queue, and after the return nobody takes a task:
    what is in the queue stays there. *)
Theorem Shutdown_waits_for_idle_workers n w p :
  reachable n w p ->
  (forall k wk, workers p !! k = Some wk ->
     acks wk <= stops wk <= 1 /\
     (stops wk = 1 -> finished wk = taken wk /\ (at_ wk = Stopping \/ at_ wk = Exited)) /\
     (acks wk = 1 -> at_ wk = Exited) /\
     (forall task, at_ wk = Handling task -> stops wk = 0 /\ acks wk = 0)) /\
  (shutdown p = Returned ->
     length (workers p) = Z.to_nat n /\
     forall k wk, workers p !! k = Some wk ->
       stops wk = 1 /\ acks wk = 1 /\ at_ wk = Exited /\ finished wk = taken wk) /\
  (forall a p', step p a p' ->
     match a with
     | SendStop k =>
         exists wk, workers p !! k = Some wk /\ at_ wk = Selecting /\
           finished wk = taken wk /\ stops wk = 0
     | RecvStopped k =>
         exists wk, workers p !! k = Some wk /\ at_ wk = Stopping /\
           finished wk = taken wk /\ stops wk = 1 /\ acks wk = 0
     | FinishTask k task =>
         pworld p' = after task (pworld p) /\
         exists v, pending (pworld p') (result task)
                   = pending (pworld p) (result task) ++ [v]
     | _ => True
     end) /\
  (forall a p', step p a p' -> of_shutdown a = true ->
     pworld p' = pworld p /\
     forall k wk task, workers p !! k = Some wk -> at_ wk = Handling task ->
       workers p' !! k = Some wk) /\
  (shutdown p = Returned -> forall a p', step p a p' ->
     exists task, a = Submit task /\ queue (pworld p') = queue (pworld p) ++ [task]).
Proof.
  intros Hreach. destruct (reachable_inv _ _ _ Hreach) as (Hn & Hlen & Hok & Hsd).
  assert (Hwk : forall k wk, workers p !! k = Some wk -> worker_ok wk).
  { intros k wk Hk. apply (proj1 (Forall_forall _ _) Hok). by eapply list_elem_of_lookup_2. }
  split_and!.
  - intros k wk Hk. specialize (Hwk _ _ Hk). unfold worker_ok in Hwk.
    destruct (at_ wk); destruct Hwk as (-> & -> & ->); split_and!; try done; try lia; auto;
      intros; simplify_eq; auto.
  - intros Hret. split; [done|]. unfold shutdown_ok in Hsd. rewrite Hret in Hsd.
    destruct Hsd as [_ Hfull]. pose proof (acked_full _ Hok Hfull) as Hall.
    intros k wk Hk.
    destruct (proj1 (Forall_forall _ _) Hall wk (list_elem_of_lookup_2 _ _ _ Hk))
      as (? & ? & ? & ?). done.
  - intros a p' Hstep.
    destruct Hstep as [p Hs|p i k wk Hs Hi Hk Hat|p i Hs Hi|p i k wk Hs Hi Hk Hat|p i Hs Hi
                    |p k wk Hk Hat|p k wk Hk Hat|p k wk task q Hk Hat Hq|p k wk task Hk Hat
                    |p task Hq]; try done.
    + pose proof (Hwk _ _ Hk) as Hw. unfold worker_ok in Hw. rewrite Hat in Hw.
      destruct Hw as (? & ? & ?). by exists wk.
    + pose proof (Hwk _ _ Hk) as Hw. unfold worker_ok in Hw. rewrite Hat in Hw.
      destruct Hw as (? & ? & ?). by exists wk.
    + simpl. split; [done|]. apply after_pending.
  - intros a p' Hstep Ha.
    destruct Hstep as [p Hs|p i k wk Hs Hi Hk Hat|p i Hs Hi|p i k wk Hs Hi Hk Hat|p i Hs Hi
                    |p k wk Hk Hat|p k wk Hk Hat|p k wk task q Hk Hat Hq|p k wk task Hk Hat
                    |p task Hq]; try done; simpl; (split; [done|]);
      intros k' wk' task' Hk' Hat'; try done.
    + destruct (decide (k' = k)) as [->|Hne]; [congruence|].
      by rewrite list_lookup_insert_ne.
    + destruct (decide (k' = k)) as [->|Hne]; [congruence|].
      by rewrite list_lookup_insert_ne.
  - intros Hret a p' Hstep. unfold shutdown_ok in Hsd. rewrite Hret in Hsd.
    destruct Hsd as [_ Hfull]. pose proof (acked_full _ Hok Hfull) as Hall.
    assert (Hex : forall k wk, workers p !! k = Some wk -> at_ wk = Exited).
    { intros k wk Hk.
      by destruct (proj1 (Forall_forall _ _) Hall wk (list_elem_of_lookup_2 _ _ _ Hk)). }
    destruct Hstep as [p Hs|p i k wk Hs Hi Hk Hat|p i Hs Hi|p i k wk Hs Hi Hk Hat|p i Hs Hi
                    |p k wk Hk Hat|p k wk Hk Hat|p k wk task q Hk Hat Hq|p k wk task Hk Hat
                    |p task Hq];
      try congruence; try (pose proof (Hex _ _ Hk); congruence).
    by eexists.
Qed.

(** * Further properties *)

(** ** When the request fails *)

(** X1. When [http.Get] fails, [handleTask] prints its line, makes the
    request, sends that error and returns: no call on the file system is
    made, and the file system, the checksum writers and the queue are as they
    were. *)
Theorem transport_failure_touches_nothing t w msg :
  net w (url t) = inl msg ->
  new_events w (after t w) =
    [EPrintf "Downloading %s...\n" [ArgStr (url t)]; EGet (url t);
     ESend (result t) (Some (OsError msg))] /\
  fs (after t w) = fs w /\ writers (after t w) = writers w /\ queue (after t w) = queue w.
Proof.
  intros Hnet.
  destruct (after_protocol t w) as (s & P & B & F & E & C & W & Q & N & Fa & R).
  rewrite F, E, W, Q. clear -P Hnet.
  destruct P; try congruence. simpl. rewrite app_nil_r.
  split_and!; try done. congruence.
Qed.

(** ** What handleTask leaves alone *)









Section Outside.

Variable K : string -> Prop.
Variable w0 : world.










End Outside.


(** ** The stages of handleTask *)

(** X3. [handleTask] goes through its stages in order and starts a stage
    only when the one before succeeded: it prints and makes one GET, for the
    URL of the task, and no other; [os.MkdirAll], of the directory of the
    destination, only after a response with a status in 200..299;
    [os.Create], of the temporary path, only after a successful
    [os.MkdirAll]; the copy only after a successful [os.Create]; the sums only
    after a complete copy, and only with verification; [os.Rename], of the
    temporary path to the destination, only after a complete copy and, with
    verification, after the sums were taken and no check failed; and
    [os.Remove] only of the temporary path, after it was created. *)
Theorem handleTask_stages t w :
  let evs := new_events w (after t w) in
  let temp := destination t +:+ ".down" in
  let dir := filepath_Dir (destination t) in
  (exists rest,
     evs = EPrintf "Downloading %s...\n" [ArgStr (url t)] :: EGet (url t) :: rest /\
     forall u, EGet u ∉ rest) /\
  (forall p r, EMkdirAll p r ∈ evs ->
     p = dir /\ exists resp, net w (url t) = inr resp /\ (200 <= StatusCode resp <= 299)%Z) /\
  (forall p r, ECreate p r ∈ evs -> p = temp /\ EMkdirAll dir None ∈ evs) /\
  (forall r, ECopy r ∈ evs -> ECreate temp None ∈ evs) /\
  (forall id, ESum id ∈ evs -> ECopy None ∈ evs /\ Size (expected t) ≠ (-1)%Z) /\
  (forall p q r, ERename p q r ∈ evs ->
     p = temp /\ q = destination t /\ ECopy None ∈ evs /\
     (Size (expected t) ≠ (-1)%Z ->
      ESum (length (writers w)) ∈ evs /\
      forall resp, net w (url t) = inr resp ->
        mismatch (url t) (checksums (concat (chunks (Body resp)))) (expected t) = None)) /\
  (forall p, ERemove p ∈ evs -> p = temp /\ ECreate temp None ∈ evs).
Proof.
  intros evs temp dir. subst evs temp dir.
  destruct (after_protocol t w) as (s & P & B & F & E & C & W & Q & N & Fa & R).
  rewrite E. clear -P. split_and!.
  - destruct P; simpl; eexists; (split; [reflexivity|]); intros u; in_events.
  - intros p r. destruct P; unfold in_range in *; in_events.
  - intros p r. destruct P; in_events.
  - intros r. destruct P; in_events.
  - intros id. destruct P;
      repeat match goal with H : bool_decide _ = true |- _ => apply bool_decide_eq_true_1 in H end;
      simpl; try case_bool_decide; simpl; rewrite ?elem_of_cons, ?elem_of_nil; naive_solver.
  - intros p q r.
    destruct P; simpl; try case_bool_decide; simpl;
      rewrite ?elem_of_cons, ?elem_of_nil; intros Hin;
      repeat (destruct Hin as [Hin|Hin]; [try discriminate|]); try done;
      simplify_eq; (split_and!; [done|done|tauto|]); intros Hs; try done;
      (split; [tauto|]); intros resp' Hnet;
      match goal with Hr : net w _ = inr ?r |- _ => rewrite Hr in Hnet; injection Hnet as <- end;
      auto.
  - intros p. destruct P; in_events.
Qed.

(** X4. When verification is requested (expected size not -1) and the task
    reports success, the destination is a regular file whose length is the
    expected size and whose md5, sha1 and sha256 are the expected ones, for
    each that is not empty. *)
Theorem verified_download_matches t w :
  Size (expected t) ≠ (-1)%Z -> reported t w = [None] ->
  exists data,
    fs (after t w) !! destination t = Some (File data) /\
    Z.of_nat (length data) = Size (expected t) /\
    (MD5 (expected t) ≠ "" -> md5sum data = MD5 (expected t)) /\
    (SHA1 (expected t) ≠ "" -> sha1sum data = SHA1 (expected t)) /\
    (SHA256 (expected t) ≠ "" -> sha256sum data = SHA256 (expected t)).
Proof.
  intros Hsize Hrep.
  destruct (after_protocol t w) as (s & P & B & F & E & C & W & Q & N & Fa & R).
  rewrite (reported_value _ _ _ P E) in Hrep. injection Hrep as Hv.
  rewrite F. clear -P Hv Hsize.
  destruct P; try discriminate.
  match goal with M : _ = true -> mismatch _ _ _ = None |- _ =>
    specialize (M (bool_decide_eq_true_2 _ Hsize)); rename M into Hm end.
  exists (concat (chunks (Body resp))). simpl. rewrite lookup_insert_eq.
  unfold mismatch, checksums in Hm. simpl in Hm.
  repeat case_bool_decide; simpl in Hm; try discriminate; split_and!; try done;
    intros; by apply dec_stable.
Qed.

(** ** A run in which nothing goes wrong *)

Lemma mkdir_each_clean ds w w1 err :
  mkdir_each ds w = (w1, err) ->
  (forall n, fault w n = None) ->
  (forall d b, d ∈ ds -> fs w !! d ≠ Some (File b)) ->
  err = None.
Proof.
  revert w. induction ds as [|d ds IH]; intros w; simpl.
  - by intros [= <- <-].
  - intros Hrun Hfault Hfiles. destruct (fs w !! d) as [[b|]|] eqn:E.
    + exfalso. apply (Hfiles d b); [apply list_elem_of_here|done].
    + apply (IH _ Hrun Hfault). intros d' b' Hd'. apply Hfiles. by apply list_elem_of_further.
    + rewrite Hfault in Hrun. simpl in Hrun. apply (IH _ Hrun); [done|].
      intros d' b' Hd'. simpl. destruct (decide (d' = d)) as [->|Hne].
      * by rewrite lookup_insert_eq.
      * rewrite lookup_insert_ne by done. apply Hfiles. by apply list_elem_of_further.
Qed.

Lemma copy_clean (v : bool) p id cs w w1 err d0 :
  copy_chunks (if v then MultiWriter [FileWriter p; ChecksumWriter id] else FileWriter p)
              cs w = (w1, err) ->
  (forall n, fault w n = None) -> fs w !! p = Some (File d0) ->
  err = None.
Proof.
  revert w d0. induction cs as [|c cs IH]; intros w d0; [by intros [= <- <-]|].
  intros Hrun Hfault Hfile. cbn [copy_chunks] in Hrun.
  assert (Hw : file_Write p c w
               = (set_fs (fun m => <[p := File (d0 ++ c)]> m) (set_clock S w), None)).
  { unfold file_Write. simpl. rewrite Hfault. simpl. by rewrite Hfile. }
  destruct v; simpl in Hrun; rewrite Hw in Hrun;
    (eapply (IH _ _ Hrun); [done|simpl; apply lookup_insert_eq]).
Qed.

Lemma protocol_last t w s :
  protocol t w s -> last (s_events s) = Some (ESend (result t) (s_value s)).
Proof.
  destruct 1; simpl; try destruct (bool_decide (Size _ ≠ _)); done.
Qed.

Lemma components_last cur p : exists c, last (components cur p) = Some c.
Proof.
  revert cur. induction p as [|a p IH]; intros cur; simpl; [by eexists|].
  destruct (Ascii.eqb a "/"); [|apply IH].
  destruct (IH "") as (c & Hc). exists c.
  destruct (components "" p); [discriminate Hc|done].
Qed.

Lemma forallb_last {A} (P : A -> bool) (l : list A) x :
  forallb P l = true -> last l = Some x -> P x = true.
Proof.
  intros Hall [l' ->]%last_Some. rewrite forallb_app in Hall.
  apply andb_prop in Hall as [_ Hx]. simpl in Hx. by apply andb_prop in Hx as [? _].
Qed.

(** At a clean path a regular file can be put. *)
Lemma clean_path_names_file p : clean_path p = true -> names_file p = true.
Proof.
  unfold clean_path, names_file. intros [Hall _]%andb_prop.
  destruct (components_last "" p) as (c & Hc). rewrite Hc.
  destruct (components "" p) as [|c0 [|c1 cs]]; [discriminate Hc|..].
  - destruct c0; by apply (forallb_last _ _ _ Hall).
  - destruct c0; [|by apply (forallb_last _ _ _ Hall)].
    by apply (forallb_last proper (c1 :: cs)).
Qed.

Lemma clean_run t w resp w' o :
  net w (url t) = inr resp ->
  (200 <= StatusCode resp <= 299)%Z ->
  read_err (Body resp) = None ->
  (forall n, fault w n = None) ->
  (forall d b, d ∈ mkdir_chain (filepath_Dir (destination t)) -> fs w !! d ≠ Some (File b)) ->
  destination t +:+ ".down" ∉ mkdir_chain (filepath_Dir (destination t)) ->
  fs w !! (destination t +:+ ".down") ≠ Some Dir ->
  names_file (destination t) = true ->
  destination t ∉ mkdir_chain (filepath_Dir (destination t)) ->
  fs w !! destination t ≠ Some Dir ->
  (Size (expected t) ≠ (-1)%Z ->
   mismatch (url t) (checksums (concat (chunks (Body resp)))) (expected t) = None) ->
  handleTask t w = (w', o) ->
  last (events w') = Some (ESend (result t) None).
Proof.
  intros Hnet Hrange Hread Hfault Hfiles Htc Htemp Hnames Hdc Hdest Hsums.
  unfold handleTask.
  unfold fmt_Printf, http_Get. rewrite !bind_prim. cbn [fst snd].
  change (net (log _ w) (url t)) with (net w (url t)). rewrite Hnet.
  rewrite defer_Close, bind_when.
  destruct (_ || _) eqn:Estatus; [exfalso; lia|].
  unfold os_MkdirAll at 1. rewrite bind_prim.
  set (w0 := log (EGet (url t)) (log (EPrintf _ _) w)).
  destruct (mkdir_each _ w0) as [w1 err1] eqn:Hmk. cbn [fst snd].
  destruct (mkdir_each_spec _ _ _ _ Hmk) as (S1 & W1 & G1 & X1 & D1 & U1).
  assert (err1 = None) as -> by (by apply (mkdir_each_clean _ _ _ _ Hmk)).
  use_rest S1. simpl in W1, G1, U1.
  rewrite bind_if_err.
  unfold os_Create at 1. rewrite bind_prim. unfold syscall_fault. simpl fault. simpl clock.
  set (temp := destination t +:+ ".down") in *.
  rewrite Sf, Hfault. cbn [fmap option_fmap option_map].
  change (fs (set_clock S (log _ w1))) with (fs w1).
  rewrite match_not_dir by (by rewrite U1). cbn [fst snd].
  rewrite bind_if_err, defer_Close.
  set (w2 := log (ECreate temp None) _).
  unfold NewChecksumWriter at 1. rewrite bind_prim. cbn [fst snd].
  unfold io_Copy at 1. rewrite bind_prim.
  set (v := bool_decide (Size (expected t) ≠ (-1)%Z)) in *.
  set (w3 := set_writers _ w2).
  destruct (copy_chunks _ (chunks (Body resp)) w3) as [w4 err4] eqn:Hcopy.
  destruct (copy_spec v temp (length (writers w2)) _ _ _ _ [] [] Hcopy)
    as (S4 & X4 & data & sunk & F4 & W4 & N4 & D4).
  { simpl. apply lookup_insert_eq. }
  { simpl. apply lookup_last. }
  assert (err4 = None) as ->.
  { apply (copy_clean _ _ _ _ _ _ _ [] Hcopy).
    - intros n. simpl. by rewrite Sf.
    - simpl. apply lookup_insert_eq. }
  use_rest S4. simpl in F4, W4. rewrite insert_insert_eq in F4. rewrite insert_last in W4.
  rewrite Hread. cbn [fmap option_fmap option_map fst snd].
  destruct (D4 eq_refl) as [-> ->]. clear D4 N4. simpl in F4, W4.
  rewrite bind_if_err, bind_when.
  set (w5 := log (ECopy None) w4).
  set (content := concat (chunks (Body resp))) in *.
  assert (Hcommit : forall w6,
    fs w6 = fs w4 -> fault w6 = fault w4 ->
    (err <~ os_Rename temp (destination t) ;;
     if_err err (os_Remove temp ;; chan_send (result t) err ;; return_ tt) ;;
     chan_send (result t) None) w6 = (w', o) ->
    last (events w') = Some (ESend (result t) None)).
  { intros w6 F6 Fa6.
    unfold os_Rename. rewrite bind_prim. unfold syscall_fault.
    change (fs (set_clock S w6)) with (fs w6). rewrite F6, F4.
    rewrite lookup_insert_eq.
    rewrite lookup_insert_ne by apply temp_ne.
    rewrite Fa6, Sf0, Sf, Hfault, Hnames. cbn [fmap option_fmap option_map fst snd].
    rewrite match_not_dir by (by rewrite U1). cbn [fst snd].
    rewrite bind_if_err. unfold chan_send, prim. simpl.
    intros [= <- <-]. simpl. by rewrite last_snoc. }
  destruct v eqn:Ev.
  - unfold checksum_Sum at 1. rewrite bind_assoc, bind_prim. cbn [fst snd].
    change (writers w5) with (writers w4). change (writers w2) with (writers w1).
    rewrite W4, lookup_last.
    change (default [] (Some content)) with content.
    change (if bool_decide (Size (checksums content) ≠ Size (expected t)) then _ else _)
      with (mismatch (url t) (checksums content) (expected t)).
    rewrite Hsums by (by apply bool_decide_eq_true_1 in Ev). rewrite bind_if_err.
    by apply Hcommit.
  - by apply Hcommit.
Qed.

(** X5. When nothing stands in the way - a response with a status in
    200..299 whose body can be read to its end, no system call that fails, a
    destination that is a clean path (no empty component, no "." or "..", no
    separator at its end, no zero byte), no regular file where a directory of
    the destination has to be, no directory at the temporary path or at the
    destination, and expected sums that are those of the body (each hash may
    also be empty) or no verification - then [handleTask] reports [nil], the
    destination is a regular file with the bytes of the body, and the
    temporary file is not there. *)
Theorem handleTask_succeeds t w resp :
  let dir := filepath_Dir (destination t) in
  let temp := destination t +:+ ".down" in
  let body := concat (chunks (Body resp)) in
  net w (url t) = inr resp ->
  (200 <= StatusCode resp <= 299)%Z ->
  read_err (Body resp) = None ->
  (forall n, fault w n = None) ->
  clean_path (destination t) = true ->
  (forall d b, d ∈ mkdir_chain dir -> fs w !! d ≠ Some (File b)) ->
  temp ∉ mkdir_chain dir -> fs w !! temp ≠ Some Dir ->
  destination t ∉ mkdir_chain dir -> fs w !! destination t ≠ Some Dir ->
  (Size (expected t) ≠ (-1)%Z ->
     Size (expected t) = Z.of_nat (length body) /\
     (MD5 (expected t) = "" \/ MD5 (expected t) = md5sum body) /\
     (SHA1 (expected t) = "" \/ SHA1 (expected t) = sha1sum body) /\
     (SHA256 (expected t) = "" \/ SHA256 (expected t) = sha256sum body)) ->
  reported t w = [None] /\
  fs (after t w) !! destination t = Some (File body) /\
  fs (after t w) !! temp = None.
Proof.
  intros dir temp body Hnet Hrange Hread Hfault Hclean Hfiles Htc Htemp Hdc Hdest Hsums.
  pose proof (clean_path_names_file _ Hclean) as Hnames.
  assert (Hmm : Size (expected t) ≠ (-1)%Z ->
    mismatch (url t) (checksums body) (expected t) = None).
  { intros Hs. destruct (Hsums Hs) as (H1 & H2 & H3 & H4).
    apply mismatch_spec; simpl; [congruence|intros [? ?]..]; naive_solver. }
  destruct (handleTask t w) as [w' o] eqn:Hrun.
  pose proof (clean_run _ _ _ _ _ Hnet Hrange Hread Hfault Hfiles Htc Htemp Hnames Hdc Hdest Hmm
                        Hrun)
    as Hlast.
  destruct (handleTask_protocol _ _ _ _ Hrun) as (s & P & B & F & E & C & W & Q & N & Fa & R).
  rewrite E, last_app, (protocol_last _ _ _ P) in Hlast. injection Hlast as Hv.
  unfold reported, new_events. rewrite after_fst, Hrun. cbn [fst].
  rewrite E, drop_app_length, (protocol_sent _ _ _ _ P), bool_decide_true, Hv, F by done.
  clear -P Hv Hnet. destruct P; try discriminate.
  match goal with Hr : net w _ = inr ?r |- _ => rewrite Hr in Hnet; injection Hnet as <- end.
  simpl. split_and!; [done|apply lookup_insert_eq|].
  rewrite lookup_insert_ne by (intros Heq; symmetry in Heq; by apply temp_ne in Heq).
  apply lookup_delete_eq.
Qed.

(** ** A task that fails *)



(** ** Runs of the pool *)

Lemma trace_one {St Act} (step : St -> Act -> St -> Prop) s a s' :
  step s a s' -> trace step s [a] s'.
Proof. intros H. apply (trace_snoc step s [] s a s'); [constructor|done]. Qed.

Lemma trace_app {St Act} (step : St -> Act -> St -> Prop) s tr1 s1 tr2 s2 :
  trace step s tr1 s1 -> trace step s1 tr2 s2 -> trace step s (tr1 ++ tr2) s2.
Proof.
  intros H1 H2. induction H2 as [|s1 tr2 s2 a s3 _ IH Hstep].
  - by rewrite app_nil_r.
  - rewrite app_assoc. eapply trace_snoc; [by apply IH|done].
Qed.

Lemma trace_cons {St Act} (step : St -> Act -> St -> Prop) s a s1 tr s2 :
  step s a s1 -> trace step s1 tr s2 -> trace step s (a :: tr) s2.
Proof. intros Hstep Hrun. apply (trace_app step s [a] s1); [by apply trace_one|done]. Qed.

Lemma trace_split {St Act} (step : St -> Act -> St -> Prop) s tr1 tr2 s2 :
  trace step s (tr1 ++ tr2) s2 ->
  exists s1, trace step s tr1 s1 /\ trace step s1 tr2 s2.
Proof.
  revert s2. induction tr2 as [|a tr2 IH] using rev_ind; intros s2.
  - rewrite app_nil_r. intros H. exists s2. split; [done|constructor].
  - rewrite app_assoc. intros H. inversion H as [|? tr s' a' ? Htr Hstep]; subst.
    + match goal with E : [] = _ |- _ => symmetry in E; by apply app_nil in E as [_ ?] end.
    + match goal with E : _ ++ [_] = _ ++ [_] |- _ => apply app_inj_tail in E as [-> ->] end.
      destruct (IH _ Htr) as (s1 & H1 & H2). exists s1. split; [done|].
      by eapply trace_snoc.
Qed.

Lemma trace_last {St Act} (step : St -> Act -> St -> Prop) s tr a s2 :
  trace step s (tr ++ [a]) s2 -> exists s1, trace step s tr s1 /\ step s1 a s2.
Proof.
  intros H. inversion H as [|? tr' s1 a' ? Htr Hstep]; subst.
  - match goal with E : [] = _ |- _ => symmetry in E; by apply app_nil in E as [_ ?] end.
  - match goal with E : _ ++ [_] = _ ++ [_] |- _ => apply app_inj_tail in E as [-> ->] end.
    by exists s1.
Qed.

Lemma run_reachable n w tr p : run (NewDownloader n w) tr p -> reachable n w p.
Proof.
  unfold run. remember (NewDownloader n w) as p0 eqn:E0.
  induction 1 as [|p0 tr p a p' _ IH Hstep]; subst.
  - constructor.
  - eapply reach_step; [by apply IH|done].
Qed.

Lemma after_queue t w : queue (after t w) = queue w.
Proof. by destruct (after_protocol t w) as (s & _ & _ & _ & _ & _ & _ & Q & _). Qed.

(** X7. The queue is first in, first out, and holds at most 1000 tasks: in
    every run of a pool made by [NewDownloader], the tasks the workers have
    taken, in the order they took them, followed by the tasks still in the
    queue, are the tasks that were submitted, in the order of submission.  So
    no task is lost, none is taken twice, and none overtakes another on its
    way to a worker. *)
Theorem tasks_start_in_submission_order n w tr p :
  run (NewDownloader n w) tr p ->
  started tr ++ queue (pworld p) = submitted tr /\
  length (queue (pworld p)) <= 1000.
Proof.
  unfold run. remember (NewDownloader n w) as p0 eqn:E0.
  induction 1 as [|p0 tr p a p' _ IH Hstep]; subst.
  - simpl. split; [done|lia].
  - destruct (IH eq_refl) as [Hq Hlen]. unfold started, submitted in *.
    rewrite !omap_app.
    destruct Hstep as [p Hs|p i k wk Hs Hi Hk Hat|p i Hs Hi|p i k wk Hs Hi Hk Hat|p i Hs Hi
                      |p k wk Hk Hat|p k wk Hk Hat|p k wk task q Hk Hat Hq'|p k wk task Hk Hat
                      |p task Hq'];
      simpl in *; rewrite ?app_nil_r; try done.
    + rewrite Hq' in Hq, Hlen. simpl in Hlen. rewrite <- app_assoc. simpl. split; [done|lia].
    + by rewrite after_queue.
    + rewrite length_app. simpl. rewrite app_assoc, Hq. split; [done|lia].
Qed.

Lemma sum_list_slack {A} (f g : A -> nat) (l : list A) :
  Forall (fun x => g x <= f x <= g x + 1) l ->
  sum_list (g <$> l) <= sum_list (f <$> l) <= sum_list (g <$> l) + length l.
Proof.
  induction 1 as [|x l Hx _ IH]; [simpl; lia|].
  rewrite !fmap_cons, !sum_list_cons. simpl length. lia.
Qed.

Lemma worker_ok_in_hand wk :
  worker_ok wk -> length (finished wk) <= length (taken wk) <= length (finished wk) + 1.
Proof.
  unfold worker_ok. destruct (at_ wk); intros (_ & _ & ->); rewrite ?length_app; simpl; lia.
Qed.

Lemma run_counts n w tr p :
  run (NewDownloader n w) tr p ->
  sum_list ((fun wk => length (taken wk)) <$> workers p) = length (started tr) /\
  sum_list ((fun wk => length (finished wk)) <$> workers p) = length (completed tr).
Proof.
  unfold run. remember (NewDownloader n w) as p0 eqn:E0.
  induction 1 as [|p0 tr p a p' _ IH Hstep]; subst.
  - simpl. split; by apply sum_list_zeros.
  - destruct (IH eq_refl) as [Ht Hf]. unfold started, completed in *.
    rewrite !omap_app, !length_app.
    destruct Hstep as [p Hs|p i k wk Hs Hi Hk Hat|p i Hs Hi|p i k wk Hs Hi Hk Hat|p i Hs Hi
                      |p k wk Hk Hat|p k wk Hk Hat|p k wk task q Hk Hat Hq'|p k wk task Hk Hat
                      |p task Hq'];
      simpl; rewrite ?Nat.add_0_r; try done;
      match goal with |- context [<[k := ?wk']> _] =>
        pose proof (sum_list_insert (fun wk => length (taken wk)) _ _ _ wk' Hk) as H1;
        pose proof (sum_list_insert (fun wk => length (finished wk)) _ _ _ wk' Hk) as H2
      end; simpl in H1, H2; try rewrite length_app in H1; try rewrite length_app in H2;
      simpl in H1, H2; lia.
Qed.

(** X8. At most [threads] tasks are in hand at a time: in every run the
    tasks taken are at least the tasks completed, and at most [threads]
    more. *)
Theorem at_most_threads_in_hand n w tr p :
  run (NewDownloader n w) tr p ->
  length (completed tr) <= length (started tr) <= length (completed tr) + Z.to_nat n.
Proof.
  intros Hrun. destruct (run_counts _ _ _ _ Hrun) as [<- <-].
  destruct (reachable_inv _ _ _ (run_reachable _ _ _ _ Hrun)) as (_ & <- & Hok & _).
  apply sum_list_slack. eapply Forall_impl; [exact Hok|]. apply worker_ok_in_hand.
Qed.

(** X9. Across the pool, each completed task has put one value on its result
    channel and nothing else has: in every run, what waits on a channel is
    what waited there when the pool was made, followed by as many values as
    tasks with that result channel were completed. *)
Theorem one_result_per_completed_task n w tr p c :
  run (NewDownloader n w) tr p ->
  exists vs,
    pending (pworld p) c = pending w c ++ vs /\
    length vs = length (filter (fun task => result task = c) (completed tr)).
Proof.
  unfold run. remember (NewDownloader n w) as p0 eqn:E0.
  induction 1 as [|p0 tr p a p' _ IH Hstep]; subst.
  - exists []. by rewrite app_nil_r.
  - destruct (IH eq_refl) as (vs & Hp & Hlen). unfold completed in *.
    rewrite omap_app, filter_app, length_app.
    destruct Hstep as [p Hs|p i k wk Hs Hi Hk Hat|p i Hs Hi|p i k wk Hs Hi Hk Hat|p i Hs Hi
                      |p k wk Hk Hat|p k wk Hk Hat|p k wk task q Hk Hat Hq'|p k wk task Hk Hat
                      |p task Hq'];
      simpl; rewrite ?Nat.add_0_r; try (by exists vs).
    destruct (after_protocol task (pworld p)) as (s & _ & _ & _ & _ & C & _).
    rewrite (pending_after _ _ _ _ C), filter_cons, filter_nil.
    case_bool_decide as Hc.
    + rewrite decide_True by done. exists (vs ++ [s_value s]).
      rewrite Hp, <- app_assoc, length_app. simpl. split; [done|lia].
    + rewrite decide_False by done. exists vs. simpl. split; [done|lia].
Qed.

(** X10. With [threads] zero or negative [NewDownloader] starts no worker:
    no task is ever taken, the queue holds all that was submitted, the file
    system, the channels and the calls made stay as they were, and
    [Shutdown], whose loops have nothing to do, returns at once. *)
Theorem no_threads_no_downloads n w tr p :
  (n <= 0)%Z -> run (NewDownloader n w) tr p ->
  workers p = [] /\ started tr = [] /\ queue (pworld p) = submitted tr /\
  fs (pworld p) = fs w /\ chans (pworld p) = chans w /\ events (pworld p) = events w /\
  (shutdown p = NotCalled ->
   run p [CallShutdown; EndSends; ReturnShutdown] (set_shutdown Returned p)).
Proof.
  intros Hn Hrun.
  assert (Hinv : workers p = [] /\ threads p = n /\ started tr = [] /\
                 queue (pworld p) = submitted tr /\
                 fs (pworld p) = fs w /\ chans (pworld p) = chans w /\
                 events (pworld p) = events w).
  { unfold run in Hrun. remember (NewDownloader n w) as p0 eqn:E0.
    induction Hrun as [|p0 tr p a p' _ IH Hstep]; subst.
    - simpl. split_and!; try done. by replace (Z.to_nat n) with 0 by lia.
    - destruct (IH eq_refl) as (Hws & Hth & Hst & Hq & Hfs & Hch & Hev).
      unfold started, submitted in *. rewrite !omap_app.
      destruct Hstep as [p Hs|p i k wk Hs Hi Hk Hat|p i Hs Hi|p i k wk Hs Hi Hk Hat|p i Hs Hi
                        |p k wk Hk Hat|p k wk Hk Hat|p k wk task q Hk Hat Hq'|p k wk task Hk Hat
                        |p task Hq'];
        try (rewrite Hws in Hk; discriminate Hk);
        simpl; rewrite ?app_nil_r; try done.
      rewrite Hst, Hq. by split_and!. }
  destruct Hinv as (Hws & Hth & Hst & Hq & Hfs & Hch & Hev). split_and!; try done.
  intros Hs.
  apply (trace_app step p [CallShutdown] (set_shutdown (Sending 0) p) [EndSends; ReturnShutdown]);
    [by apply trace_one, step_call|].
  apply (trace_app step _ [EndSends] (set_shutdown (Receiving 0) p) [ReturnShutdown]);
    apply trace_one.
  - apply (step_end_sends (set_shutdown (Sending 0) p) 0); [done|simpl; lia].
  - apply (step_return (set_shutdown (Receiving 0) p) 0); [done|simpl; lia].
Qed.

(** ** Shutdown can complete *)

Lemma started_cons a tr :
  started (a :: tr) = match a with TakeTask _ task => task :: started tr | _ => started tr end.
Proof. by destruct a. Qed.

Lemma submitted_cons a tr :
  submitted (a :: tr)
    = match a with Submit task => task :: submitted tr | _ => submitted tr end.
Proof. by destruct a. Qed.

(** The workers that are handling a task finish it. *)
Lemma finish_all todo : forall done p,
  workers p = done ++ todo ->
  Forall (fun wk => at_ wk = Selecting) done ->
  Forall (fun wk => at_ wk = Selecting \/ exists task, at_ wk = Handling task) todo ->
  exists tr p',
    run p tr p' /\ shutdown p' = shutdown p /\ threads p' = threads p /\
    queue (pworld p') = queue (pworld p) /\
    Forall (fun a => exists k task, a = FinishTask k task) tr /\
    length (workers p') = length (workers p) /\
    Forall (fun wk => at_ wk = Selecting) (workers p').
Proof.
  induction todo as [|wk todo IH]; intros done p Hws Hdone Htodo.
  - exists [], p. rewrite app_nil_r in Hws. rewrite Hws. split_and!; try done. constructor.
  - apply Forall_cons in Htodo as [[Hat|[task Hat]] Htodo].
    + apply (IH (done ++ [wk]) p); [by rewrite <- app_assoc| |done].
      apply Forall_app. split; [done|]. by constructor.
    + set (wk' := Worker Selecting (stops wk) (acks wk) (taken wk) (finished wk ++ [task])).
      assert (Hk : workers p !! length done = Some wk)
        by (rewrite Hws; apply list_lookup_middle; done).
      pose proof (step_finish p _ wk task Hk Hat) as Hstep. fold wk' in Hstep.
      set (p1 := set_pworld _ _) in Hstep.
      destruct (IH (done ++ [wk']) p1) as (tr & p' & Hrun & Hs & Hth & Hq & Hacts & Hlen & Hall).
      { simpl. rewrite Hws, <- app_assoc. simpl.
        rewrite insert_app_r_alt by lia. by rewrite Nat.sub_diag. }
      { apply Forall_app. split; [done|]. by constructor. }
      { done. }
      exists (FinishTask (length done) task :: tr), p'. split_and!; try done.
      * apply (trace_app step p [_] p1); [by apply trace_one|done].
      * rewrite Hq. simpl. apply after_queue.
      * constructor; [by eexists _, _|done].
      * rewrite Hlen. simpl. by rewrite length_insert.
Qed.

Lemma only_finishes tr :
  Forall (fun a => exists k task, a = FinishTask k task) tr ->
  started tr = [] /\ submitted tr = [].
Proof.
  induction 1 as [|a tr (k & task & ->) _ (IH1 & IH2)]; [done|].
  by rewrite started_cons, submitted_cons.
Qed.

(** [Shutdown] hands a stop token to each worker at its select. *)
Lemma stop_all todo : forall done p,
  workers p = done ++ todo ->
  Forall (fun wk => at_ wk = Stopping) done ->
  Forall (fun wk => at_ wk = Selecting) todo ->
  shutdown p = Sending (Z.of_nat (length done)) ->
  length (done ++ todo) = Z.to_nat (threads p) ->
  exists tr p',
    run p tr p' /\ shutdown p' = Sending (Z.of_nat (length (done ++ todo))) /\
    threads p' = threads p /\ pworld p' = pworld p /\
    started tr = [] /\ submitted tr = [] /\
    length (workers p') = length (workers p) /\
    Forall (fun wk => at_ wk = Stopping) (workers p').
Proof.
  induction todo as [|wk todo IH]; intros done p Hws Hdone Htodo Hs Hlen.
  - exists [], p. rewrite app_nil_r in *. rewrite Hws. split_and!; try done. constructor.
  - apply Forall_cons in Htodo as [Hat Htodo].
    set (wk' := Worker Stopping (S (stops wk)) (acks wk) (taken wk) (finished wk)).
    assert (Hk : workers p !! length done = Some wk)
      by (rewrite Hws; apply list_lookup_middle; done).
    assert (Hi : (Z.of_nat (length done) < threads p)%Z).
    { rewrite length_app in Hlen. simpl in Hlen. lia. }
    pose proof (step_stop p _ _ wk Hs Hi Hk Hat) as Hstep. fold wk' in Hstep.
    set (p1 := set_shutdown _ _) in Hstep.
    destruct (IH (done ++ [wk']) p1)
      as (tr & p' & Hrun & Hs' & Hth & Hw & Hst & Hsub & Hlen' & Hall).
    { simpl. rewrite Hws, <- app_assoc. simpl.
      rewrite insert_app_r_alt by lia. by rewrite Nat.sub_diag. }
    { apply Forall_app. split; [done|]. by constructor. }
    { done. }
    { simpl. f_equal. rewrite length_app. simpl. lia. }
    { simpl. rewrite <- Hlen, !length_app. simpl. lia. }
    exists (SendStop (length done) :: tr), p'. split_and!; try done.
    + apply (trace_app step p [_] p1); [by apply trace_one|done].
    + rewrite Hs'. f_equal. rewrite !length_app. simpl. lia.
    + rewrite Hlen'. simpl. by rewrite length_insert.
Qed.

(** [Shutdown] receives the acknowledgment of each worker. *)
Lemma ack_all todo : forall done p,
  workers p = done ++ todo ->
  Forall (fun wk => at_ wk = Exited) done ->
  Forall (fun wk => at_ wk = Stopping) todo ->
  shutdown p = Receiving (Z.of_nat (length done)) ->
  length (done ++ todo) = Z.to_nat (threads p) ->
  exists tr p',
    run p tr p' /\ shutdown p' = Receiving (Z.of_nat (length (done ++ todo))) /\
    threads p' = threads p /\ pworld p' = pworld p /\
    started tr = [] /\ submitted tr = [].
Proof.
  induction todo as [|wk todo IH]; intros done p Hws Hdone Htodo Hs Hlen.
  - exists [], p. rewrite app_nil_r in *. split_and!; try done. constructor.
  - apply Forall_cons in Htodo as [Hat Htodo].
    set (wk' := Worker Exited (stops wk) (S (acks wk)) (taken wk) (finished wk)).
    assert (Hk : workers p !! length done = Some wk)
      by (rewrite Hws; apply list_lookup_middle; done).
    assert (Hi : (Z.of_nat (length done) < threads p)%Z).
    { rewrite length_app in Hlen. simpl in Hlen. lia. }
    pose proof (step_stopped p _ _ wk Hs Hi Hk Hat) as Hstep. fold wk' in Hstep.
    set (p1 := set_shutdown _ _) in Hstep.
    destruct (IH (done ++ [wk']) p1) as (tr & p' & Hrun & Hs' & Hth & Hw & Hst & Hsub).
    { simpl. rewrite Hws, <- app_assoc. simpl.
      rewrite insert_app_r_alt by lia. by rewrite Nat.sub_diag. }
    { apply Forall_app. split; [done|]. by constructor. }
    { done. }
    { simpl. f_equal. rewrite length_app. simpl. lia. }
    { simpl. rewrite <- Hlen, !length_app. simpl. lia. }
    exists (RecvStopped (length done) :: tr), p'. split_and!; try done.
    + apply (trace_app step p [_] p1); [by apply trace_one|done].
    + rewrite Hs'. f_equal. rewrite !length_app. simpl. lia.
Qed.

Lemma no_tokens ws wk : tokens ws = 0 -> wk ∈ ws -> stops wk = 0.
Proof.
  unfold tokens. induction ws as [|wk' ws IH]; [by intros _ ?%elem_of_nil|].
  rewrite fmap_cons, sum_list_cons. intros Hsum [->|Hin]%elem_of_cons; [lia|].
  apply IH; [lia|done].
Qed.

(** X11. [Shutdown] can complete, and needs no task to be taken for it: from
    every state a pool can reach in which [Shutdown] was not called and no
    worker is paused, there is a run in which [Shutdown] returns, no task is
    taken from the queue or put in it, and the queue is at the end as it was:
    the workers finish what they have in hand, take their stop tokens and
    acknowledge them. *)
Theorem Shutdown_can_complete n w tr p :
  run (NewDownloader n w) tr p ->
  shutdown p = NotCalled ->
  Forall (fun wk => at_ wk ≠ Paused) (workers p) ->
  exists tr' p',
    run p tr' p' /\ shutdown p' = Returned /\
    started tr' = [] /\ submitted tr' = [] /\
    queue (pworld p') = queue (pworld p).
Proof.
  intros Hrun Hs Hawake.
  destruct (reachable_inv _ _ _ (run_reachable _ _ _ _ Hrun)) as (Hth & Hlen & Hok & Hsd).
  unfold shutdown_ok in Hsd. rewrite Hs in Hsd. destruct Hsd as [Htok _].
  assert (Hbusy : Forall (fun wk => at_ wk = Selecting \/ exists task, at_ wk = Handling task)
                         (workers p)).
  { apply Forall_forall. intros wk Hin.
    pose proof (proj1 (Forall_forall _ _) Hok wk Hin) as Hwk.
    pose proof (proj1 (Forall_forall _ _) Hawake wk Hin) as Hnp.
    pose proof (no_tokens _ _ Htok Hin) as Hz.
    unfold worker_ok in Hwk. simpl in Hnp.
    destruct (at_ wk); [by left|by right; eexists|congruence|destruct Hwk; lia..]. }
  destruct (finish_all (workers p) [] p eq_refl (Forall_nil_2 _) Hbusy)
    as (tr1 & p1 & Hrun1 & Hs1 & Hth1 & Hq1 & Hacts1 & Hlen1 & Hall1).
  destruct (only_finishes _ Hacts1) as (Hst1 & Hsub1).
  assert (Hcall : step p1 CallShutdown (set_shutdown (Sending 0) p1))
    by (apply step_call; congruence).
  destruct (stop_all (workers p1) [] (set_shutdown (Sending 0) p1) eq_refl (Forall_nil_2 _) Hall1
              eq_refl)
    as (tr2 & p2 & Hrun2 & Hs2 & Hth2 & Hw2 & Hst2 & Hsub2 & Hlen2 & Hall2).
  { simpl. congruence. }
  simpl in Hs2, Hth2, Hw2, Hlen2.
  assert (Hend : step p2 EndSends (set_shutdown (Receiving 0) p2)).
  { eapply step_end_sends; [exact Hs2|]. lia. }
  destruct (ack_all (workers p2) [] (set_shutdown (Receiving 0) p2) eq_refl (Forall_nil_2 _) Hall2
              eq_refl)
    as (tr3 & p3 & Hrun3 & Hs3 & Hth3 & Hw3 & Hst3 & Hsub3).
  { simpl. congruence. }
  simpl in Hs3, Hth3, Hw3.
  assert (Hret : step p3 ReturnShutdown (set_shutdown Returned p3)).
  { eapply step_return; [exact Hs3|]. lia. }
  exists (tr1 ++ [CallShutdown] ++ tr2 ++ [EndSends] ++ tr3 ++ [ReturnShutdown]),
         (set_shutdown Returned p3).
  split_and!.
  - apply (trace_app step p tr1 p1); [done|].
    apply (trace_app step p1 [_] (set_shutdown (Sending 0) p1)); [by apply trace_one|].
    apply (trace_app step _ tr2 p2); [done|].
    apply (trace_app step p2 [_] (set_shutdown (Receiving 0) p2)); [by apply trace_one|].
    apply (trace_app step _ tr3 p3); [done|]. by apply trace_one.
  - done.
  - unfold started in *. rewrite !omap_app, Hst1, Hst2, Hst3. done.
  - unfold submitted in *. rewrite !omap_app, Hsub1, Hsub2, Hsub3. done.
  - simpl. rewrite Hw3. simpl. rewrite Hw2. simpl. done.
Qed.

(** ** Pause and Resume *)

Lemma paused_insert ws k wk wk' :
  ws !! k = Some wk ->
  paused (<[k := wk']> ws) + match at_ wk with Paused => 1 | _ => 0 end
    = paused ws + match at_ wk' with Paused => 1 | _ => 0 end.
Proof. apply (sum_list_insert (fun wk => match at_ wk with Paused => 1 | _ => 0 end)). Qed.

Lemma paused_le ws : paused ws <= length ws.
Proof.
  unfold paused. induction ws as [|wk ws IH]; [done|].
  rewrite fmap_cons, sum_list_cons. simpl length. destruct (at_ wk); lia.
Qed.

Lemma paused_all ws : paused ws = length ws -> Forall (fun wk => at_ wk = Paused) ws.
Proof.
  unfold paused. induction ws as [|wk ws IH]; [constructor|].
  rewrite fmap_cons, sum_list_cons. simpl length. pose proof (paused_le ws) as Hle.
  unfold paused in Hle. intros Hs.
  constructor; [destruct (at_ wk); try done; lia|]. apply IH. destruct (at_ wk); lia.
Qed.

Lemma paused_none ws : paused ws = 0 -> Forall (fun wk => at_ wk ≠ Paused) ws.
Proof.
  unfold paused. induction ws as [|wk ws IH]; [constructor|].
  rewrite fmap_cons, sum_list_cons. intros Hs.
  constructor; [destruct (at_ wk); try done; lia|]. apply IH. lia.
Qed.

Lemma all_paused ws : Forall (fun wk => at_ wk = Paused) ws -> paused ws = length ws.
Proof.
  unfold paused. induction 1 as [|wk ws Hwk _ IH]; [done|].
  rewrite fmap_cons, sum_list_cons, Hwk, IH. done.
Qed.

Lemma none_paused ws : Forall (fun wk => at_ wk ≠ Paused) ws -> paused ws = 0.
Proof.
  unfold paused. induction 1 as [|wk ws Hwk _ IH]; [done|].
  rewrite fmap_cons, sum_list_cons, IH. destruct (at_ wk); done.
Qed.

(** A step of the pool that is not a pause or its end leaves the paused
    workers paused and pauses nobody. *)
Lemma step_paused p a p' :
  step p a p' -> of_control a = false ->
  paused (workers p') = paused (workers p) /\ length (workers p') = length (workers p).
Proof.
  destruct 1 as [p Hs|p i k wk Hs Hi Hk Hat|p i Hs Hi|p i k wk Hs Hi Hk Hat|p i Hs Hi
                |p k wk Hk Hat|p k wk Hk Hat|p k wk task q Hk Hat Hq|p k wk task Hk Hat
                |p task Hq]; intros Hc; try discriminate Hc; simpl;
    rewrite ?length_insert; try done;
    match goal with |- context [<[k := ?wk']> _] =>
      pose proof (paused_insert _ _ _ wk' Hk) as Hp end;
    rewrite Hat in Hp; simpl in Hp; (split; [lia|done]).
Qed.

Lemma cstep_inv n s a s' :
  pool_inv n (the_pool s) -> control_ok s -> cstep s a s' ->
  pool_inv n (the_pool s') /\ control_ok s'.
Proof.
  intros Hinv Hok Hstep. pose proof Hinv as (Hth & Hlen & _ & _).
  destruct Hstep as [p|p i k p' Hi Hstep|p i Hi|p|p i k p' Hi Hstep|p i Hi|p c a p' Hc Hstep];
    unfold control_ok in *; simpl in *;
    try (pose proof (step_inv _ _ _ _ Hinv Hstep) as Hinv');
    pose proof (paused_le (workers p)) as Hle.
  - split; [done|]. destruct Hok as [-> | ->]; auto.
  - split; [done|]. pose proof (paused_le (workers p')) as Hle'.
    inversion Hstep as [| | | | |? ? wk Hk Hat| | | |]; subst. simpl in *.
    rewrite length_insert in *.
    pose proof (paused_insert _ _ _ (Worker Paused (stops wk) (acks wk) (taken wk) (finished wk)) Hk)
      as Hp.
    rewrite Hat in Hp. simpl in Hp. lia.
  - split; [done|]. lia.
  - split; [done|]. destruct Hok as [-> | ->]; [by right|left; lia].
  - split; [done|]. pose proof (paused_le (workers p')) as Hle'.
    inversion Hstep as [| | | | | |? ? wk Hk Hat| | |]; subst. simpl in *.
    rewrite length_insert in *.
    pose proof (paused_insert _ _ _ (Worker Selecting (stops wk) (acks wk) (taken wk) (finished wk)) Hk)
      as Hp.
    rewrite Hat in Hp. simpl in Hp. lia.
  - split; [done|]. lia.
  - split; [done|]. destruct (step_paused _ _ _ Hstep Hc) as [-> ->]. done.
Qed.

Lemma crun_inv n w tr s :
  crun (System (NewDownloader n w) Idle) tr s ->
  pool_inv n (the_pool s) /\ control_ok s.
Proof.
  unfold crun. remember (System (NewDownloader n w) Idle) as s0 eqn:E0.
  induction 1 as [|s0 tr s a s' _ IH Hstep]; subst.
  - split; [apply NewDownloader_inv|]. unfold control_ok. simpl. left.
    apply none_paused, Forall_replicate. done.
  - destruct (IH eq_refl) as [Hinv Hok]. by eapply cstep_inv.
Qed.

Lemma crun_inv_from n s tr s' :
  pool_inv n (the_pool s) -> control_ok s -> crun s tr s' ->
  pool_inv n (the_pool s') /\ control_ok s'.
Proof.
  intros Hinv Hok. induction 1 as [|s tr s' a s'' _ IH Hstep]; [done|].
  destruct (IH Hinv Hok) as [Hinv' Hok']. by eapply cstep_inv.
Qed.

Lemma trace_nil_inv {St Act} (step : St -> Act -> St -> Prop) s s' :
  trace step s [] s' -> s' = s.
Proof.
  inversion 1; [done|].
  match goal with E : _ ++ [_] = [] |- _ => by apply app_nil in E as [_ ?] end.
Qed.

Lemma trace_first {St Act} (step : St -> Act -> St -> Prop) s a tr s2 :
  trace step s (a :: tr) s2 -> exists s1, step s a s1 /\ trace step s1 tr s2.
Proof.
  intros H. apply (trace_split step s [a] tr) in H as (s1 & H1 & H2).
  apply (trace_last step s []) in H1 as (s0 & H0 & Hstep).
  apply trace_nil_inv in H0 as ->. by exists s1.
Qed.

Lemma paused_no_tokens ws :
  Forall worker_ok ws -> Forall (fun wk => at_ wk = Paused) ws -> tokens ws = 0.
Proof.
  unfold tokens. induction 1 as [|wk ws Hwk _ IH]; [done|].
  intros [Hat Hall]%Forall_cons. rewrite fmap_cons, sum_list_cons, IH by done.
  unfold worker_ok in Hwk. rewrite Hat in Hwk. lia.
Qed.

Lemma lookup_at ws k wk (st : wstate) :
  Forall (fun wk => at_ wk = st) ws -> ws !! k = Some wk -> at_ wk = st.
Proof.
  intros Hall Hk. by apply (proj1 (Forall_forall _ _) Hall wk), list_elem_of_lookup_2 with k.
Qed.

(** While every worker is paused and [Resume] is not called, nothing happens
    but calls that wait and tasks put in the queue. *)
Lemma paused_quiet n s tr s' :
  (0 < n)%Z ->
  pool_inv n (the_pool s) ->
  Forall (fun wk => at_ wk = Paused) (workers (the_pool s)) ->
  control s = Idle \/ control s = Pausing 0 ->
  crun s tr s' -> CallResume ∉ tr ->
  workers (the_pool s') = workers (the_pool s) /\
  pool_inv n (the_pool s') /\
  (control s' = Idle \/ control s' = Pausing 0) /\
  Forall (fun a => a = CallPause \/ a = OfPool CallShutdown \/
                   exists task, a = OfPool (Submit task)) tr.
Proof.
  intros Hn Hinv Hall Hc Hrun.
  induction Hrun as [|s tr s' a s'' _ IH Hstep]; [intros _; by split_and!|].
  intros Hno. destruct IH as (Hws & Hinv' & Hc' & Hacts); [done|done|done| |].
  { intros Hin. apply Hno, elem_of_app. by left. }
  assert (Ha : a ≠ CallResume).
  { intros ->. apply Hno, elem_of_app. right. apply list_elem_of_here. }
  rewrite <- Hws in Hall |- *. clear Hws Hno Hinv Hc.
  pose proof Hinv' as (Hth & Hlen & Hok & Hsd).
  pose proof (paused_no_tokens _ Hok Hall) as Htok.
  destruct Hstep as [p|p i k p' Hi Hstep|p i Hi|p|p i k p' Hi Hstep|p i Hi|p c a p' Hca Hstep];
    simpl in *; try done.
  - split_and!; try done; [by right|]. apply Forall_app. split; [done|]. constructor; auto.
  - exfalso. inversion Hstep as [| | | | |? ? wk Hk Hat| | | |]; subst.
    pose proof (lookup_at _ _ _ _ Hall Hk). congruence.
  - exfalso. destruct Hc' as [?|[= ->]]; [done|]. lia.
  - exfalso. by destruct Hc'.
  - exfalso. by destruct Hc'.
  - unfold shutdown_ok in Hsd.
    destruct Hstep as [p Hs|p i k wk Hs Hi Hk Hat|p i Hs Hi|p i k wk Hs Hi Hk Hat|p i Hs Hi
                      |p k wk Hk Hat|p k wk Hk Hat|p k wk task q Hk Hat Hq|p k wk task Hk Hat
                      |p task Hq];
      try discriminate Hca;
      try (exfalso; pose proof (lookup_at _ _ _ _ Hall Hk); congruence);
      try (exfalso; rewrite Hs in Hsd; lia).
    + split_and!; try done;
        first [by eapply (step_inv _ p CallShutdown), step_call
              |apply Forall_app; split; [done|]; constructor; auto].
    + split_and!; try done.
      apply Forall_app. split; [done|]. constructor; eauto.
Qed.

(** X12. When the calls of [Pause] and [Resume] are made one after the other
    and [Pause] has returned, every one of the [threads] workers waits at
    [<-downloader.unpause], having completed each task it took; and as long
    as [Resume] is not called nothing happens but tasks being put in the
    queue and calls that wait: no task is taken or completed, no worker
    receives a stop token, so a [Shutdown] called then does not return, and
    neither does a second [Pause]. *)
Theorem Pause_stops_every_worker n w tr tr' s :
  (0 < n)%Z ->
  crun (System (NewDownloader n w) Idle) (tr ++ [ReturnPause] ++ tr') s ->
  CallResume ∉ tr' ->
  Forall (fun wk => at_ wk = Paused /\ finished wk = taken wk) (workers (the_pool s)) /\
  length (workers (the_pool s)) = Z.to_nat n /\
  Forall (fun a => a = CallPause \/ a = OfPool CallShutdown \/
                   exists task, a = OfPool (Submit task)) tr'.
Proof.
  intros Hn Hrun Hno. rewrite app_assoc in Hrun.
  apply trace_split in Hrun as (s1 & Hrun1 & Hrun2).
  apply trace_last in Hrun1 as (s0 & Hrun0 & Hstep).
  destruct (crun_inv _ _ _ _ Hrun0) as [Hinv Hok].
  inversion Hstep as [| |p i Hi| | | |]; subst. simpl in *.
  pose proof Hinv as (Hth & Hlen & _ & _).
  assert (Hall : Forall (fun wk => at_ wk = Paused) (workers p)).
  { apply paused_all. unfold control_ok in Hok. simpl in Hok.
    pose proof (paused_le (workers p)). lia. }
  destruct (paused_quiet n (System p Idle) tr' s Hn Hinv Hall (or_introl eq_refl) Hrun2 Hno)
    as (Hws & (_ & Hlen' & _ & _) & _ & Hacts).
  simpl in Hws. rewrite Hws. split_and!; try done.
  destruct Hinv as (_ & _ & Hok' & _).
  apply Forall_forall. intros wk Hin.
  pose proof (proj1 (Forall_forall _ _) Hall wk Hin) as Hat. simpl in Hat.
  pose proof (proj1 (Forall_forall _ _) Hok' wk Hin) as Hwk.
  unfold worker_ok in Hwk. rewrite Hat in Hwk. by destruct Hwk as (_ & _ & ?).
Qed.

(** X13. When the calls of [Pause] and [Resume] are made one after the other
    and [Resume] has returned, no worker is paused any more. *)
Theorem Resume_wakes_every_worker n w tr s :
  crun (System (NewDownloader n w) Idle) (tr ++ [ReturnResume]) s ->
  control s = Idle /\
  Forall (fun wk => at_ wk ≠ Paused) (workers (the_pool s)).
Proof.
  intros Hrun. apply trace_last in Hrun as (s1 & Hrun1 & Hstep).
  destruct (crun_inv _ _ _ _ Hrun1) as [(Hth & Hlen & _ & _) Hok].
  inversion Hstep as [| | | | |p i Hi|]; subst. split; [done|].
  apply paused_none. unfold control_ok in Hok. simpl in *.
  pose proof (paused_le (workers p)). lia.
Qed.

(** A call of [Resume] that finds nobody paused waits for ever. *)
Lemma resume_stuck n s tr s' :
  (0 < n)%Z ->
  pool_inv n (the_pool s) ->
  Forall (fun wk => at_ wk ≠ Paused) (workers (the_pool s)) ->
  control s = Resuming 0 ->
  crun s tr s' ->
  pool_inv n (the_pool s') /\
  Forall (fun wk => at_ wk ≠ Paused) (workers (the_pool s')) /\
  control s' = Resuming 0 /\
  Forall (fun a => exists b, a = OfPool b /\ of_control b = false) tr.
Proof.
  intros Hn Hinv Hnone Hc Hrun.
  induction Hrun as [|s tr s' a s'' _ IH Hstep]; [by split_and!|].
  destruct IH as (Hinv' & Hnone' & Hc' & Hacts); [done|done|done|].
  clear Hinv Hnone Hc. pose proof Hinv' as (Hth & Hlen & Hok & Hsd).
  destruct Hstep as [p|p i k p' Hi Hstep|p i Hi|p|p i k p' Hi Hstep|p i Hi|p c a p' Hca Hstep];
    simpl in *; try done.
  - exfalso. inversion Hstep as [| | | | | |? ? wk Hk Hat| | |]; subst.
    by apply (proj1 (Forall_forall _ _) Hnone' wk (list_elem_of_lookup_2 _ _ _ Hk)).
  - exfalso. injection Hc' as ->. lia.
  - split_and!; try done.
    + by eapply step_inv.
    + apply paused_none. destruct (step_paused _ _ _ Hstep Hca) as [-> _].
      by apply none_paused.
    + apply Forall_app. split; [done|]. constructor; eauto.
Qed.

(** X14. [Resume] called when no worker is paused - before any [Pause], or
    after an earlier [Resume] - waits for ever at its first send, in a pool
    with at least one worker: the caller stays at that send whatever the
    workers, [Shutdown] and the callers of [Download] do, and no worker gets
    paused. *)
Theorem Resume_without_Pause_blocks n w tr s tr' s' :
  (0 < n)%Z ->
  crun (System (NewDownloader n w) Idle) tr s ->
  Forall (fun wk => at_ wk ≠ Paused) (workers (the_pool s)) ->
  crun s (CallResume :: tr') s' ->
  control s' = Resuming 0 /\
  Forall (fun wk => at_ wk ≠ Paused) (workers (the_pool s')) /\
  Forall (fun a => exists b, a = OfPool b /\ of_control b = false) tr'.
Proof.
  intros Hn Hrun Hnone Hrun'.
  destruct (crun_inv _ _ _ _ Hrun) as [Hinv _].
  apply trace_first in Hrun' as (s1 & Hstep & Hrun').
  inversion Hstep as [| | |p| | |]; subst. simpl in *.
  destruct (resume_stuck n (System p (Resuming 0)) tr' s' Hn Hinv Hnone eq_refl Hrun')
    as (_ & Hnone' & Hc & Hacts).
  by split_and!.
Qed.

Lemma exited_not_paused ws :
  Forall (fun wk => at_ wk = Exited) ws -> paused ws = 0.
Proof.
  intros Hall. apply none_paused. eapply Forall_impl; [exact Hall|]. simpl. congruence.
Qed.

Lemma all_exited n p :
  pool_inv n p -> shutdown p = Returned -> Forall (fun wk => at_ wk = Exited) (workers p).
Proof.
  intros (_ & _ & Hok & Hsd) Hs. unfold shutdown_ok in Hsd. rewrite Hs in Hsd.
  destruct Hsd as [_ Hfull]. eapply Forall_impl; [exact (acked_full _ Hok Hfull)|].
  by intros wk (? & _).
Qed.

(** X15. Once [Shutdown] has returned, in a pool with at least one worker,
    the workers are gone for good: tasks can still be put in the queue, [Pause]
    and [Resume] can be called, but no send of [Pause] or [Resume] is ever
    received, and a call of [Pause] never returns. *)
Theorem calls_after_Shutdown_wait n w tr s tr' s' :
  (0 < n)%Z ->
  crun (System (NewDownloader n w) Idle) tr s ->
  shutdown (the_pool s) = Returned ->
  crun s tr' s' ->
  workers (the_pool s') = workers (the_pool s) /\
  shutdown (the_pool s') = Returned /\
  Forall (fun a => a = CallPause \/ a = CallResume \/ a = ReturnResume \/
                   exists task, a = OfPool (Submit task)) tr'.
Proof.
  intros Hn Hrun Hs Hrun'. destruct (crun_inv _ _ _ _ Hrun) as [Hinv Hok].
  assert (Hgen : workers (the_pool s') = workers (the_pool s) /\
    shutdown (the_pool s') = Returned /\ pool_inv n (the_pool s') /\ control_ok s' /\
    Forall (fun a => a = CallPause \/ a = CallResume \/ a = ReturnResume \/
                     exists task, a = OfPool (Submit task)) tr').
  { clear Hrun. induction Hrun' as [|s tr' s' a s'' _ IH Hstep]; [by split_and!|].
    destruct IH as (Hws & Hs' & Hinv' & Hok' & Hacts); [done..|].
    pose proof (all_exited _ _ Hinv' Hs') as Hex.
    pose proof (exited_not_paused _ Hex) as Hp.
    destruct (cstep_inv _ _ _ _ Hinv' Hok' Hstep) as [Hinv'' Hok''].
    rewrite <- Hws. clear Hws Hinv Hok Hs.
    pose proof Hinv' as (Hth & Hlen & _ & _).
    assert (Hsnoc : forall b, (b = CallPause \/ b = CallResume \/ b = ReturnResume \/
                               exists task, b = OfPool (Submit task)) ->
      Forall (fun a => a = CallPause \/ a = CallResume \/ a = ReturnResume \/
                       exists task, a = OfPool (Submit task)) (tr' ++ [b])).
    { intros b Hb. apply Forall_app. split; [done|]. by constructor. }
    destruct Hstep as [p|p i k p' Hi Hstep|p i Hi|p|p i k p' Hi Hstep|p i Hi|p c a p' Hca Hstep];
      simpl in *.
    - split_and!; auto.
    - exfalso. inversion Hstep as [| | | | |? ? wk Hk Hat| | | |]; subst.
      pose proof (lookup_at _ _ _ _ Hex Hk). congruence.
    - exfalso. unfold control_ok in Hok'. simpl in Hok'. lia.
    - split_and!; auto.
    - exfalso. inversion Hstep as [| | | | | |? ? wk Hk Hat| | |]; subst.
      pose proof (lookup_at _ _ _ _ Hex Hk). congruence.
    - split_and!; auto.
    - destruct Hstep as [p Hs|p i k wk Hs Hi Hk Hat|p i Hs Hi|p i k wk Hs Hi Hk Hat|p i Hs Hi
                        |p k wk Hk Hat|p k wk Hk Hat|p k wk task q Hk Hat Hq|p k wk task Hk Hat
                        |p task Hq];
        try congruence; try (pose proof (lookup_at _ _ _ _ Hex Hk); congruence).
      simpl. split_and!; eauto 6. }
  destruct Hgen as (? & ? & _ & _ & ?). by split_and!.
Qed.

(** ** Pause and Resume can complete *)

(** What the pool does by itself it does whatever the caller of [Pause] and
    [Resume] is at. *)
Lemma crun_of_run c p tr p' :
  run p tr p' -> Forall (fun a => of_control a = false) tr ->
  crun (System p c) (OfPool <$> tr) (System p' c).
Proof.
  induction 1 as [|p tr p' a p'' _ IH Hstep]; [constructor|].
  intros [Htr Ha]%Forall_app. apply Forall_cons in Ha as [Ha _].
  rewrite fmap_app. eapply trace_snoc; [by apply IH|]. by apply cstep_pool.
Qed.

(** [Pause] meets each worker at its select. *)
Lemma pause_all todo : forall done p,
  workers p = done ++ todo ->
  Forall (fun wk => at_ wk = Paused) done ->
  Forall (fun wk => at_ wk = Selecting) todo ->
  length (done ++ todo) = Z.to_nat (threads p) ->
  exists tr p',
    crun (System p (Pausing (Z.of_nat (length done)))) tr
         (System p' (Pausing (Z.of_nat (length (done ++ todo))))) /\
    Forall (fun a => exists k, a = OfPool (RecvPause k)) tr /\
    threads p' = threads p /\ pworld p' = pworld p /\ shutdown p' = shutdown p /\
    Forall (fun wk => at_ wk = Paused) (workers p').
Proof.
  induction todo as [|wk todo IH]; intros done p Hws Hdone Htodo Hlen.
  - exists [], p. rewrite app_nil_r in *. rewrite Hws. split_and!; try done. constructor.
  - apply Forall_cons in Htodo as [Hat Htodo].
    set (wk' := Worker Paused (stops wk) (acks wk) (taken wk) (finished wk)).
    assert (Hk : workers p !! length done = Some wk)
      by (rewrite Hws; apply list_lookup_middle; done).
    assert (Hi : (Z.of_nat (length done) < threads p)%Z).
    { rewrite length_app in Hlen. simpl in Hlen. lia. }
    pose proof (step_pause p _ wk Hk Hat) as Hstep. fold wk' in Hstep.
    set (p1 := set_worker _ _ _) in Hstep.
    destruct (IH (done ++ [wk']) p1) as (tr & p' & Hrun & Hacts & Hth & Hw & Hs & Hall).
    { simpl. rewrite Hws, <- app_assoc. simpl.
      rewrite insert_app_r_alt by lia. by rewrite Nat.sub_diag. }
    { apply Forall_app. split; [done|]. by constructor. }
    { done. }
    { simpl. rewrite <- Hlen, !length_app. simpl. lia. }
    exists (OfPool (RecvPause (length done)) :: tr), p'. split_and!; try done.
    + apply (trace_app cstep _ [_] (System p1 (Pausing (Z.of_nat (length done) + 1)))).
      * apply trace_one. by apply cstep_pause.
      * replace (Z.of_nat (length done) + 1)%Z with (Z.of_nat (length (done ++ [wk'])))
          by (rewrite length_app; simpl; lia).
        replace (length (done ++ wk :: todo)) with (length ((done ++ [wk']) ++ todo))
          by (rewrite !length_app; simpl; lia).
        done.
    + constructor; [by eexists|done].
Qed.

(** [Resume] meets each worker at [<-downloader.unpause]. *)
Lemma unpause_all todo : forall done p,
  workers p = done ++ todo ->
  Forall (fun wk => at_ wk = Selecting) done ->
  Forall (fun wk => at_ wk = Paused) todo ->
  length (done ++ todo) = Z.to_nat (threads p) ->
  exists tr p',
    crun (System p (Resuming (Z.of_nat (length done)))) tr
         (System p' (Resuming (Z.of_nat (length (done ++ todo))))) /\
    Forall (fun a => exists k, a = OfPool (RecvUnpause k)) tr /\ length tr = length todo /\
    threads p' = threads p /\ pworld p' = pworld p /\ shutdown p' = shutdown p /\
    Forall (fun wk => at_ wk = Selecting) (workers p').
Proof.
  induction todo as [|wk todo IH]; intros done p Hws Hdone Htodo Hlen.
  - exists [], p. rewrite app_nil_r in *. rewrite Hws. split_and!; try done. constructor.
  - apply Forall_cons in Htodo as [Hat Htodo].
    set (wk' := Worker Selecting (stops wk) (acks wk) (taken wk) (finished wk)).
    assert (Hk : workers p !! length done = Some wk)
      by (rewrite Hws; apply list_lookup_middle; done).
    assert (Hi : (Z.of_nat (length done) < threads p)%Z).
    { rewrite length_app in Hlen. simpl in Hlen. lia. }
    pose proof (step_unpause p _ wk Hk Hat) as Hstep. fold wk' in Hstep.
    set (p1 := set_worker _ _ _) in Hstep.
    destruct (IH (done ++ [wk']) p1) as (tr & p' & Hrun & Hacts & Hn & Hth & Hw & Hs & Hall).
    { simpl. rewrite Hws, <- app_assoc. simpl.
      rewrite insert_app_r_alt by lia. by rewrite Nat.sub_diag. }
    { apply Forall_app. split; [done|]. by constructor. }
    { done. }
    { simpl. rewrite <- Hlen, !length_app. simpl. lia. }
    exists (OfPool (RecvUnpause (length done)) :: tr), p'. split_and!; try done.
    + apply (trace_app cstep _ [_] (System p1 (Resuming (Z.of_nat (length done) + 1)))).
      * apply trace_one. by apply cstep_unpause.
      * replace (Z.of_nat (length done) + 1)%Z with (Z.of_nat (length (done ++ [wk'])))
          by (rewrite length_app; simpl; lia).
        replace (length (done ++ wk :: todo)) with (length ((done ++ [wk']) ++ todo))
          by (rewrite !length_app; simpl; lia).
        done.
    + constructor; [by eexists|done].
    + simpl. by rewrite Hn.
Qed.

(** X16. [Pause] can complete: from every state the system can reach between
    two calls, with [Shutdown] not called and no worker paused, there is a
    run in which [Pause] is called and returns, in which the workers only
    finish the task they have in hand and receive the pause: every worker is
    then paused and the queue is as it was. *)
Theorem Pause_can_complete n w tr s :
  crun (System (NewDownloader n w) Idle) tr s ->
  control s = Idle ->
  shutdown (the_pool s) = NotCalled ->
  Forall (fun wk => at_ wk ≠ Paused) (workers (the_pool s)) ->
  exists tr' s',
    crun s (CallPause :: tr' ++ [ReturnPause]) s' /\
    Forall (fun a => exists k, (exists task, a = OfPool (FinishTask k task)) \/
                               a = OfPool (RecvPause k)) tr' /\
    control s' = Idle /\
    Forall (fun wk => at_ wk = Paused) (workers (the_pool s')) /\
    queue (pworld (the_pool s')) = queue (pworld (the_pool s)).
Proof.
  intros Hrun Hc Hs Hawake. destruct s as [p c]. simpl in *. subst c.
  destruct (crun_inv _ _ _ _ Hrun) as [(Hth & Hlen & Hok & Hsd) _]. simpl in *.
  unfold shutdown_ok in Hsd. rewrite Hs in Hsd. destruct Hsd as [Htok _].
  assert (Hbusy : Forall (fun wk => at_ wk = Selecting \/ exists task, at_ wk = Handling task)
                         (workers p)).
  { apply Forall_forall. intros wk Hin.
    pose proof (proj1 (Forall_forall _ _) Hok wk Hin) as Hwk.
    pose proof (proj1 (Forall_forall _ _) Hawake wk Hin) as Hnp.
    pose proof (no_tokens _ _ Htok Hin) as Hz.
    unfold worker_ok in Hwk. simpl in Hnp.
    destruct (at_ wk); [by left|by right; eexists|congruence|destruct Hwk; lia..]. }
  destruct (finish_all (workers p) [] p eq_refl (Forall_nil_2 _) Hbusy)
    as (tr1 & p1 & Hrun1 & Hs1 & Hth1 & Hq1 & Hacts1 & Hlen1 & Hall1).
  assert (Hnc1 : Forall (fun a => of_control a = false) tr1).
  { eapply Forall_impl; [exact Hacts1|]. by intros a (k & task & ->). }
  destruct (pause_all (workers p1) [] p1 eq_refl (Forall_nil_2 _) Hall1)
    as (tr2 & p2 & Hrun2 & Hacts2 & Hth2 & Hw2 & Hs2 & Hall2); [simpl; congruence|].
  simpl in Hrun2.
  exists ((OfPool <$> tr1) ++ tr2), (System p2 Idle). split_and!; try done.
  - apply (trace_app cstep _ [CallPause] (System p (Pausing 0))); [apply trace_one; constructor|].
    rewrite <- app_assoc.
    apply (trace_app cstep _ _ (System p1 (Pausing 0))); [by apply crun_of_run|].
    apply (trace_app cstep _ _ (System p2 (Pausing (Z.of_nat (length (workers p1)))))); [done|].
    apply trace_one. constructor. lia.
  - apply Forall_app. split.
    + apply Forall_fmap. eapply Forall_impl; [exact Hacts1|].
      intros a (k & task & ->). exists k. left. by exists task.
    + eapply Forall_impl; [exact Hacts2|]. intros a (k & ->). exists k. by right.
  - simpl. by rewrite Hw2.
Qed.

(** X17. [Resume] called after [Pause] has returned can complete by itself:
    its [threads] sends are received by the paused workers, one each, it
    returns, every worker is back at its select, and the world is as it
    was. *)
Theorem Resume_can_complete n w tr s :
  crun (System (NewDownloader n w) Idle) (tr ++ [ReturnPause]) s ->
  exists tr' s',
    crun s (CallResume :: tr' ++ [ReturnResume]) s' /\
    Forall (fun a => exists k, a = OfPool (RecvUnpause k)) tr' /\
    length tr' = Z.to_nat n /\
    control s' = Idle /\
    Forall (fun wk => at_ wk = Selecting) (workers (the_pool s')) /\
    pworld (the_pool s') = pworld (the_pool s).
Proof.
  intros Hrun. apply trace_last in Hrun as (s0 & Hrun0 & Hstep).
  destruct (crun_inv _ _ _ _ Hrun0) as [Hinv Hok].
  inversion Hstep as [| |p i Hi| | | |]; subst. simpl in *.
  pose proof Hinv as (Hth & Hlen & _ & _).
  assert (Hall : Forall (fun wk => at_ wk = Paused) (workers p)).
  { apply paused_all. unfold control_ok in Hok. simpl in Hok.
    pose proof (paused_le (workers p)). lia. }
  destruct (unpause_all (workers p) [] p eq_refl (Forall_nil_2 _) Hall)
    as (tr2 & p2 & Hrun2 & Hacts2 & Hn2 & Hth2 & Hw2 & Hs2 & Hall2); [simpl; congruence|].
  simpl in Hrun2.
  exists tr2, (System p2 Idle). split_and!; try done.
  - apply (trace_app cstep _ [CallResume] (System p (Resuming 0)));
      [apply trace_one; constructor|].
    apply (trace_app cstep _ _ (System p2 (Resuming (Z.of_nat (length (workers p)))))); [done|].
    apply trace_one. constructor. lia.
  - congruence.
Qed.

(** ** What DownloadTryCompression returns *)

Lemma call_DownloadTemp_result {R'} u w :
  exists w',
    (exists f, call (R':=R') (DownloadTemp u) w = (w', Next (Some f, None))) \/
    (exists e, call (R':=R') (DownloadTemp u) w = (w', Next (None, Some e))).
Proof.
  unfold call. destruct (DownloadTemp u w) as [w' o] eqn:Hrun. exists w'.
  destruct (DownloadTemp_run _ _ _ _ Hrun) as (evs & _ & Hcases & _).
  destruct Hcases as [(e & _ & -> & _)|(d & ch & v & _ & _ & _ & _ & _ & Hv & _)];
    [right; by eexists|].
  destruct v as [e|]; [subst o; right; by eexists|].
  destruct Hv as [(resp & _ & _ & ->)|(e & _ & ->)]; [left|right]; by eexists.
Qed.

Lemma try_methods_result u methods : forall err0 w w' o,
  Forall (fun m => forall r,
            (exists r', transformation m r = (Some r', None)) \/
            (exists e, transformation m r = (None, Some e))) methods ->
  try_methods u methods err0 w = (w', o) ->
  (exists r f, o = Return (Some r, Some f, None)) \/
  (exists err, o = Next err /\ ((methods = [] /\ err = err0) \/ exists e, err = Some e)).
Proof.
  induction methods as [|m methods IH]; intros err0 w w' o Hms.
  - intros [= <- <-]. right. exists err0. split; [done|]. by left.
  - apply Forall_cons in Hms as [Hm Hms]. cbn [try_methods]. unfold bind at 1.
    assert (Hnext : forall e w1, try_methods u methods (Some e) w1 = (w', o) ->
      (exists r f, o = Return (Some r, Some f, None)) \/
      (exists err, o = Next err /\
         ((m :: methods = [] /\ err = err0) \/ exists e, err = Some e))).
    { intros e w1 Hrun. destruct (IH _ _ _ _ Hms Hrun) as [Hok|(err & -> & Herr)]; [by left|].
      right. exists err. split; [done|]. right.
      destruct Herr as [[_ ->]|?]; [by eexists|done]. }
    destruct (call_DownloadTemp_result (R':=option reader * option file * option error)
                (u +:+ extenstion m) w) as (w1 & [(f & ->)|(e & ->)]); cbv beta iota.
    + destruct (Hm (FileReader (Some f))) as [(r' & ->)|(e & ->)]; cbv beta iota.
      * intros [= <- <-]. left. by exists r', f.
      * apply Hnext.
    + apply Hnext.
Qed.

(** X18. What [DownloadTryCompression] returns, when it returns, is either a
    reader, the open file, and no error, or no reader, no file, and an error:
    never a reader with an error, never nothing at all. *)
Theorem DownloadTryCompression_result u w r f e :
  (DownloadTryCompression u w).2 = Return (r, f, e) ->
  (exists r' f', r = Some r' /\ f = Some f' /\ e = None) \/
  (exists e', r = None /\ f = None /\ e = Some e').
Proof.
  unfold DownloadTryCompression, bind.
  destruct (try_methods u compressionMethods None w) as [w' o] eqn:Hrun.
  apply try_methods_result in Hrun as [(r' & f' & ->)|(err & -> & [[[=] _]|(e' & ->)])].
  - intros [= <- <- <-]. left. by exists r', f'.
  - intros [= <- <- <-]. right. by exists e'.
  - unfold compressionMethods.
    repeat first [apply Forall_cons_2 | apply Forall_nil_2]; intros r0; simpl; eauto.
    destruct (gzip_header_error r0); eauto.
Qed.

End Properties.

(** * The theorems at work *)

#[local] Existing Instance Example.unix.

(** Membership in a list that was computed. *)
Ltac in_computed :=
  vm_compute; repeat first [apply list_elem_of_here | apply list_elem_of_further].

(** A right size and a wrong md5: the error names md5. *)
Lemma checks_in_order_witness :
  let t := Example.get_release (mkChecksumInfo 5 "deadbeef" "" "") in
  net Example.world0 (url t) = inr (mkResponse 200 Example.hello) /\
  Size (expected t) ≠ (-1)%Z /\
  ECopy None ∈ new_events Example.world0 (after t Example.world0) /\
  reported t Example.world0 =
    [Some (Errorf "%s: md5 hash mismatch %#v != %#v"
             [ArgStr "http://mirror/Release"; ArgGoStr "md5:hello"; ArgGoStr "deadbeef"])].
Proof.
  intros t.
  assert (Hnet : net Example.world0 (url t) = inr (mkResponse 200 Example.hello))
    by reflexivity.
  assert (Hsize : Size (expected t) ≠ (-1)%Z) by (simpl; lia).
  assert (Hcopy : ECopy None ∈ new_events Example.world0 (after t Example.world0))
    by in_computed.
  split_and!; try assumption.
  destruct (checks_in_order t Example.world0 _ Hnet Hsize Hcopy) as (_ & _ & Hmd5 & _).
  apply Hmd5; [reflexivity|]. split; discriminate.
Defined.



(** Size -1 with an md5 that could not match: same run as without it. *)
Lemma size_minus_one_skips_verification_witness :
  let t := Example.get_release (mkChecksumInfo (-1) "deadbeef" "" "") in
  Size (expected t) = (-1)%Z /\
  handleTask (Example.get_release Example.no_check) Example.world0
    = handleTask t Example.world0.
Proof.
  intros t. split; [reflexivity|].
  destruct (size_minus_one_skips_verification t Example.world0 eq_refl) as (_ & _ & _ & Hsame).
  apply (Hsame Example.no_check). reflexivity.
Defined.

(** A 404: the error has the code and the URL, the file system is as it
    was. *)
Lemma status_error_iff_out_of_range_witness :
  let t := Example.get_missing in
  net Example.world0 (url t) = inr (mkResponse 404 (mkBody [] None)) /\
  reported t Example.world0 =
    [Some (Errorf "HTTP code %d while fetching %s"
             [ArgInt 404; ArgStr "http://mirror/missing"])] /\
  fs (after t Example.world0) = fs Example.world0.
Proof.
  intros t. split; [reflexivity|].
  destruct (status_error_iff_out_of_range t Example.world0 _ eq_refl) as [_ Hout].
  destruct Hout as (Hrep & Hfs & _); [right; simpl; lia|]. by split.
Defined.

(** A copy that breaks off leaves the directories made for the destination. *)
Lemma directories_remain_witness :
  let t := Example.get_broken in
  EMkdirAll "/srv/aptly/pool" None ∈ new_events Example.world0 (after t Example.world0) /\
  reported t Example.world0 = [Some (OsError "unexpected EOF")] /\
  fs Example.world0 !! "/srv/aptly" = None /\
  fs (after t Example.world0) !! "/srv/aptly" = Some Dir /\
  fs (after t Example.world0) !! "/srv/aptly/pool" = Some Dir.
Proof.
  intros t.
  assert (Hmk : EMkdirAll (filepath_Dir (destination t)) None
                  ∈ new_events Example.world0 (after t Example.world0))
    by in_computed.
  assert (Hfailed : reported t Example.world0 = [Some (OsError "unexpected EOF")])
    by (vm_compute; reflexivity).
  destruct (directories_remain t Example.world0 _ Hmk Hfailed) as (Hdirs & _ & _).
  split_and!; [exact Hmk|exact Hfailed|reflexivity|..]; apply Hdirs; left; in_computed.
Defined.

(** Two workers, one busy with a task and one task queued when [Shutdown] is
    called: it returns after both have acknowledged, the busy one after its
    task, and the queued task is still in the queue. *)
Lemma Shutdown_waits_for_idle_workers_witness :
  reachable 2 Example.world0 Example.pool11 /\
  shutdown Example.pool11 = Returned /\
  queue (pworld Example.pool11) = [Example.get_missing] /\
  (forall k wk, workers Example.pool11 !! k = Some wk ->
     stops wk = 1 /\ acks wk = 1 /\ at_ wk = Exited /\ finished wk = taken wk).
Proof.
  assert (Hreach : reachable 2 Example.world0 Example.pool11).
  { apply (reach_step _ _ Example.pool10 ReturnShutdown);
      [|by apply (step_return Example.pool10 (0 + 1 + 1))].
    apply (reach_step _ _ Example.pool9 (RecvStopped 1));
      [|by apply (step_stopped Example.pool9 (0 + 1) 1 (Worker Stopping 1 0 [] []))].
    apply (reach_step _ _ Example.pool8 (RecvStopped 0));
      [|by apply (step_stopped Example.pool8 0 0
                    (Worker Stopping 1 0 [Example.get_broken] [Example.get_broken]))].
    apply (reach_step _ _ Example.pool7 EndSends);
      [|by apply (step_end_sends Example.pool7 (0 + 1 + 1))].
    apply (reach_step _ _ Example.pool6 (SendStop 0));
      [|by apply (step_stop Example.pool6 (0 + 1) 0
                    (Worker Selecting 0 0 [Example.get_broken] [Example.get_broken]))].
    apply (reach_step _ _ Example.pool5 (FinishTask 0 Example.get_broken));
      [|by apply (step_finish Example.pool5 0
                    (Worker (Handling Example.get_broken) 0 0 [Example.get_broken] []))].
    apply (reach_step _ _ Example.pool4 (SendStop 1));
      [|by apply (step_stop Example.pool4 0 1 (Worker Selecting 0 0 [] []))].
    apply (reach_step _ _ Example.pool3 CallShutdown);
      [|by apply (step_call Example.pool3)].
    apply (reach_step _ _ Example.pool2 (TakeTask 0 Example.get_broken));
      [|by apply (step_take Example.pool2 0 (Worker Selecting 0 0 [] [])
                    Example.get_broken [Example.get_missing])].
    apply (reach_step _ _ Example.pool1 (Submit Example.get_missing));
      [|apply (step_submit Example.pool1 Example.get_missing); simpl; lia].
    apply (reach_step _ _ Example.pool0 (Submit Example.get_broken));
      [|apply (step_submit Example.pool0 Example.get_broken); simpl; lia].
    apply reach_new. }
  split_and!; [exact Hreach|reflexivity|vm_compute; reflexivity|].
  exact (proj2 (proj1 (proj2 (Shutdown_waits_for_idle_workers _ _ _ Hreach)) eq_refl)).
Defined.

(** [DownloadTemp] of a file the mirror has: the handle has the bytes, the
    temporary directory and the file in it are gone. *)
Lemma DownloadTemp_spec_witness :
  let r := DownloadTemp "http://mirror/Release" Example.world0 in
  r.2 = Return (Some (mkFile "/tmp/aptly123/buffer" (File (list_byte_of_string "hello"))),
                None) /\
  fs r.1 !! "/tmp/aptly123" = None /\
  fs r.1 !! "/tmp/aptly123/buffer" = None.
Proof.
  intros r. split; [vm_compute; reflexivity|].
  destruct (DownloadTemp_spec "http://mirror/Release" Example.world0)
    as [(e & Hevs & _)|(d & ch & v & Hhead & _ & _ & _ & _ & _ & _ & Hgone)].
  - vm_compute in Hevs. discriminate Hevs.
  - vm_compute in Hhead. injection Hhead as <-.
    split; apply Hgone; reflexivity.
Defined.

(** No [Packages.bz2], a [Packages.gz] that is not gzip data, a [Packages]:
    the third candidate is returned as it is. *)
Lemma DownloadTryCompression_spec_witness :
  let f := Some (mkFile "/tmp/aptly123/buffer" (File (list_byte_of_string "hello"))) in
  (DownloadTryCompression "http://mirror/Packages" Example.world0).2
    = Return (Some (FileReader f), f, None) /\
  url <$> enqueued (new_events Example.world0
                      (DownloadTryCompression "http://mirror/Packages" Example.world0).1)
    = ["http://mirror/Packages.bz2"; "http://mirror/Packages.gz"; "http://mirror/Packages"].
Proof.
  intros f. split; [|vm_compute; reflexivity].
  destruct (DownloadTryCompression_spec "http://mirror/Packages" Example.world0)
    as (_ & _ & Hraw & _).
  rewrite (Hraw f).
  - reflexivity.
  - eexists _, _. vm_compute. reflexivity.
  - right. eexists _, _. split; vm_compute; reflexivity.
  - vm_compute. reflexivity.
Defined.

(** A task that cannot reach its host: one error on its channel. *)
Lemma handleTask_one_outcome_witness :
  let t := mkTask "http://nowhere/x" "/srv/x" 7 Example.no_check in
  reported t Example.world0 = [Some (OsError "dial tcp: no such host")] /\
  pending (after t Example.world0) 7 = [Some (OsError "dial tcp: no such host")].
Proof.
  intros t.
  destruct (handleTask_one_outcome t Example.world0) as (_ & v & Hrep & Hpend & _).
  assert (Hv : v = Some (OsError "dial tcp: no such host")).
  { vm_compute in Hrep. by injection Hrep as <-. }
  subst v. split; [exact Hrep|exact Hpend].
Defined.

(** ** More of them *)

(** A host that cannot be reached: three calls, and nothing on disk. *)
Lemma transport_failure_touches_nothing_witness :
  let t := mkTask "http://nowhere/x" "/srv/x" 7 Example.no_check in
  net Example.world0 (url t) = inl "dial tcp: no such host" /\
  new_events Example.world0 (after t Example.world0) =
    [EPrintf "Downloading %s...\n" [ArgStr "http://nowhere/x"]; EGet "http://nowhere/x";
     ESend 7 (Some (OsError "dial tcp: no such host"))] /\
  fs (after t Example.world0) = fs Example.world0.
Proof.
  intros t. split; [reflexivity|].
  destruct (transport_failure_touches_nothing t Example.world0 _ eq_refl) as (Hevs & Hfs & _).
  by split.
Defined.


(** [Release] with its right size and md5: the file on disk has them. *)
Lemma verified_download_matches_witness :
  let t := Example.get_release (mkChecksumInfo 5 "md5:hello" "" "") in
  Size (expected t) ≠ (-1)%Z /\ reported t Example.world0 = [None] /\
  exists data,
    fs (after t Example.world0) !! "/srv/aptly/Release" = Some (File data) /\
    Z.of_nat (length data) = 5%Z /\ md5sum data = "md5:hello".
Proof.
  intros t.
  assert (Hsize : Size (expected t) ≠ (-1)%Z) by (simpl; lia).
  assert (Hrep : reported t Example.world0 = [None]) by (vm_compute; reflexivity).
  split_and!; try assumption.
  destruct (verified_download_matches t Example.world0 Hsize Hrep)
    as (data & Hfile & Hlen & Hmd5 & _).
  exists data. split_and!; [exact Hfile|exact Hlen|]. apply Hmd5. discriminate.
Defined.

(** Nothing in the way of [Release]: it is fetched. *)
Lemma handleTask_succeeds_witness :
  let t := Example.get_release Example.no_check in
  reported t Example.world0 = [None] /\
  fs (after t Example.world0) !! "/srv/aptly/Release"
    = Some (File (list_byte_of_string "hello")) /\
  fs (after t Example.world0) !! "/srv/aptly/Release.down" = None.
Proof.
  intros t.
  apply (handleTask_succeeds t Example.world0 (mkResponse 200 Example.hello)).
  - reflexivity.
  - simpl. lia.
  - reflexivity.
  - reflexivity.
  - vm_compute. reflexivity.
  - intros d b Hin. vm_compute in Hin.
    repeat (apply elem_of_cons in Hin as [->|Hin]; [vm_compute; discriminate|]).
    by apply elem_of_nil in Hin.
  - intros Hin. vm_compute in Hin.
    repeat (apply elem_of_cons in Hin as [Hin|Hin]; [discriminate Hin|]).
    by apply elem_of_nil in Hin.
  - vm_compute. discriminate.
  - intros Hin. vm_compute in Hin.
    repeat (apply elem_of_cons in Hin as [Hin|Hin]; [discriminate Hin|]).
    by apply elem_of_nil in Hin.
  - vm_compute. discriminate.
  - intros Hsize. by destruct Hsize.
Defined.


(** The run of the pool of two workers, up to the call of [Shutdown] and to
    its return. *)
Lemma run_to_pool3 : run Example.pool0 Example.steps3 Example.pool3.
Proof.
  apply (trace_cons step _ _ Example.pool1);
    [apply (step_submit Example.pool0 Example.get_broken); simpl; lia|].
  apply (trace_cons step _ _ Example.pool2);
    [apply (step_submit Example.pool1 Example.get_missing); simpl; lia|].
  apply (trace_cons step _ _ Example.pool3);
    [by apply (step_take Example.pool2 0 (Worker Selecting 0 0 [] [])
                 Example.get_broken [Example.get_missing])|].
  constructor.
Qed.

Lemma run_to_pool11 : run Example.pool3 Example.steps11 Example.pool11.
Proof.
  apply (trace_cons step _ _ Example.pool4); [by apply (step_call Example.pool3)|].
  apply (trace_cons step _ _ Example.pool5);
    [by apply (step_stop Example.pool4 0 1 (Worker Selecting 0 0 [] []))|].
  apply (trace_cons step _ _ Example.pool6);
    [by apply (step_finish Example.pool5 0
                 (Worker (Handling Example.get_broken) 0 0 [Example.get_broken] []))|].
  apply (trace_cons step _ _ Example.pool7);
    [by apply (step_stop Example.pool6 (0 + 1) 0
                 (Worker Selecting 0 0 [Example.get_broken] [Example.get_broken]))|].
  apply (trace_cons step _ _ Example.pool8);
    [by apply (step_end_sends Example.pool7 (0 + 1 + 1))|].
  apply (trace_cons step _ _ Example.pool9);
    [by apply (step_stopped Example.pool8 0 0
                 (Worker Stopping 1 0 [Example.get_broken] [Example.get_broken]))|].
  apply (trace_cons step _ _ Example.pool10);
    [by apply (step_stopped Example.pool9 (0 + 1) 1 (Worker Stopping 1 0 [] []))|].
  apply (trace_cons step _ _ Example.pool11);
    [by apply (step_return Example.pool10 (0 + 1 + 1))|].
  constructor.
Qed.

Lemma run_of_two_workers :
  run (NewDownloader 2 Example.world0) (Example.steps3 ++ Example.steps11) Example.pool11.
Proof. exact (trace_app step _ _ _ _ _ run_to_pool3 run_to_pool11). Qed.

(** [get_broken] was taken, [get_missing] is still queued: together, what was
    submitted. *)
Lemma tasks_start_in_submission_order_witness :
  run (NewDownloader 2 Example.world0) (Example.steps3 ++ Example.steps11) Example.pool11 /\
  started (Example.steps3 ++ Example.steps11) ++ queue (pworld Example.pool11)
    = [Example.get_broken; Example.get_missing].
Proof.
  split; [exact run_of_two_workers|].
  exact (proj1 (tasks_start_in_submission_order 2 Example.world0 _ _ run_of_two_workers)).
Defined.

(** One task taken and completed by two workers. *)
Lemma at_most_threads_in_hand_witness :
  run (NewDownloader 2 Example.world0) (Example.steps3 ++ Example.steps11) Example.pool11 /\
  length (started (Example.steps3 ++ Example.steps11))
    <= length (completed (Example.steps3 ++ Example.steps11)) + 2.
Proof.
  split; [exact run_of_two_workers|].
  exact (proj2 (at_most_threads_in_hand 2 Example.world0 _ _ run_of_two_workers)).
Defined.

(** The one task completed, [get_broken], has left one value on channel 0. *)
Lemma one_result_per_completed_task_witness :
  run (NewDownloader 2 Example.world0) (Example.steps3 ++ Example.steps11) Example.pool11 /\
  exists vs,
    pending (pworld Example.pool11) 0 = pending Example.world0 0 ++ vs /\ length vs = 1.
Proof.
  split; [exact run_of_two_workers|].
  destruct (one_result_per_completed_task 2 Example.world0 _ _ 0 run_of_two_workers)
    as (vs & Hpending & Hlen).
  exists vs. split; [exact Hpending|]. rewrite Hlen. vm_compute. reflexivity.
Defined.

(** No worker: a task submitted stays in the queue. *)
Lemma no_threads_no_downloads_witness :
  let p0 := NewDownloader 0 Example.world0 in
  let p1 := set_pworld (set_queue (fun q => q ++ [Example.get_missing]) (pworld p0)) p0 in
  (0 <= 0)%Z /\ run p0 [Submit Example.get_missing] p1 /\
  workers p1 = [] /\ queue (pworld p1) = [Example.get_missing].
Proof.
  intros p0 p1.
  assert (Hrun : run p0 [Submit Example.get_missing] p1).
  { apply trace_one. apply (step_submit p0 Example.get_missing). simpl. lia. }
  destruct (no_threads_no_downloads 0 Example.world0 _ _ (Z.le_refl 0) Hrun)
    as (Hws & _ & Hq & _).
  split_and!; [lia|exact Hrun|exact Hws|exact Hq].
Defined.

(** With [get_broken] in hand and [get_missing] queued, [Shutdown] can
    return, and [get_missing] is still queued then. *)
Lemma Shutdown_can_complete_witness :
  run (NewDownloader 2 Example.world0) Example.steps3 Example.pool3 /\
  shutdown Example.pool3 = NotCalled /\
  Forall (fun wk => at_ wk ≠ Paused) (workers Example.pool3) /\
  exists tr' p',
    run Example.pool3 tr' p' /\ shutdown p' = Returned /\
    queue (pworld p') = [Example.get_missing].
Proof.
  assert (Hawake : Forall (fun wk => at_ wk ≠ Paused) (workers Example.pool3)).
  { repeat (apply Forall_cons_2; [discriminate|]). apply Forall_nil_2. }
  destruct (Shutdown_can_complete 2 Example.world0 _ _ run_to_pool3 eq_refl Hawake)
    as (tr' & p' & Hrun & Hret & _ & _ & Hq).
  split_and!; [exact run_to_pool3|reflexivity|exact Hawake|].
  exists tr', p'. split_and!; [exact Hrun|exact Hret|exact Hq].
Defined.

(** The pool of one worker, paused, resumed, shut down. *)
Lemma solo_pause :
  crun (System Example.solo0 Idle) (Example.pause_steps ++ [ReturnPause])
       (System Example.solo_paused Idle).
Proof.
  apply (trace_cons cstep _ _ (System Example.solo0 (Pausing 0))); [constructor|].
  apply (trace_cons cstep _ _ (System Example.solo_paused (Pausing (0 + 1)))).
  { apply cstep_pause; [simpl; lia|].
    by apply (step_pause Example.solo0 0 (Worker Selecting 0 0 [] [])). }
  apply (trace_cons cstep _ _ (System Example.solo_paused Idle));
    [apply cstep_return_pause; simpl; lia|].
  constructor.
Qed.

Lemma solo_resume :
  crun (System Example.solo0 Idle) (Example.resume_steps ++ [ReturnResume])
       (System Example.solo_resumed Idle).
Proof.
  unfold Example.resume_steps. rewrite <- app_assoc.
  apply (trace_app cstep _ _ (System Example.solo_paused (Pausing (0 + 1)))).
  { apply (trace_cons cstep _ _ (System Example.solo0 (Pausing 0))); [constructor|].
    apply trace_one. apply cstep_pause; [simpl; lia|].
    by apply (step_pause Example.solo0 0 (Worker Selecting 0 0 [] [])). }
  apply (trace_cons cstep _ _ (System Example.solo_paused Idle));
    [apply cstep_return_pause; simpl; lia|].
  apply (trace_cons cstep _ _ (System Example.solo_paused (Resuming 0))); [constructor|].
  apply (trace_cons cstep _ _ (System Example.solo_resumed (Resuming (0 + 1)))).
  { apply cstep_unpause; [simpl; lia|].
    by apply (step_unpause Example.solo_paused 0 (Worker Paused 0 0 [] [])). }
  apply trace_one. apply cstep_return_resume. simpl. lia.
Qed.

Lemma solo_shutdown :
  crun (System Example.solo0 Idle) Example.shutdown_steps (System Example.solo5 Idle).
Proof.
  apply (trace_cons cstep _ _ (System Example.solo1 Idle));
    [by apply cstep_pool, step_call|].
  apply (trace_cons cstep _ _ (System Example.solo2 Idle)).
  { apply cstep_pool; [done|].
    by apply (step_stop Example.solo1 0 0 (Worker Selecting 0 0 [] [])). }
  apply (trace_cons cstep _ _ (System Example.solo3 Idle)).
  { apply cstep_pool; [done|]. by apply (step_end_sends Example.solo2 (0 + 1)). }
  apply (trace_cons cstep _ _ (System Example.solo4 Idle)).
  { apply cstep_pool; [done|].
    by apply (step_stopped Example.solo3 0 0 (Worker Stopping 1 0 [] [])). }
  apply (trace_cons cstep _ _ (System Example.solo5 Idle)).
  { apply cstep_pool; [done|]. by apply (step_return Example.solo4 (0 + 1)). }
  constructor.
Qed.

(** After [Pause] the worker is paused, and stays so while a task is
    submitted. *)
Lemma Pause_stops_every_worker_witness :
  let p := set_pworld (set_queue (fun q => q ++ [Example.get_missing])
                         (pworld Example.solo_paused)) Example.solo_paused in
  (0 < 1)%Z /\
  crun (System (NewDownloader 1 Example.world0) Idle)
       (Example.pause_steps ++ [ReturnPause] ++ [OfPool (Submit Example.get_missing)])
       (System p Idle) /\
  (CallResume ∉ [OfPool (Submit Example.get_missing)]) /\
  Forall (fun wk => at_ wk = Paused /\ finished wk = taken wk) (workers p).
Proof.
  intros p.
  assert (Hrun : crun (System (NewDownloader 1 Example.world0) Idle)
                   (Example.pause_steps ++ [ReturnPause] ++ [OfPool (Submit Example.get_missing)])
                   (System p Idle)).
  { rewrite app_assoc. apply (trace_app cstep _ _ _ _ _ solo_pause).
    apply trace_one. apply cstep_pool; [done|].
    apply (step_submit Example.solo_paused Example.get_missing). simpl. lia. }
  assert (Hno : CallResume ∉ [OfPool (Submit Example.get_missing)]).
  { intros Hin. apply elem_of_cons in Hin as [Hin|Hin]; [discriminate Hin|].
    by apply elem_of_nil in Hin. }
  split_and!; [lia|exact Hrun|exact Hno|].
  exact (proj1 (Pause_stops_every_worker 1 Example.world0 _ _ _ ltac:(lia) Hrun Hno)).
Defined.

(** After [Pause] and [Resume] the worker is at its select again. *)
Lemma Resume_wakes_every_worker_witness :
  crun (System (NewDownloader 1 Example.world0) Idle)
       (Example.resume_steps ++ [ReturnResume]) (System Example.solo_resumed Idle) /\
  Forall (fun wk => at_ wk ≠ Paused) (workers Example.solo_resumed).
Proof.
  split; [exact solo_resume|].
  exact (proj2 (Resume_wakes_every_worker 1 Example.world0 _ _ solo_resume)).
Defined.

(** [Resume] as the first call: the caller is still at its first send after
    a task was submitted. *)
Lemma Resume_without_Pause_blocks_witness :
  let s0 := System (NewDownloader 1 Example.world0) Idle in
  let p := set_pworld (set_queue (fun q => q ++ [Example.get_missing])
                         (pworld Example.solo0)) Example.solo0 in
  (0 < 1)%Z /\ crun s0 [] s0 /\
  Forall (fun wk => at_ wk ≠ Paused) (workers (the_pool s0)) /\
  crun s0 [CallResume; OfPool (Submit Example.get_missing)] (System p (Resuming 0)) /\
  control (System p (Resuming 0)) = Resuming 0.
Proof.
  intros s0 p.
  assert (Hrun0 : crun s0 [] s0) by constructor.
  assert (Hawake : Forall (fun wk => at_ wk ≠ Paused) (workers (the_pool s0))).
  { repeat (apply Forall_cons_2; [discriminate|]). apply Forall_nil_2. }
  assert (Hrun : crun s0 [CallResume; OfPool (Submit Example.get_missing)]
                   (System p (Resuming 0))).
  { apply (trace_cons cstep _ _ (System Example.solo0 (Resuming 0))); [constructor|].
    apply trace_one. apply cstep_pool; [done|].
    apply (step_submit Example.solo0 Example.get_missing). simpl. lia. }
  split_and!; [lia|exact Hrun0|exact Hawake|exact Hrun|].
  exact (proj1 (Resume_without_Pause_blocks 1 Example.world0 _ _ _ _ ltac:(lia)
                  Hrun0 Hawake Hrun)).
Defined.

(** [Pause] called after [Shutdown] has returned: the worker stays gone. *)
Lemma calls_after_Shutdown_wait_witness :
  (0 < 1)%Z /\
  crun (System (NewDownloader 1 Example.world0) Idle) Example.shutdown_steps
       (System Example.solo5 Idle) /\
  shutdown Example.solo5 = Returned /\
  crun (System Example.solo5 Idle) [CallPause] (System Example.solo5 (Pausing 0)) /\
  workers Example.solo5 = [Worker Exited 1 1 [] []].
Proof.
  assert (Hrun : crun (System Example.solo5 Idle) [CallPause]
                   (System Example.solo5 (Pausing 0))).
  { apply trace_one. constructor. }
  split_and!; [lia|exact solo_shutdown|reflexivity|exact Hrun|].
  exact (eq_sym (proj1 (calls_after_Shutdown_wait 1 Example.world0 _ _ _ _ ltac:(lia)
                          solo_shutdown eq_refl Hrun))).
Defined.

(** A pool just made: [Pause] can be called and return. *)
Lemma Pause_can_complete_witness :
  let s0 := System (NewDownloader 1 Example.world0) Idle in
  crun s0 [] s0 /\ control s0 = Idle /\ shutdown (the_pool s0) = NotCalled /\
  Forall (fun wk => at_ wk ≠ Paused) (workers (the_pool s0)) /\
  exists tr' s',
    crun s0 (CallPause :: tr' ++ [ReturnPause]) s' /\
    Forall (fun wk => at_ wk = Paused) (workers (the_pool s')).
Proof.
  intros s0.
  assert (Hrun0 : crun s0 [] s0) by constructor.
  assert (Hawake : Forall (fun wk => at_ wk ≠ Paused) (workers (the_pool s0))).
  { repeat (apply Forall_cons_2; [discriminate|]). apply Forall_nil_2. }
  destruct (Pause_can_complete 1 Example.world0 _ _ Hrun0 eq_refl eq_refl Hawake)
    as (tr' & s' & Hrun & _ & _ & Hall & _).
  split_and!; [exact Hrun0|reflexivity|reflexivity|exact Hawake|].
  exists tr', s'. split; [exact Hrun|exact Hall].
Defined.

(** After [Pause], [Resume] can be called and return. *)
Lemma Resume_can_complete_witness :
  crun (System (NewDownloader 1 Example.world0) Idle) (Example.pause_steps ++ [ReturnPause])
       (System Example.solo_paused Idle) /\
  exists tr' s',
    crun (System Example.solo_paused Idle) (CallResume :: tr' ++ [ReturnResume]) s' /\
    length tr' = 1 /\
    Forall (fun wk => at_ wk = Selecting) (workers (the_pool s')).
Proof.
  split; [exact solo_pause|].
  destruct (Resume_can_complete 1 Example.world0 _ _ solo_pause)
    as (tr' & s' & Hrun & _ & Hlen & _ & Hall & _).
  exists tr', s'. split_and!; [exact Hrun|exact Hlen|exact Hall].
Defined.

(** [Packages] is returned as it is: a reader and its file, no error. *)
Lemma DownloadTryCompression_result_witness :
  let f := Some (mkFile "/tmp/aptly123/buffer" (File (list_byte_of_string "hello"))) in
  (DownloadTryCompression "http://mirror/Packages" Example.world0).2
    = Return (Some (FileReader f), f, None) /\
  exists r' f', Some (FileReader f) = Some r' /\ f = Some f'.
Proof.
  intros f.
  assert (Hrun : (DownloadTryCompression "http://mirror/Packages" Example.world0).2
                 = Return (Some (FileReader f), f, None)) by (vm_compute; reflexivity).
  split; [exact Hrun|].
  destruct (DownloadTryCompression_result "http://mirror/Packages" Example.world0
              (Some (FileReader f)) f None Hrun)
    as [(r' & f' & Hr & Hf & _)|(e' & Hr & _)]; [|discriminate Hr].
  exists r', f'. split; assumption.
Defined.
